(** * Gap-analysis worker: shallow embedding and verified properties

    The development follows the Python sources module by module:

    - [PyStr]     the [str] operations the sources rely on
                  ([split], [lower], [strip], [in], slicing);
    - [Helpers]   [app/utils/helpers.py]: [calculate_similarity],
                  [RateLimiter.wait_if_needed], [retry_async];
    - [Search]    [app/services/search_service.py];
    - [Grobid]    [app/services/grobid_client.py];
    - [Gemini]    [app/services/gemini_service.py];
    - [Store]     [app/model/gap_models.py] and the upsert of
                  [_create_gap_analysis];
    - [Pipeline]  [app/services/gap_analysis_service.py];
    - [Consumer]  [app/services/rabbitmq_service.py].

    Coroutines are embedded in a state-and-exception monad [M] over a
    [World] that carries the clock, the mutable service objects, the
    database and an oracle for every answer of the outside world (the
    text-generation model, arXiv, the PDF service, the broker).  Every
    computation also returns the list of [event]s it caused, so a
    statement such as "the upstream is not invoked" is a statement
    about that list.

    Numbers: Python [int] is [Z]; [float] values (scores, durations in
    seconds) are exact rationals [Q]. *)

From Stdlib Require Import ZArith QArith Qminmax Ascii String List Bool Lia.
From stdpp Require Import base option list strings pretty gmap.
Import ListNotations.
Set Warnings "-clear-no-such-hyp".
Local Open Scope string_scope.

(** ** Python [str] *)

Module PyStr.

(** A [str] is a sequence of code points; the model covers the code
    points below 256, one [ascii] each.  [isspace] and [lower_char] are
    Python's [str.isspace] and [str.lower] on that range. *)
Definition isspace (c : ascii) : bool :=
  let n := N_of_ascii c in
  (((9 <=? n) && (n <=? 13)) || ((28 <=? n) && (n <=? 32))
   || (n =? 133) || (n =? 160))%N.

Definition lower_char (c : ascii) : ascii :=
  let n := N_of_ascii c in
  if ((((65 <=? n) && (n <=? 90))
       || ((192 <=? n) && (n <=? 222) && negb (n =? 215))))%N
  then ascii_of_N (n + 32) else c.

Fixpoint lower (s : string) : string :=
  match s with
  | EmptyString => EmptyString
  | String c rest => String (lower_char c) (lower rest)
  end.

(** [s.split()]: maximal runs of non-whitespace, in order.  [cur] is
    the run being read. *)
Fixpoint split_from (cur s : string) : list string :=
  match s with
  | EmptyString => match cur with EmptyString => [] | _ => [cur] end
  | String c rest =>
      if isspace c
      then match cur with
           | EmptyString => split_from EmptyString rest
           | _ => cur :: split_from EmptyString rest
           end
      else split_from (cur ++ String c EmptyString) rest
  end.

Definition split (s : string) : list string := split_from EmptyString s.

(** [split_from] in two parts: the words closed by a later whitespace,
    and the run still open at the end of the string. *)
Fixpoint completed (cur s : string) : list string :=
  match s with
  | EmptyString => []
  | String c rest =>
      if isspace c
      then match cur with
           | EmptyString => completed EmptyString rest
           | _ => cur :: completed EmptyString rest
           end
      else completed (cur ++ String c EmptyString) rest
  end.

Fixpoint pending (cur s : string) : string :=
  match s with
  | EmptyString => cur
  | String c rest =>
      if isspace c then pending EmptyString rest
      else pending (cur ++ String c EmptyString) rest
  end.

Definition word_list (p : string) : list string :=
  match p with
  | EmptyString => []
  | _ => [p]
  end.

(** [sep.join(l)] *)
Definition join (sep : string) (l : list string) : string := String.concat sep l.

(** [needle in hay] *)
Fixpoint contains (needle hay : string) : bool :=
  String.prefix needle hay
  || match hay with
     | EmptyString => false
     | String _ rest => contains needle rest
     end.

Fixpoint lstrip (p : ascii -> bool) (s : string) : string :=
  match s with
  | EmptyString => EmptyString
  | String c rest => if p c then lstrip p rest else s
  end.

Definition reverse (s : string) : string :=
  string_of_list_ascii (rev (list_ascii_of_string s)).

Definition strip_with (p : ascii -> bool) (s : string) : string :=
  reverse (lstrip p (reverse (lstrip p s))).

(** [s.strip()], and [s.strip(q)] for [q] the double-quote character *)
Definition strip (s : string) : string := strip_with isspace s.
Definition strip_quotes (s : string) : string :=
  strip_with (fun c => (N_of_ascii c =? 34)%N) s.

(** [s[:n]] *)
Definition take (n : nat) (s : string) : string := String.substring 0 n s.

(** ASCII punctuation ([string.punctuation]). *)
Definition ispunct (c : ascii) : bool :=
  let n := N_of_ascii c in
  (((33 <=? n) && (n <=? 47)) || ((58 <=? n) && (n <=? 64))
   || ((91 <=? n) && (n <=? 96)) || ((123 <=? n) && (n <=? 126)))%N.

Fixpoint all_chars (p : ascii -> bool) (s : string) : bool :=
  match s with
  | EmptyString => true
  | String c rest => p c && all_chars p rest
  end.

End PyStr.

Local Open Scope list_scope.

(** ** Schemas ([app/schemas/gap_schemas.py]) *)

Record PaperSearchResult := mkPaperSearchResult {
  psr_title : string;
  psr_abstract : option string;
  psr_doi : option string;
  psr_url : option string;
  psr_pdf_url : option string;
  psr_publication_date : option string;
  psr_authors : list string;
  psr_venue : option string
}.

(** ** [app/utils/helpers.py]: pure part *)

Module Helpers.

(** [set(text.lower().split())] *)
Definition word_set (text : string) : gset string :=
  list_to_set (PyStr.split (PyStr.lower text)).

(** [calculate_similarity]: Jaccard similarity of the two word sets.
    The quotient [len(intersection) / len(union)] is kept exact. *)
Definition calculate_similarity (text1 text2 : string) : Q :=
  match text1, text2 with
  | EmptyString, _ | _, EmptyString => 0
  | _, _ =>
      let words1 := word_set text1 in
      let words2 := word_set text2 in
      let intersection := words1 ∩ words2 in
      let union := words1 ∪ words2 in
      if decide (size union = 0%nat) then 0
      else inject_Z (Z.of_nat (size intersection)) / inject_Z (Z.of_nat (size union))
  end.

End Helpers.

(** ** Values shared by the services *)

(** A Python exception: its class name and [str(e)].  Only subclasses
    of [Exception] are modelled. *)
Record exn := mkExn { exn_class : string; exn_msg : string }.

(** Decoded JSON, as produced by [json.loads]. *)
#[local] Unset Elimination Schemes.
Inductive json :=
| JNull
| JBool (b : bool)
| JNum (q : Q)
| JStr (s : string)
| JArr (items : list json)
| JObj (fields : list (string * json)).
#[local] Set Elimination Schemes.

(** [d.get(key)] on a JSON object *)
Fixpoint dict_get (key : string) (fields : list (string * json)) : option json :=
  match fields with
  | [] => None
  | (k, v) :: rest => if String.eqb k key then Some v else dict_get key rest
  end.

Record InitialGap := mkInitialGap {
  gap_name : string;
  gap_description : string;
  gap_category : string;
  gap_reasoning : string;
  gap_evidence : string
}.

Record ValidationResult := mkValidationResult {
  is_valid : bool;
  confidence : Q;
  reasoning : string;
  should_modify : bool;
  modification_suggestion : option string;
  supporting_papers : list (list (string * string));
  conflicting_papers : list (list (string * string))
}.

Record ExtractedContent := mkExtractedContent {
  ec_title : string;
  ec_abstract : option string;
  ec_sections : list (list (string * string));
  ec_conclusion : option string;
  ec_methods : option string;
  ec_results : option string;
  extraction_success : bool;
  ec_error : option string
}.

(** [ExtractedContent(title="", extraction_success=False, error=msg)] *)
Definition failed_extraction (msg : string) : ExtractedContent :=
  mkExtractedContent "" None [] None None None false (Some msg).

Record GapAnalysisRequest := mkGapAnalysisRequest {
  paperId : string;
  paperExtractionId : string;
  correlationId : string;
  requestId : string;
  config : json
}.

(** [GapStatus] of [app/model/gap_models.py] *)
Inductive GapStatus := PENDING | PROCESSING | COMPLETED | FAILED.

(** A row of [gap_analyses] (class [GapAnalysis]); [id] is the UUID. *)
Record GapAnalysis := mkGapAnalysis {
  ga_id : N;
  ga_paper_id : string;
  ga_paper_extraction_id : string;
  ga_correlation_id : string;
  ga_request_id : string;
  ga_status : GapStatus;
  ga_started_at : option Q;
  ga_completed_at : option Q;
  ga_error_message : option string;
  ga_config : json;
  total_gaps_identified : Z;
  valid_gaps_count : Z;
  invalid_gaps_count : Z;
  modified_gaps_count : Z
}.

(** ** The world and the coroutine monad *)

Inductive limiter_name := GeminiLimiter | ArxivLimiter.

(** The text sent to [model.generate_content], by the operation that
    builds it and the values interpolated into it. *)
Inductive prompt :=
| PromptInitialGaps (paper_data extracted_content : json)
| PromptSearchQuery (gap : InitialGap)
| PromptValidate (gap : InitialGap) (related_papers : list ExtractedContent)
| PromptExpand (gap : InitialGap) (validation : ValidationResult).

(** The SQL statements the worker issues on [gap_analyses]. *)
Inductive statement :=
| UpsertAnalysis (values : GapAnalysis)
| SelectByCorrelation (correlation_id : string).

(** What the worker publishes: a [GapAnalysisResponse] dumped as JSON
    is defined further down; at this level a published body is its
    [status], the identifiers it carries and a summary. *)
Record published := mkPublished {
  pub_status : string;
  pub_request_id : option string;
  pub_correlation_id : option string;
  pub_message : string;
  pub_error : option string;
  pub_original_message : option string;
  pub_total_gaps : Z;
  pub_valid_gaps : Z;
  pub_gap_ids : list string
}.

(** Observable effects.  Each is either a suspension ([Sleep]), the
    entry into a guard ([Acquire]), or a call that leaves the process. *)
Inductive event :=
| Sleep (seconds : Q)
| Acquire (limiter : limiter_name)
| Generate (p : prompt)
| ArxivQuery (clean_query : string) (limit : Z)
| HttpGet (url : string) (browser_agent : bool)
| GrobidPost (pdf_bytes : list Byte.byte)
| ExtractBatch (papers : list PaperSearchResult)
| RandomUniform
| Uuid4
| FetchPaper (paper_id extraction_id : string)
| DbExecute (stmt : statement)
| DbFlush (row : GapAnalysis)
| DbCommit
| DbRollback
| DbGet (id : N)
| SessionOpen
| SessionClose
| ConnectivityTests
| CloseClient (service : string)
| GetExchange
| Publish (body : published).

(** Answers of the outside world. *)
Inductive reply :=
| Fault (e : exn)
| Done
| Text (s : string)
| Number (q : Q)
| Fresh (id : N)
| Response (status_code : Z) (content : list Byte.byte)
| Feed (status_code : Z) (entries : option (list PaperSearchResult))
| Contents (l : list ExtractedContent)
| PaperData (found : option (json * json)).

Record RateLimiter := mkRateLimiter {
  max_calls : Z;
  time_window : Q;
  calls : list Q
}.

Inductive breaker := CLOSED | OPEN | HALF_OPEN.

(** The mutable attributes of a [GeminiService] object. *)
Record GeminiService := mkGeminiService {
  rate_limiter : RateLimiter;
  circuit_breaker_failures : Z;
  circuit_breaker_threshold : Z;
  circuit_breaker_timeout : Q;
  circuit_breaker_last_failure : option Q;
  circuit_breaker_state : breaker
}.

(** The two attributes of [settings] the pipeline reads.
    [RUN_CONNECTIVITY_TESTS] is not a declared field of [Settings]: it
    exists only when the environment defines it. *)
Record Settings := mkSettings {
  RUN_CONNECTIVITY_TESTS : option bool;
  GAP_VALIDATION_PAPERS : Z
}.

Record World := mkWorld {
  clock : Q;
  oracle : nat -> event -> reply;
  asked : nat;
  settings : Settings;
  gemini : GeminiService;
  arxiv_limiter : RateLimiter;
  session_rows : list GapAnalysis;
  committed_rows : list GapAnalysis
}.

Inductive res (A : Type) :=
| Ok (a : A)
| Raise (e : exn).
Arguments Ok {A} a.
Arguments Raise {A} e.

Definition M (A : Type) : Type := World -> res A * World * list event.

#[global] Instance M_ret : MRet M := fun A a w => (Ok a, w, []).

#[global] Instance M_bind : MBind M := fun A B f c w =>
  match c w with
  | (Ok a, w1, t1) => let '(r, w2, t2) := f a w1 in (r, w2, t1 ++ t2)
  | (Raise e, w1, t1) => (Raise e, w1, t1)
  end.

Definition raise {A} (e : exn) : M A := fun w => (Raise e, w, []).

(** [try: c  except Exception as e: h e] *)
Definition catch {A} (c : M A) (h : exn -> M A) : M A := fun w =>
  match c w with
  | (Ok a, w1, t1) => (Ok a, w1, t1)
  | (Raise e, w1, t1) => let '(r, w2, t2) := h e w1 in (r, w2, t1 ++ t2)
  end.

(** [try: c  finally: f] *)
Definition finally {A} (c : M A) (f : M unit) : M A := fun w =>
  let '(r, w1, t1) := c w in
  match f w1 with
  | (Ok _, w2, t2) => (r, w2, t1 ++ t2)
  | (Raise e, w2, t2) => (Raise e, w2, t1 ++ t2)
  end.

Definition gets {A} (f : World -> A) : M A := fun w => (Ok (f w), w, []).
Definition modify (f : World -> World) : M unit := fun w => (Ok tt, f w, []).
Definition emit (e : event) : M unit := fun w => (Ok tt, w, [e]).

Definition set_clock (t : Q) (w : World) : World :=
  mkWorld t (oracle w) (asked w) (settings w) (gemini w) (arxiv_limiter w)
    (session_rows w) (committed_rows w).
Definition set_asked (n : nat) (w : World) : World :=
  mkWorld (clock w) (oracle w) n (settings w) (gemini w) (arxiv_limiter w)
    (session_rows w) (committed_rows w).
Definition set_gemini (g : GeminiService) (w : World) : World :=
  mkWorld (clock w) (oracle w) (asked w) (settings w) g (arxiv_limiter w)
    (session_rows w) (committed_rows w).
Definition set_arxiv_limiter (l : RateLimiter) (w : World) : World :=
  mkWorld (clock w) (oracle w) (asked w) (settings w) (gemini w) l
    (session_rows w) (committed_rows w).
Definition set_session_rows (rows : list GapAnalysis) (w : World) : World :=
  mkWorld (clock w) (oracle w) (asked w) (settings w) (gemini w) (arxiv_limiter w)
    rows (committed_rows w).
Definition set_committed_rows (rows : list GapAnalysis) (w : World) : World :=
  mkWorld (clock w) (oracle w) (asked w) (settings w) (gemini w) (arxiv_limiter w)
    (session_rows w) rows.

(** A call that leaves the process: it is recorded, and the oracle
    answers it; the answer may depend on how many calls came before. *)
Definition ask (e : event) : M reply := fun w =>
  (Ok (oracle w (asked w) e), set_asked (S (asked w)) w, [e]).

(** A call whose answer carries no value. *)
Definition perform (e : event) : M unit :=
  r ← ask e;
  match r with
  | Fault x => raise x
  | _ => mret tt
  end.

(** [await asyncio.sleep(seconds)]: the clock advances by the delay
    (not at all for a delay that is not positive). *)
Definition sleep (seconds : Q) : M unit := fun w =>
  (Ok tt, set_clock (Qred (clock w + Qmax 0 seconds)) w, [Sleep seconds]).

Definition Qltb (x y : Q) : bool := negb (Qle_bool y x).

(** How one iteration of a [for] loop ends: with [return a], or by
    going on to the next iteration ([continue], or the end of the
    loop body). *)
Inductive step (A : Type) :=
| Return (a : A)
| Continue.
Arguments Return {A} a.
Arguments Continue {A}.

Definition expect_text (r : reply) : M string :=
  match r with
  | Text s => mret s
  | Fault e => raise e
  | _ => raise (mkExn "TypeError" "unexpected reply")
  end.

(** ** [app/utils/helpers.py]: [RateLimiter] and [retry_async] *)

Module Limiter.

Definition get_limiter (name : limiter_name) (w : World) : RateLimiter :=
  match name with
  | GeminiLimiter => rate_limiter (gemini w)
  | ArxivLimiter => arxiv_limiter w
  end.

Definition set_rate_limiter (l : RateLimiter) (g : GeminiService) : GeminiService :=
  mkGeminiService l (circuit_breaker_failures g) (circuit_breaker_threshold g)
    (circuit_breaker_timeout g) (circuit_breaker_last_failure g)
    (circuit_breaker_state g).

Definition set_limiter (name : limiter_name) (l : RateLimiter) (w : World) : World :=
  match name with
  | GeminiLimiter => set_gemini (set_rate_limiter l (gemini w)) w
  | ArxivLimiter => set_arxiv_limiter l w
  end.

Definition set_calls (cs : list Q) (l : RateLimiter) : RateLimiter :=
  mkRateLimiter (max_calls l) (time_window l) cs.

(** [min(self.calls)] on a non-empty list *)
Definition oldest_of (c : Q) (cs : list Q) : Q :=
  fold_left (fun m t => if Qltb t m then t else m) cs c.

(** [RateLimiter.wait_if_needed].  The method calls itself after it
    slept; [depth] bounds that recursion (the interpreter raises
    [RecursionError] past its limit). *)
Fixpoint wait_if_needed_from (depth : nat) (name : limiter_name) : M unit :=
  emit (Acquire name);;
  now ← gets clock;
  lim ← gets (get_limiter name);
  let cutoff := (now - time_window lim)%Q in
  let kept := List.filter (fun call_time => Qltb cutoff call_time) (calls lim) in
  modify (set_limiter name (set_calls kept lim));;
  (if (max_calls lim <=? Z.of_nat (length kept))%Z
   then match kept with
        | [] => raise (mkExn "ValueError" "min() arg is an empty sequence")
        | c :: cs =>
            let oldest_call := oldest_of c cs in
            let wait_time := (oldest_call + time_window lim - now)%Q in
            if Qltb 0%Q wait_time
            then sleep wait_time;;
                 match depth with
                 | O => raise (mkExn "RecursionError" "maximum recursion depth exceeded")
                 | S d => wait_if_needed_from d name
                 end
            else mret tt
        end
   else mret tt);;
  lim' ← gets (get_limiter name);
  modify (set_limiter name (set_calls (calls lim' ++ [now]) lim')).

(** The recursion is entered with one level per recorded call, which
    [wait_if_needed_returns] shows is never used up. *)
Definition wait_if_needed (name : limiter_name) : M unit := fun w =>
  wait_if_needed_from (length (calls (get_limiter name w))) name w.

End Limiter.

Module Retry.

(** The loop of [retry_async]'s [wrapper], from attempt [attempt] on,
    with [remaining] iterations left. *)
Fixpoint retry_from {A} (remaining : nat) (attempt max_attempts : Z) (delay : Q)
    (func : M A) (last_exception : option exn) : M A :=
  match remaining with
  | O => match last_exception with
         | Some e => raise e
         | None => raise (mkExn "TypeError" "exceptions must derive from BaseException")
         end
  | S r =>
      catch func (fun e =>
        (if (attempt <? max_attempts - 1)%Z then sleep delay else mret tt);;
        retry_from r (attempt + 1)%Z max_attempts delay func (Some e))
  end.

(** [@retry_async(max_attempts, delay)] applied to the coroutine [func] *)
Definition retry_async {A} (max_attempts : nat) (delay : Q) (func : M A) : M A :=
  retry_from max_attempts 0 (Z.of_nat max_attempts) delay func None.

End Retry.

(** ** [app/services/search_service.py] *)

Module Search.

(** [l[:n]] for a Python [int] *)
Definition slice_to {A} (n : Z) (l : list A) : list A :=
  if (0 <=? n)%Z then firstn (Z.to_nat n) l
  else firstn (Z.to_nat (Z.of_nat (length l) + n)) l.

(** The inner loop of [_remove_duplicates]: is [result] similar to one
    of the results kept so far? *)
Definition is_duplicate (result : PaperSearchResult)
    (unique_results : list PaperSearchResult) : bool :=
  existsb (fun unique_result =>
             Qltb 0.8%Q (Helpers.calculate_similarity (psr_title result)
                                                    (psr_title unique_result)))
          unique_results.

Definition _remove_duplicates (results : list PaperSearchResult)
    : list PaperSearchResult :=
  match results with
  | [] => []
  | first :: rest =>
      fold_left (fun unique_results result =>
                   if is_duplicate result unique_results
                   then unique_results
                   else unique_results ++ [result])
                rest [first]
  end.

(** The body of [_search_arxiv] inside its [try]. *)
Definition _search_arxiv_try (query : string) (limit : Z)
    : M (list PaperSearchResult) :=
  Limiter.wait_if_needed ArxivLimiter;;
  let clean_query := PyStr.lower (PyStr.strip query) in
  response ← ask (ArxivQuery clean_query limit);
  match response with
  | Fault e => raise e
  | Feed status_code entries =>
      if (status_code =? 200)%Z
      then match entries with
           | Some results => mret results
           | None => mret []
           end
      else mret []
  | _ => raise (mkExn "TypeError" "unexpected reply")
  end.

Definition _search_arxiv (query : string) (limit : Z)
    : M (list PaperSearchResult) :=
  Retry.retry_async 3 1
    (catch (_search_arxiv_try query limit) (fun _ => mret [])).

Definition search_papers (query : string) (max_results : Z)
    : M (list PaperSearchResult) :=
  results ← _search_arxiv query max_results;
  let all_results := results in
  all_results ←
    (if (length all_results =? 0)%nat
     then
       let words := PyStr.split query in
       all_results ←
         (if (2 <? length words)%nat
          then
            let fallback_query := PyStr.join " " (firstn 2 words) in
            fallback_results ← _search_arxiv fallback_query max_results;
            mret (all_results ++ fallback_results)
          else mret all_results);
       (if ((length all_results =? 0)%nat && (1 <? length words)%nat)
        then
          let single_word_query := hd "" words in
          single_word_results ← _search_arxiv single_word_query max_results;
          mret (all_results ++ single_word_results)
        else mret all_results)
     else mret all_results);
  let unique_results := _remove_duplicates all_results in
  mret (slice_to max_results unique_results).

End Search.


(** ** [app/services/grobid_client.py] *)

Module Grobid.

Definition isdigit (c : ascii) : bool :=
  let n := N_of_ascii c in ((48 <=? n) && (n <=? 57))%N.

(** The longest prefix of digits, and what follows it. *)
Fixpoint span_digits (s : string) : string * string :=
  match s with
  | EmptyString => (EmptyString, EmptyString)
  | String c rest =>
      if isdigit c
      then let '(d, r) := span_digits rest in (String c d, r)
      else (EmptyString, s)
  end.

Fixpoint drop_prefix (p s : string) : option string :=
  match p, s with
  | EmptyString, _ => Some s
  | String a p', String b s' => if Ascii.eqb a b then drop_prefix p' s' else None
  | String _ _, EmptyString => None
  end.

(** A match of the pattern [\d+\.\d+] at the start of [s]. *)
Definition match_arxiv_id (s : string) : option string :=
  let '(d1, r1) := span_digits s in
  match d1, r1 with
  | String _ _, String "."%char r2 =>
      let '(d2, _) := span_digits r2 in
      match d2 with
      | String _ _ => Some (d1 +:+ "." +:+ d2)
      | EmptyString => None
      end
  | _, _ => None
  end.

(** [re.search(r'arxiv\.org/abs/(\d+\.\d+)', url)], group 1 *)
Fixpoint arxiv_match (url : string) : option string :=
  match drop_prefix "arxiv.org/abs/" url ≫= match_arxiv_id with
  | Some arxiv_id => Some arxiv_id
  | None =>
      match url with
      | EmptyString => None
      | String _ rest => arxiv_match rest
      end
  end.

Definition expect_response (r : reply) : M (Z * list Byte.byte) :=
  match r with
  | Response status_code content => mret (status_code, content)
  | Fault e => raise e
  | _ => raise (mkExn "TypeError" "unexpected reply")
  end.

Definition _try_direct_download (url : string) : M (option (list Byte.byte)) :=
  response ← ask (HttpGet url false) ≫= expect_response;
  let '(status_code, content) := response in
  if (status_code =? 200)%Z
  then
    let content_size := length content in
    if (content_size <? 1000)%nat then mret None else mret (Some content)
  else mret None.

Definition _try_with_user_agent (url : string) : M (option (list Byte.byte)) :=
  response ← ask (HttpGet url true) ≫= expect_response;
  let '(status_code, content) := response in
  if (status_code =? 200)%Z
  then
    let content_size := length content in
    if (content_size <? 1000)%nat then mret None else mret (Some content)
  else mret None.

(** The list [alternative_urls] built by [_try_alternative_urls].  The
    module [re] is imported inside the arXiv branch only, so the PMC
    branch reads an unbound local name. *)
Definition alternative_urls_of (url : string) : res (list string) :=
  if PyStr.contains "arxiv.org" url
  then match arxiv_match url with
       | Some arxiv_id =>
           Ok [ "https://arxiv.org/pdf/" +:+ arxiv_id +:+ ".pdf";
                "https://arxiv.org/e-print/" +:+ arxiv_id ]
       | None => Ok []
       end
  else if PyStr.contains "ncbi.nlm.nih.gov" url
  then Raise (mkExn "UnboundLocalError"
                "cannot access local variable 're' where it is not associated with a value")
  else Ok [].

(** The loop over [alternative_urls]: the first answer with status 200
    is returned as it is. *)
Fixpoint try_urls (alternative_urls : list string) : M (option (list Byte.byte)) :=
  match alternative_urls with
  | [] => mret None
  | alt_url :: rest =>
      s ← catch
            (response ← ask (HttpGet alt_url false) ≫= expect_response;
             let '(status_code, content) := response in
             if (status_code =? 200)%Z then mret (Return (Some content))
             else mret Continue)
            (fun _ => mret Continue);
      match s with
      | Return r => mret r
      | Continue => try_urls rest
      end
  end.

Definition _try_alternative_urls (url : string) : M (option (list Byte.byte)) :=
  match alternative_urls_of url with
  | Raise e => raise e
  | Ok alternative_urls => try_urls alternative_urls
  end.

(** The loop of [_download_pdf] over its three strategies; [if result]
    holds for bytes that are not empty. *)
Fixpoint download_with (download_attempts : list (string -> M (option (list Byte.byte))))
    (url : string) : M (option (list Byte.byte)) :=
  match download_attempts with
  | [] => mret None
  | attempt_func :: rest =>
      s ← catch
            (result ← attempt_func url;
             match result with
             | Some (b :: bs) => mret (Return (Some (b :: bs)))
             | _ => mret Continue
             end)
            (fun _ => mret Continue);
      match s with
      | Return r => mret r
      | Continue => download_with rest url
      end
  end.

Definition _download_pdf (url : string) : M (option (list Byte.byte)) :=
  download_with [_try_direct_download; _try_with_user_agent; _try_alternative_urls] url.

Section Extraction.

(** [_parse_tei_xml], applied to the body of a 200 answer. *)
Variable _parse_tei_xml : list Byte.byte -> ExtractedContent.

(** The [for attempt in range(max_attempts)] loop of
    [_extract_with_retry], from [attempt] on. *)
Fixpoint extract_attempts (remaining : nat) (attempt max_attempts : Z)
    (pdf_bytes : list Byte.byte) : M ExtractedContent :=
  match remaining with
  | O => mret (failed_extraction "GROBID extraction failed after all retry attempts")
  | S r =>
      s ← catch
            (response ← ask (GrobidPost pdf_bytes) ≫= expect_response;
             let '(status_code, content) := response in
             if (status_code =? 200)%Z
             then mret (Return (_parse_tei_xml content))
             else if (status_code =? 503)%Z
             then
               let wait_time := (2 ^ attempt * 5)%Z in
               if (attempt <? max_attempts - 1)%Z
               then sleep (inject_Z wait_time);; mret Continue
               else mret Continue
             else if (status_code =? 500)%Z
             then mret (Return (failed_extraction
                    "GROBID internal server error - PDF may be corrupted or invalid"))
             else mret (Return (failed_extraction
                    ("GROBID error: " +:+ pretty status_code))))
            (fun e =>
               if (attempt <? max_attempts - 1)%Z
               then
                 let wait_time := (2 ^ attempt * 2)%Z in
                 sleep (inject_Z wait_time);; mret Continue
               else mret Continue);
      match s with
      | Return r => mret r
      | Continue => extract_attempts r (attempt + 1)%Z max_attempts pdf_bytes
      end
  end.

Definition _extract_with_retry (pdf_bytes : list Byte.byte) (max_attempts : nat)
    : M ExtractedContent :=
  if (length pdf_bytes <? 1000)%nat
  then mret (failed_extraction
               ("PDF too small (" +:+ pretty (length pdf_bytes)
                +:+ " bytes) - likely invalid or error page"))
  else extract_attempts max_attempts 0 (Z.of_nat max_attempts) pdf_bytes.

(** [extract_from_bytes]: one holder of the semaphore runs
    [_extract_with_retry] with the default [max_attempts]. *)
Definition extract_from_bytes (pdf_bytes : list Byte.byte) : M ExtractedContent :=
  _extract_with_retry pdf_bytes 3.

Definition extract_from_url (pdf_url : string) : M ExtractedContent :=
  Retry.retry_async 3 2
    (catch
       (pdf_content ← _download_pdf pdf_url;
        match pdf_content with
        | Some (b :: bs) => extract_from_bytes (b :: bs)
        | _ => mret (failed_extraction "Failed to download PDF")
        end)
       (fun e => mret (failed_extraction (exn_msg e)))).

End Extraction.

End Grobid.

(** ** [app/services/gemini_service.py] *)

Module Gemini.

Definition set_breaker (failures : Z) (last_failure : option Q) (state : breaker)
    (g : GeminiService) : GeminiService :=
  mkGeminiService (rate_limiter g) failures (circuit_breaker_threshold g)
    (circuit_breaker_timeout g) last_failure state.

Definition update (f : GeminiService -> GeminiService) : M unit :=
  modify (fun w => set_gemini (f (gemini w)) w).

Definition _check_circuit_breaker : M bool :=
  self ← gets gemini;
  match circuit_breaker_state self with
  | CLOSED => mret true
  | OPEN =>
      now ← gets clock;
      match circuit_breaker_last_failure self with
      | None => raise (mkExn "TypeError" "unsupported operand type(s) for -")
      | Some last_failure =>
          if Qltb (circuit_breaker_timeout self) (now - last_failure)%Q
          then
            update (set_breaker (circuit_breaker_failures self)
                                (circuit_breaker_last_failure self) HALF_OPEN);;
            mret true
          else mret false
      end
  | HALF_OPEN => mret true
  end.

Definition _record_success : M unit :=
  self ← gets gemini;
  match circuit_breaker_state self with
  | HALF_OPEN => update (set_breaker 0 (circuit_breaker_last_failure self) CLOSED)
  | _ => mret tt
  end.

Definition _record_failure : M unit :=
  self ← gets gemini;
  now ← gets clock;
  let failures := (circuit_breaker_failures self + 1)%Z in
  update (set_breaker failures (Some now)
            (if (circuit_breaker_threshold self <=? failures)%Z
             then OPEN else circuit_breaker_state self)).

(** [random.uniform(0, 1)] *)
Definition random_uniform : M Q :=
  r ← ask RandomUniform;
  match r with
  | Number q => mret (Qmax 0 (Qmin 1 q))
  | _ => mret 0%Q
  end.

(** [_exponential_backoff], for an [attempt] that is not negative.
    [base_delay] is a float and [2 ** attempt] an [int]: from
    [2 ** 1024] on the product raises, before the jitter is drawn.
    Below that the delay is computed exactly; the floats of the
    source round it. *)
Definition _exponential_backoff (attempt : Z) (base_delay : Q) : M unit :=
  if (1024 <=? attempt)%Z
  then raise (mkExn "OverflowError" "int too large to convert to float")
  else
    jitter ← random_uniform;
    let delay := (base_delay * inject_Z (2 ^ attempt) + jitter)%Q in
    let max_delay := 60%Q in
    let delay := Qmin delay max_delay in
    sleep delay.

(** ["429" in error_str or "quota" in error_str.lower()] *)
Definition is_rate_limit_error (error_str : string) : bool :=
  PyStr.contains "429" error_str || PyStr.contains "quota" (PyStr.lower error_str).

(** *** [_prepare_paper_context]

    The paper and its extracted content are dicts built from rows of
    the database, whose columns may hold [None].  The text of the
    context goes into the prompt, which [PromptInitialGaps paper_data
    extracted_content] stands for; what is computed here is whether
    building it raises, and with which exception. *)

Definition and_then {A B} (r : res A) (f : A -> res B) : res B :=
  match r with
  | Ok a => f a
  | Raise e => Raise e
  end.

(** [bool(v)] *)
Definition truthy (v : json) : bool :=
  match v with
  | JNull => false
  | JBool b => b
  | JNum q => negb (Qeq_bool q 0)
  | JStr s => negb (String.eqb s "")
  | JArr items => negb (Nat.eqb (length items) 0)
  | JObj fields => negb (Nat.eqb (length fields) 0)
  end.

(** [type(v).__name__] *)
Definition type_name (v : json) : string :=
  match v with
  | JNull => "NoneType"
  | JBool _ => "bool"
  | JNum _ => "float"
  | JStr _ => "str"
  | JArr _ => "list"
  | JObj _ => "dict"
  end.

(** [v.get(key)]: only a dict has the method. *)
Definition py_get (key : string) (v : json) : res (option json) :=
  match v with
  | JObj fields => Ok (dict_get key fields)
  | _ => Raise (mkExn "AttributeError"
                  ("'" +:+ type_name v +:+ "' object has no attribute 'get'"))
  end.

(** [v.get(key)] under the [if] that tests it: the value when it is
    true. *)
Definition get_truthy (key : string) (v : json) : res (option json) :=
  and_then (py_get key v) (fun found =>
    Ok (match found with
        | Some x => if truthy x then Some x else None
        | None => None
        end)).

(** The items of [v[:n]]: the first items of a list, the first
    characters of a string; nothing else can be sliced. *)
Definition py_slice_items (n : nat) (v : json) : res (list json) :=
  match v with
  | JArr items => Ok (firstn n items)
  | JStr s => Ok (map (fun c => JStr (String c "")) (firstn n (list_ascii_of_string s)))
  | JObj _ => Raise (mkExn "TypeError" "unhashable type: 'slice'")
  | _ => Raise (mkExn "TypeError"
                  ("'" +:+ type_name v +:+ "' object is not subscriptable"))
  end.

(** A loop over [l] that stops at the first item that raises, and the
    comprehension [[f x for x in l]]. *)
Fixpoint each {A} (f : A -> res unit) (l : list A) : res unit :=
  match l with
  | [] => Ok tt
  | x :: rest => and_then (f x) (fun _ => each f rest)
  end.

Fixpoint collect {A B} (f : A -> res B) (l : list A) : res (list B) :=
  match l with
  | [] => Ok []
  | x :: rest =>
      and_then (f x) (fun y => and_then (collect f rest) (fun ys => Ok (y :: ys)))
  end.

(** [' '.join(texts)]: every item has to be a string. *)
Fixpoint join_texts (index : nat) (texts : list json) : res unit :=
  match texts with
  | [] => Ok tt
  | JStr _ :: rest => join_texts (S index) rest
  | v :: _ =>
      Raise (mkExn "TypeError"
               ("sequence item " +:+ pretty index +:+ ": expected str instance, "
                +:+ type_name v +:+ " found"))
  end.

(** [p.get('text', '')] *)
Definition paragraph_text (p : json) : res json :=
  and_then (py_get "text" p) (fun found =>
    Ok (match found with Some v => v | None => JStr "" end)).

(** The body of the loop over [extracted_content['sections'][:10]]. *)
Definition section_context (section : json) : res unit :=
  and_then (get_truthy "title" section) (fun title =>
    match title with
    | None => Ok tt
    | Some _ =>
        and_then (get_truthy "paragraphs" section) (fun paragraphs =>
          match paragraphs with
          | None => Ok tt
          | Some ps =>
              and_then (py_slice_items 3 ps) (fun items =>
              and_then (collect paragraph_text items) (join_texts 0))
          end)
    end).

(** The captions of [extracted_content[key][:5]], for the figures and
    for the tables. *)
Definition captions (key : string) (extracted_content : json) : res unit :=
  and_then (get_truthy key extracted_content) (fun found =>
    match found with
    | None => Ok tt
    | Some items =>
        and_then (py_slice_items 5 items)
          (each (fun item => and_then (py_get "caption" item) (fun _ => Ok tt)))
    end).

Definition _prepare_paper_context (paper_data extracted_content : json) : res unit :=
  and_then (py_get "title" paper_data) (fun _ =>
  and_then (py_get "abstract_text" paper_data) (fun _ =>
  and_then (get_truthy "sections" extracted_content) (fun sections =>
  and_then (match sections with
            | None => Ok tt
            | Some s => and_then (py_slice_items 10 s) (each section_context)
            end) (fun _ =>
  and_then (get_truthy "conclusion" extracted_content) (fun conclusion =>
  and_then (match conclusion with
            | None => Ok tt
            | Some c => and_then (py_slice_items 1000 c) (fun _ => Ok tt)
            end) (fun _ =>
  and_then (captions "figures" extracted_content) (fun _ =>
  captions "tables" extracted_content))))))).

Section Parsing.

(** [parse_json_safely(json_str, default)] of [app/utils/helpers.py],
    and the validation pydantic runs when an [InitialGap] and a
    [ValidationResult] are built from the keys of a dict ([None]: it
    raises). *)
Variable parse_json_safely : string -> json -> json.
Variable InitialGap_of : list (string * json) -> option InitialGap.
Variable ValidationResult_of : list (string * json) -> option ValidationResult.

Definition validation_error : exn := mkExn "ValidationError" "validation error".
Definition type_error : exn := mkExn "TypeError" "argument after ** must be a mapping".

(** The comprehension over [gaps_data] that builds one [InitialGap]
    per item, left to right. *)
Fixpoint build_items (items : list json) : res (list InitialGap) :=
  match items with
  | [] => Ok []
  | JObj fields :: rest =>
      match InitialGap_of fields with
      | Some g =>
          match build_items rest with
          | Ok gaps => Ok (g :: gaps)
          | Raise e => Raise e
          end
      | None => Raise validation_error
      end
  | _ :: _ => Raise type_error
  end.

Definition build_gaps (gaps_data : json) : res (list InitialGap) :=
  match gaps_data with
  | JArr items => build_items items
  | JObj [] | JStr EmptyString => Ok []
  | _ => Raise type_error
  end.

(** The [try] block of one attempt of [generate_initial_gaps]. *)
Definition initial_gaps_try (paper_data extracted_content : json)
    : M (list InitialGap) :=
  Limiter.wait_if_needed GeminiLimiter;;
  match _prepare_paper_context paper_data extracted_content with
  | Raise e => raise e
  | Ok _ =>
      text ← ask (Generate (PromptInitialGaps paper_data extracted_content))
               ≫= expect_text;
      let gaps_data := parse_json_safely text (JArr []) in
      match build_gaps gaps_data with
      | Raise e => raise e
      | Ok gaps => _record_success;; mret gaps
      end
  end.

(** The [for attempt in range(max_attempts)] loop of
    [generate_initial_gaps], from [attempt] on. *)
Fixpoint initial_gaps_attempts (remaining : nat) (attempt max_attempts : Z)
    (paper_data extracted_content : json) : M (list InitialGap) :=
  match remaining with
  | O => mret []
  | S r =>
      s ← catch
            (gaps ← initial_gaps_try paper_data extracted_content;
             mret (Return gaps))
            (fun e =>
               let error_str := exn_msg e in
               _record_failure;;
               if is_rate_limit_error error_str
               then
                 if (attempt <? max_attempts - 1)%Z
                 then _exponential_backoff attempt 30;; mret Continue
                 else mret (Return [])
               else
                 if (attempt <? max_attempts - 1)%Z
                 then _exponential_backoff attempt 1;; mret Continue
                 else mret (Return []));
      match s with
      | Return gaps => mret gaps
      | Continue =>
          initial_gaps_attempts r (attempt + 1)%Z max_attempts
            paper_data extracted_content
      end
  end.

Definition generate_initial_gaps (paper_data extracted_content : json)
    : M (list InitialGap) :=
  allowed ← _check_circuit_breaker;
  if negb allowed then mret []
  else initial_gaps_attempts 3 0 3 paper_data extracted_content.

Definition generate_search_query (gap : InitialGap) : M string :=
  catch
    (text ← ask (Generate (PromptSearchQuery gap)) ≫= expect_text;
     let query := PyStr.strip_quotes (PyStr.strip text) in
     mret query)
    (fun e =>
       let fallback_query :=
         PyStr.lower (gap_name gap +:+ " " +:+ gap_category gap) in
       let fallback_query :=
         PyStr.join " " (firstn 4 (PyStr.split fallback_query)) in
       mret fallback_query).

Definition assumed_valid (why : string) : ValidationResult :=
  mkValidationResult true 0.3 why false None [] [].

(** The [try] block of [validate_gap]. *)
Definition validate_gap_try (gap : InitialGap)
    (related_papers : list ExtractedContent) : M ValidationResult :=
  Limiter.wait_if_needed GeminiLimiter;;
  text ← ask (Generate (PromptValidate gap related_papers)) ≫= expect_text;
  let validation_data := parse_json_safely text (JObj []) in
  match validation_data with
  | JObj fields =>
      match ValidationResult_of fields with
      | Some v => mret v
      | None => raise validation_error
      end
  | _ => raise type_error
  end.

(** The coroutine under the decorator. *)
Definition validate_gap_undecorated (gap : InitialGap)
    (related_papers : list ExtractedContent) : M ValidationResult :=
  catch (validate_gap_try gap related_papers)
    (fun e =>
       let error_str := exn_msg e in
       if is_rate_limit_error error_str
       then
         sleep 60;;
         mret (assumed_valid "Rate limited - assuming valid with low confidence")
       else mret (assumed_valid "Could not validate due to error")).

Definition validate_gap (gap : InitialGap)
    (related_papers : list ExtractedContent) : M ValidationResult :=
  Retry.retry_async 3 2 (validate_gap_undecorated gap related_papers).

Definition unable (what : string) : json :=
  JStr ("Unable to " +:+ what +:+ " due to rate limiting").

Definition degraded_details : list (string * json) :=
  [ ("potential_impact", unable "generate impact analysis");
    ("research_hints", unable "generate hints");
    ("implementation_suggestions", unable "generate suggestions");
    ("risks_and_challenges", unable "identify risks");
    ("required_resources", unable "identify resources");
    ("estimated_difficulty", JStr "unknown");
    ("estimated_timeline", JStr "unknown");
    ("suggested_topics", JArr []) ].

(** The [try] block of [expand_gap_details]; the logging line takes
    [len(expanded_data.get('suggested_topics', []))]. *)
Definition expand_gap_details_try (gap : InitialGap) (validation : ValidationResult)
    : M (list (string * json)) :=
  Limiter.wait_if_needed GeminiLimiter;;
  text ← ask (Generate (PromptExpand gap validation)) ≫= expect_text;
  let expanded_data := parse_json_safely text (JObj []) in
  match expanded_data with
  | JObj fields =>
      match dict_get "suggested_topics" fields with
      | None | Some (JArr _) | Some (JStr _) | Some (JObj _) => mret fields
      | Some _ => raise (mkExn "TypeError" "object has no len()")
      end
  | _ => raise (mkExn "AttributeError" "object has no attribute 'get'")
  end.

Definition expand_gap_details_undecorated (gap : InitialGap)
    (validation : ValidationResult) : M (list (string * json)) :=
  catch (expand_gap_details_try gap validation)
    (fun e =>
       let error_str := exn_msg e in
       (if is_rate_limit_error error_str then sleep 60 else mret tt);;
       mret degraded_details).

Definition expand_gap_details (gap : InitialGap) (validation : ValidationResult)
    : M (list (string * json)) :=
  Retry.retry_async 3 2 (expand_gap_details_undecorated gap validation).

End Parsing.

End Gemini.

(** ** [app/model/gap_models.py] and the statements on [gap_analyses] *)

Module Store.

(** A [Column(...)] declaration of class [GapAnalysis]. *)
Record column := mkColumn {
  col_name : string;
  primary_key : bool;
  unique : bool;
  nullable : bool
}.

Definition GapAnalysis_columns : list column :=
  [ mkColumn "id" true false false;
    mkColumn "paper_id" false false false;
    mkColumn "paper_extraction_id" false false false;
    mkColumn "correlation_id" false true false;
    mkColumn "request_id" false true false;
    mkColumn "status" false false true;
    mkColumn "started_at" false false true;
    mkColumn "completed_at" false false true;
    mkColumn "error_message" false false true;
    mkColumn "config" false false true;
    mkColumn "total_gaps_identified" false false true;
    mkColumn "valid_gaps_count" false false true;
    mkColumn "invalid_gaps_count" false false true;
    mkColumn "modified_gaps_count" false false true ].

(** The columns under a unique constraint besides the primary key. *)
Definition unique_columns : list string :=
  map col_name (List.filter unique GapAnalysis_columns).

(** The value a row holds in a text column that can be unique. *)
Definition text_of (col : string) (row : GapAnalysis) : string :=
  if String.eqb col "correlation_id" then ga_correlation_id row
  else if String.eqb col "request_id" then ga_request_id row
  else "".

Definition unique_violation (constraint : string) : exn :=
  mkExn "IntegrityError"
    ("duplicate key value violates unique constraint gap_analyses_" +:+ constraint).

(** The first unique column, other than the conflict target, on which
    [row] collides with one of [others]. *)
Definition collision (target : string) (row : GapAnalysis)
    (others : list GapAnalysis) : option string :=
  List.find
    (fun col =>
       negb (String.eqb col target)
       && existsb (fun r => String.eqb (text_of col r) (text_of col row)) others)
    unique_columns.

(** The [set_] of [on_conflict_do_update] in [_create_gap_analysis];
    [func.now()] is the clock. *)
Definition on_conflict_set (excluded : GapAnalysis) (now : Q)
    (existing : GapAnalysis) : GapAnalysis :=
  mkGapAnalysis (ga_id existing)
    (ga_paper_id excluded) (ga_paper_extraction_id excluded)
    (ga_correlation_id existing) (ga_request_id excluded)
    PROCESSING (Some now) (ga_completed_at existing) None (ga_config excluded)
    (total_gaps_identified existing) (valid_gaps_count existing)
    (invalid_gaps_count existing) (modified_gaps_count existing).

(** [INSERT ... ON CONFLICT (correlation_id) DO UPDATE SET ...
    RETURNING id] on the rows of the table: the row in conflict on the
    target is updated, otherwise the values are inserted; a collision
    on the primary key or on another unique column is an error. *)
Definition upsert (values : GapAnalysis) (now : Q) (rows : list GapAnalysis)
    : res (N * list GapAnalysis) :=
  match List.find (fun r => String.eqb (ga_correlation_id r)
                                       (ga_correlation_id values)) rows with
  | Some existing =>
      let updated := on_conflict_set values now existing in
      let others :=
        List.filter (fun r => negb (N.eqb (ga_id r) (ga_id existing))) rows in
      match collision "correlation_id" updated others with
      | Some col => Raise (unique_violation (col +:+ "_key"))
      | None =>
          Ok (ga_id existing,
              map (fun r => if N.eqb (ga_id r) (ga_id existing)
                            then updated else r) rows)
      end
  | None =>
      if existsb (fun r => N.eqb (ga_id r) (ga_id values)) rows
      then Raise (unique_violation "pkey")
      else match collision "correlation_id" values rows with
           | Some col => Raise (unique_violation (col +:+ "_key"))
           | None => Ok (ga_id values, rows ++ [values])
           end
  end.

(** [await session.commit()] and [await session.rollback()] *)
Definition commit : M unit :=
  perform DbCommit;;
  modify (fun w => set_committed_rows (session_rows w) w).

Definition rollback : M unit :=
  perform DbRollback;;
  modify (fun w => set_session_rows (committed_rows w) w).

(** The flush of the attributes assigned on a loaded [GapAnalysis]
    object: [change] is applied to its row. *)
Definition flush (analysis : GapAnalysis) (change : GapAnalysis -> GapAnalysis)
    : M unit :=
  perform (DbFlush (change analysis));;
  modify (fun w =>
    set_session_rows
      (map (fun r => if N.eqb (ga_id r) (ga_id analysis) then change r else r)
           (session_rows w)) w).

Definition execute_upsert (values : GapAnalysis) : M N :=
  perform (DbExecute (UpsertAnalysis values));;
  now ← gets clock;
  rows ← gets session_rows;
  match upsert values now rows with
  | Raise e => raise e
  | Ok (analysis_id, rows') =>
      modify (set_session_rows rows');;
      mret analysis_id
  end.

(** [await session.get(GapAnalysis, analysis_id)] *)
Definition session_get (analysis_id : N) : M (option GapAnalysis) :=
  perform (DbGet analysis_id);;
  rows ← gets session_rows;
  mret (List.find (fun r => N.eqb (ga_id r) analysis_id) rows).

(** [select(GapAnalysis).where(correlation_id == ...)] through
    [session.scalar] *)
Definition select_by_correlation (correlation_id : string) : M (option GapAnalysis) :=
  perform (DbExecute (SelectByCorrelation correlation_id));;
  rows ← gets session_rows;
  mret (List.find (fun r => String.eqb (ga_correlation_id r) correlation_id) rows).

(** [uuid4()] *)
Definition uuid4 : M N :=
  r ← ask Uuid4;
  match r with
  | Fresh id => mret id
  | _ => mret 0%N
  end.

End Store.

(** ** [app/services/gap_analysis_service.py] *)

Record GapDetail := mkGapDetail {
  gapId : string;
  gd_name : string;
  gd_description : string;
  gd_category : string;
  validationStatus : string;
  confidenceScore : Q;
  gd_enrichment : list (string * json);
  supportingPapersCount : Z;
  conflictingPapersCount : Z
}.

Record GapAnalysisResponse := mkGapAnalysisResponse {
  rsp_requestId : string;
  rsp_correlationId : string;
  status : string;
  message : string;
  gapAnalysisId : option string;
  totalGaps : Z;
  validGaps : Z;
  gaps : option (list GapDetail);
  error : option string;
  completedAt : option Q
}.

(** The dict [_process_single_gap] returns for an accepted gap. *)
Record gap_data := mkGapData {
  gd_gap_id : string;
  gd_gap_name : string;
  gd_gap_description : string;
  gd_gap_category : string;
  gd_validation_status : string;
  gd_confidence_score : Q;
  gd_details : list (string * json)
}.

Module Pipeline.

(** [str(uuid)] *)
Definition uuid_str (id : N) : string := pretty id.

Definition is_dns_failure (e : exn) : bool :=
  PyStr.contains "getaddrinfo failed" (exn_msg e)
  || PyStr.contains "Name or service not known" (exn_msg e).

Definition connection_error (what : string) (e : exn) : exn :=
  mkExn "ConnectionError"
    ("Network connectivity issue: " +:+ what +:+ " Error: " +:+ exn_msg e).

(** [d.get(key)] and [d.get(key, [])] as stored in the returned dict *)
Definition get_or (default : json) (key : string) (d : list (string * json))
    : string * json :=
  (key, match dict_get key d with Some v => v | None => default end).

Definition detail_fields (d : list (string * json)) : list (string * json) :=
  [ get_or JNull "potential_impact" d;
    get_or JNull "research_hints" d;
    get_or JNull "implementation_suggestions" d;
    get_or JNull "risks_and_challenges" d;
    get_or JNull "required_resources" d;
    get_or JNull "estimated_difficulty" d;
    get_or JNull "estimated_timeline" d;
    get_or (JArr []) "evidence_anchors" d;
    get_or (JArr []) "suggested_topics" d ].

Definition _create_gap_analysis (request : GapAnalysisRequest)
    : M (option GapAnalysis) :=
  id ← Store.uuid4;
  now ← gets clock;
  let values :=
    mkGapAnalysis id (paperId request) (paperExtractionId request)
      (correlationId request) (requestId request) PROCESSING (Some now)
      None None (config request) 0 0 0 0 in
  analysis_id ← Store.execute_upsert values;
  Store.commit;;
  Store.session_get analysis_id.

Definition _fetch_paper_data (paper_id extraction_id : string)
    : M (option (json * json)) :=
  r ← ask (FetchPaper paper_id extraction_id);
  match r with
  | PaperData found => mret found
  | Fault e => raise e
  | _ => raise (mkExn "TypeError" "unexpected reply")
  end.

Definition summary_change (total_gaps valid_gaps : Z) (now : Q)
    (analysis : GapAnalysis) : GapAnalysis :=
  mkGapAnalysis (ga_id analysis) (ga_paper_id analysis)
    (ga_paper_extraction_id analysis) (ga_correlation_id analysis)
    (ga_request_id analysis) COMPLETED (ga_started_at analysis) (Some now)
    (ga_error_message analysis) (ga_config analysis)
    total_gaps valid_gaps (total_gaps - valid_gaps)%Z
    (modified_gaps_count analysis).

(** [_update_analysis_summary]; the result is the [analysis] object
    after the assignments. *)
Definition _update_analysis_summary (analysis : GapAnalysis)
    (total_gaps valid_gaps : Z) : M GapAnalysis :=
  now ← gets clock;
  let change := summary_change total_gaps valid_gaps now in
  Store.flush analysis change;;
  Store.commit;;
  mret (change analysis).

Definition completed_change (total_gaps valid_gaps invalid_gaps modified_gaps : Z)
    (now : Q) (analysis : GapAnalysis) : GapAnalysis :=
  mkGapAnalysis (ga_id analysis) (ga_paper_id analysis)
    (ga_paper_extraction_id analysis) (ga_correlation_id analysis)
    (ga_request_id analysis) COMPLETED (ga_started_at analysis) (Some now)
    (ga_error_message analysis) (ga_config analysis)
    total_gaps valid_gaps invalid_gaps modified_gaps.

Definition _mark_analysis_completed (analysis : GapAnalysis)
    (total_gaps valid_gaps invalid_gaps modified_gaps : Z) : M GapAnalysis :=
  now ← gets clock;
  let change :=
    completed_change total_gaps valid_gaps invalid_gaps modified_gaps now in
  Store.flush analysis change;;
  Store.commit;;
  mret (change analysis).

Definition failed_change (error : string) (now : Q) (analysis : GapAnalysis)
    : GapAnalysis :=
  mkGapAnalysis (ga_id analysis) (ga_paper_id analysis)
    (ga_paper_extraction_id analysis) (ga_correlation_id analysis)
    (ga_request_id analysis) FAILED (ga_started_at analysis) (Some now)
    (Some error) (ga_config analysis)
    (total_gaps_identified analysis) (valid_gaps_count analysis)
    (invalid_gaps_count analysis) (modified_gaps_count analysis).

Definition _mark_analysis_failed (analysis : GapAnalysis) (error : string)
    : M GapAnalysis :=
  now ← gets clock;
  let change := failed_change error now in
  Store.flush analysis change;;
  Store.commit;;
  mret (change analysis).

Section Service.

Variable parse_json_safely : string -> json -> json.
Variable InitialGap_of : list (string * json) -> option InitialGap.
Variable ValidationResult_of : list (string * json) -> option ValidationResult.

(** What [_transform_suggested_topics] and the validation of
    [GapDetail] make of the enrichment fields of an accepted gap
    ([None]: one of them raises). *)
Variable validate_enrichment : list (string * json) -> option (list (string * json)).

(** [GrobidClient.extract_batch] gathers its downloads concurrently;
    the pipeline sees its result only. *)
Definition extract_batch (papers : list PaperSearchResult)
    : M (list ExtractedContent) :=
  r ← ask (ExtractBatch papers);
  match r with
  | Contents l => mret l
  | Fault e => raise e
  | _ => raise (mkExn "TypeError" "unexpected reply")
  end.

Definition no_related_papers : ValidationResult :=
  mkValidationResult true 0.5 "No related papers found" false None [] [].

Definition validation_error_result : ValidationResult :=
  mkValidationResult true 0.3 "Validation error - assumed valid" false None [] [].

(** The [try] block of [_validate_gap]. *)
Definition _validate_gap_try (gap : InitialGap) : M ValidationResult :=
  search_query ← Gemini.generate_search_query gap;
  max_results ← gets (fun w => GAP_VALIDATION_PAPERS (settings w));
  related_papers ←
    catch (Search.search_papers search_query max_results)
      (fun search_error =>
         if is_dns_failure search_error
         then raise (connection_error
                       "Cannot resolve external API hostnames." search_error)
         else raise search_error);
  match related_papers with
  | [] => mret no_related_papers
  | _ :: _ =>
      extracted_contents ←
        catch (extract_batch related_papers)
          (fun grobid_error =>
             if is_dns_failure grobid_error
             then raise (connection_error
                           "Cannot reach GROBID service." grobid_error)
             else raise grobid_error);
      Gemini.validate_gap parse_json_safely ValidationResult_of
        gap extracted_contents
  end.

Definition _validate_gap (gap : InitialGap) : M ValidationResult :=
  catch (_validate_gap_try gap) (fun e => mret validation_error_result).

Definition validated : ValidationResult :=
  mkValidationResult true 0.8 "Validated" false None [] [].

Definition _expand_gap_details (gap : InitialGap) : M (list (string * json)) :=
  catch
    (expanded_details ← Gemini.expand_gap_details parse_json_safely gap validated;
     mret (detail_fields expanded_details))
    (fun e => mret []).

(** [float(validation_result.confidence or 0.8)] *)
Definition confidence_or_default (c : Q) : Q :=
  if Qeq_bool c 0 then 0.8%Q else c.

Definition _process_single_gap (analysis_id : N) (gap : InitialGap) (index : nat)
    : M (option gap_data) :=
  catch
    (validation_result ← _validate_gap gap;
     if is_valid validation_result
     then
       expanded_details ← _expand_gap_details gap;
       fresh ← Store.uuid4;
       mret (Some (mkGapData
         (uuid_str analysis_id +:+ "-" +:+ pretty index +:+ "-" +:+ uuid_str fresh)
         (gap_name gap) (gap_description gap) (gap_category gap)
         "VALID"
         (confidence_or_default (confidence validation_result))
         (detail_fields expanded_details)))
     else mret None)
    (fun e => mret None).

(** The loop of [analyze_paper] over [enumerate(initial_gaps)]. *)
Fixpoint process_gaps (analysis_id : N) (index : nat) (initial_gaps : list InitialGap)
    : M (list (option gap_data)) :=
  match initial_gaps with
  | [] => mret []
  | gap :: rest =>
      result ← catch (_process_single_gap analysis_id gap index)
                 (fun e => mret None);
      gap_results ← process_gaps analysis_id (S index) rest;
      mret (result :: gap_results)
  end.

(** [[result for result in gap_results if result is not None]] *)
Definition valid_results (gap_results : list (option gap_data)) : list gap_data :=
  omap id gap_results.

(** The body of the loop of [_prepare_response]. *)
Definition gap_detail_of (d : gap_data) : option GapDetail :=
  enrichment ← validate_enrichment (gd_details d);
  Some (mkGapDetail (gd_gap_id d) (gd_gap_name d) (gd_gap_description d)
          (gd_gap_category d) (gd_validation_status d) (gd_confidence_score d)
          enrichment 0 0).

Fixpoint gap_details_of (valid_gap_data : list gap_data) : option (list GapDetail) :=
  match valid_gap_data with
  | [] => Some []
  | d :: rest =>
      gap_detail ← gap_detail_of d;
      gap_details ← gap_details_of rest;
      Some (gap_detail :: gap_details)
  end.

Definition _prepare_response (analysis : GapAnalysis)
    (valid_gap_data : list gap_data) : M GapAnalysisResponse :=
  match gap_details_of valid_gap_data with
  | None => raise (mkExn "ValidationError" "validation error for GapDetail")
  | Some gap_details =>
      mret (mkGapAnalysisResponse
              (ga_request_id analysis) (ga_correlation_id analysis)
              "COMPLETED"
              ("Successfully identified " +:+ pretty (length valid_gap_data)
               +:+ " valid research gaps")
              (Some (uuid_str (ga_id analysis)))
              (total_gaps_identified analysis)
              (valid_gaps_count analysis)
              (Some gap_details)
              None
              (ga_completed_at analysis))
  end.

Definition no_gaps_response (request : GapAnalysisRequest) (analysis : GapAnalysis)
    : GapAnalysisResponse :=
  mkGapAnalysisResponse (requestId request) (correlationId request)
    "COMPLETED" "Analysis completed - no research gaps identified"
    (Some (uuid_str (ga_id analysis))) 0 0 (Some []) None None.

Definition failed_response (request : GapAnalysisRequest) (e : exn)
    : GapAnalysisResponse :=
  mkGapAnalysisResponse (requestId request) (correlationId request)
    "FAILED" ("Analysis failed: " +:+ exn_msg e)
    None 0 0 None (Some (exn_msg e)) None.

(** Steps 3 and 4 of [analyze_paper]: the paper is fetched and the
    initial gaps are generated. *)
Definition fetch_and_generate (request : GapAnalysisRequest)
    : M (list InitialGap) :=
  found ← _fetch_paper_data (paperId request) (paperExtractionId request);
  match found with
  | None => raise (mkExn "ValueError" "Paper not found")
  | Some (paper_data, extracted_content) =>
      Gemini.generate_initial_gaps parse_json_safely InitialGap_of
        paper_data extracted_content
  end.

(** The [try] block of [analyze_paper] once [analysis] is bound. *)
Definition analyze_with (request : GapAnalysisRequest) (analysis : GapAnalysis)
    : M GapAnalysisResponse :=
  initial_gaps ← fetch_and_generate request;
  match initial_gaps with
  | [] =>
      _mark_analysis_completed analysis 0 0 0 0;;
      mret (no_gaps_response request analysis)
  | _ :: _ =>
      gap_results ← process_gaps (ga_id analysis) 0 initial_gaps;
      let valid_gap_data := valid_results gap_results in
      analysis' ← _update_analysis_summary analysis
                    (Z.of_nat (length initial_gaps))
                    (Z.of_nat (length valid_gap_data));
      _prepare_response analysis' valid_gap_data
  end.

(** The [except Exception] block of [analyze_paper]; [analysis] is
    [None] when the failure came before it was bound. *)
Definition on_failure (request : GapAnalysisRequest) (analysis : option GapAnalysis)
    (e : exn) : M GapAnalysisResponse :=
  catch Store.rollback (fun _ => mret tt);;
  match analysis with
  | Some a =>
      catch (_mark_analysis_failed a (exn_msg e);; mret tt) (fun _ => mret tt)
  | None => mret tt
  end;;
  mret (failed_response request e).

(** The part of the [try] block that binds [analysis]. *)
Definition bind_analysis (request : GapAnalysisRequest) : M (option GapAnalysis) :=
  flag ← gets (fun w => RUN_CONNECTIVITY_TESTS (settings w));
  match flag with
  | None => raise (mkExn "AttributeError"
                     "'Settings' object has no attribute 'RUN_CONNECTIVITY_TESTS'")
  | Some true => perform ConnectivityTests
  | Some false => mret tt
  end;;
  _create_gap_analysis request.

Definition analyze_paper (request : GapAnalysisRequest) : M GapAnalysisResponse :=
  finally
    (bound ← catch (a ← bind_analysis request; mret (inl a))
               (fun e => mret (inr e));
     match bound with
     | inr e => on_failure request None e
     | inl None =>
         on_failure request None
           (mkExn "AttributeError" "'NoneType' object has no attribute 'id'")
     | inl (Some analysis) =>
         catch (analyze_with request analysis)
           (on_failure request (Some analysis))
     end)
    (perform (CloseClient "search");; perform (CloseClient "grobid")).

End Service.

End Pipeline.

(** ** [app/core/database.py]: [DatabaseManager.get_session] *)

Module Database.

Definition is_dns_error (e : exn) : bool :=
  PyStr.contains "getaddrinfo failed" (exn_msg e)
  || PyStr.contains "Name or service not known" (exn_msg e).

(** [get_session] is modelled for a manager whose [_sessionmaker] is
    set, so that the call of [initialize] under [if not
    self._sessionmaker] is skipped: [initialize] sets it (l.61) before
    it tests the connection, and [main.py] runs [initialize] before the
    consumer starts.  [SessionOpen] is the entry into [async with
    self._sessionmaker() as session]; that it may raise is more than
    the source does there.  [SessionClose] is the closing of the
    session: [await session.close()] in the [finally], which the exit
    of the [async with] repeats on the session already closed. *)

(** [try: c], with the exception it raised as a value. *)
Definition attempt_of {A} (c : M A) : M (res A) :=
  catch (a ← c; mret (Ok a)) (fun e => mret (Raise e)).

(** The test of the two handlers: an error of name resolution, before
    the last attempt. *)
Definition retried (e : exn) (attempt : Z) : bool :=
  is_dns_error e && (attempt <? 2)%Z.

(** The loop once the generator has yielded and goes on to another
    attempt: it opens another session, and yielding that session is
    an error of the context manager, which raises the [RuntimeError]
    [stopped] and leaves the session as it is (contextlib up to
    Python 3.11; later versions close the generator first).  The loop
    cannot run out here: there is no [continue] in its last
    attempt. *)
Fixpoint after_yield_from {A} (remaining : nat) (attempt : Z) (retry_delay : Q)
    (stopped : exn) : M A :=
  match remaining with
  | O => raise stopped
  | S r =>
      opened ← attempt_of (perform SessionOpen);
      match opened with
      | Raise e =>
          if retried e attempt
          then sleep retry_delay;;
               after_yield_from r (attempt + 1)%Z (retry_delay * 2)%Q stopped
          else raise e
      | Ok _ => raise stopped
      end
  end.

(** The retry loop of [get_session] around the block [body] of the
    [async with].  [retry_delay] is a variable of the generator: the
    inner handler doubles it before its [continue], and the closing of
    the session in the [finally] can still raise after that, so the
    value it has is kept next to what the inner [try] decided. *)
Fixpoint get_session_from {A} (remaining : nat) (attempt : Z) (retry_delay : Q)
    (body : M A) : M A :=
  match remaining with
  | O => raise (mkExn "RuntimeError" "generator didn't yield")
  | S r =>
      opened ← attempt_of (perform SessionOpen);
      match opened with
      | Raise e =>
          (* the outer [except], before the generator has yielded *)
          if retried e attempt
          then sleep retry_delay;;
               get_session_from r (attempt + 1)%Z (retry_delay * 2)%Q body
          else raise e
      | Ok _ =>
          (* [yield session]: the block runs; [await session.commit()]
             when it returned *)
          block ← attempt_of body;
          tried ← match block with
                  | Ok a => attempt_of (Store.commit;; mret a)
                  | Raise e => mret (Raise e)
                  end;
          (* the inner [except Exception as e] *)
          '(decided, retry_delay) ←
            match tried with
            | Ok a => mret (Ok (Return a), retry_delay)
            | Raise e =>
                rolled_back ← attempt_of Store.rollback;
                match rolled_back with
                | Raise e' => mret (Raise e', retry_delay)
                | Ok _ =>
                    if retried e attempt
                    then sleep retry_delay;;
                         mret (Ok Continue, (retry_delay * 2)%Q)
                    else mret (Raise e, retry_delay)
                end
            end;
          (* [finally: await session.close()]: an exception of the
             closing replaces what the [try] decided *)
          closed ← attempt_of (perform SessionClose);
          let decided :=
            match closed with
            | Raise e => Raise e
            | Ok _ => decided
            end in
          (* what the context manager raises when the generator
             yields again: it was resumed by [athrow] when the block
             raised, and by [anext] when it returned *)
          let stopped :=
            mkExn "RuntimeError"
              (match block with
               | Ok _ => "generator didn't stop"
               | Raise _ => "generator didn't stop after athrow()"
               end) in
          match decided with
          | Ok (Return a) => mret a
          | Ok Continue => after_yield_from r (attempt + 1)%Z retry_delay stopped
          | Raise e =>
              (* the outer [except], after the generator has yielded *)
              if retried e attempt
              then sleep retry_delay;;
                   after_yield_from r (attempt + 1)%Z (retry_delay * 2)%Q stopped
              else raise e
          end
      end
  end.

Definition get_session {A} (body : M A) : M A :=
  get_session_from 3 0 1 body.

End Database.

(** ** [app/services/rabbitmq_service.py] *)

(** An incoming message, by its body. *)
Record delivery := mkDelivery { body : list Byte.byte }.

(** How [message.process(requeue=False)] leaves the message. *)
Inductive disposition := Acked | Rejected.

Module Consumer.

(** [response.model_dump_json()], as far as the published body is
    observed. *)
Definition dump (r : GapAnalysisResponse) : published :=
  mkPublished (status r) (Some (rsp_requestId r)) (Some (rsp_correlationId r))
    (message r) (error r) None (totalGaps r) (validGaps r)
    (match gaps r with Some l => map gapId l | None => [] end).

(** The dict [_publish_error_response] dumps: status, message, error
    and the first 500 characters of the original message. *)
Definition error_body (original_message error : string) : published :=
  mkPublished "FAILED" None None "Failed to process request" (Some error)
    (Some (PyStr.take 500 original_message)) 0 0 [].

(** [publish_response] on an initialised channel. *)
Definition publish_response (response : GapAnalysisResponse) : M unit :=
  catch (perform GetExchange;; perform (Publish (dump response)))
    (fun e => mret tt).

Definition _publish_error_response (original_message error : string) : M unit :=
  catch (perform GetExchange;; perform (Publish (error_body original_message error)))
    (fun e => mret tt).

(** [GapAnalysisRequest] built from the keys of the decoded body: the
    four identifiers are required strings, [config] is an optional
    dict. *)
Definition GapAnalysisRequest_of (request_data : json) : res GapAnalysisRequest :=
  match request_data with
  | JObj fields =>
      match dict_get "paperId" fields, dict_get "paperExtractionId" fields,
            dict_get "correlationId" fields, dict_get "requestId" fields with
      | Some (JStr p), Some (JStr x), Some (JStr c), Some (JStr r) =>
          match dict_get "config" fields with
          | None => Ok (mkGapAnalysisRequest p x c r (JObj []))
          | Some JNull => Ok (mkGapAnalysisRequest p x c r JNull)
          | Some (JObj d) => Ok (mkGapAnalysisRequest p x c r (JObj d))
          | Some _ => Raise (mkExn "ValidationError" "config: not a dict")
          end
      | _, _, _, _ =>
          Raise (mkExn "ValidationError" "validation error for GapAnalysisRequest")
      end
  | _ => Raise (mkExn "TypeError" "argument after ** must be a mapping")
  end.

Definition lift {A} (r : res A) : M A :=
  match r with
  | Ok a => mret a
  | Raise e => raise e
  end.

(** [partial_data.get(key, 'unknown')], as an identifier of the error
    response *)
Definition partial_id (key : string) (partial_data : json) : res string :=
  match partial_data with
  | JObj fields =>
      match dict_get key fields with
      | None => Ok "unknown"
      | Some (JStr s) => Ok s
      | Some _ => Raise (mkExn "ValidationError" "Input should be a valid string")
      end
  | _ => Raise (mkExn "AttributeError" "object has no attribute 'get'")
  end.

Section Service.

Variable parse_json_safely : string -> json -> json.
Variable InitialGap_of : list (string * json) -> option InitialGap.
Variable ValidationResult_of : list (string * json) -> option ValidationResult.
Variable validate_enrichment : list (string * json) -> option (list (string * json)).

(** [bytes.decode()] ([None]: [UnicodeDecodeError]) and [json.loads]
    (an error message: [JSONDecodeError]). *)
Variable bytes_decode : list Byte.byte -> option string.
Variable json_loads : string -> string + json.

Definition decode (message : delivery) : M string :=
  match bytes_decode (body message) with
  | Some text => mret text
  | None => raise (mkExn "UnicodeDecodeError" "invalid start byte")
  end.

Definition loads (text : string) : M json :=
  match json_loads text with
  | inr data => mret data
  | inl msg => raise (mkExn "JSONDecodeError" msg)
  end.

Definition is_duplicate_correlation (db_error : exn) : bool :=
  PyStr.contains "duplicate key value violates unique constraint" (exn_msg db_error)
  && PyStr.contains "correlation_id" (exn_msg db_error).

Definition already_exists (request : GapAnalysisRequest) (existing : GapAnalysis)
    : GapAnalysisResponse :=
  mkGapAnalysisResponse (requestId request) (correlationId request)
    "SUCCESS" "Analysis already exists (duplicate request handled)"
    (Some (Pipeline.uuid_str (ga_id existing)))
    (total_gaps_identified existing) (valid_gaps_count existing)
    (Some []) None None.

(** The block under [async with db_manager.get_session()]. *)
Definition in_session (request : GapAnalysisRequest) : M unit :=
  catch
    (response ← Pipeline.analyze_paper parse_json_safely InitialGap_of
                  ValidationResult_of validate_enrichment request;
     publish_response response)
    (fun db_error =>
       Store.rollback;;
       if is_duplicate_correlation db_error
       then
         existing_analysis ← Store.select_by_correlation (correlationId request);
         match existing_analysis with
         | Some existing => publish_response (already_exists request existing)
         | None => raise db_error
         end
       else raise db_error).

(** The outer [try] block of [process_message]. *)
Definition process_try (message : delivery) : M unit :=
  text ← decode message;
  request_data ← loads text;
  request ← lift (GapAnalysisRequest_of request_data);
  Database.get_session (in_session request).

Definition processing_failed (request_id correlation_id : string) (e : exn)
    : GapAnalysisResponse :=
  mkGapAnalysisResponse request_id correlation_id "FAILED"
    ("Processing failed: " +:+ exn_msg e) None 0 0 None (Some (exn_msg e)) None.

(** The block under [async with message.process(requeue=False)]. *)
Definition process_block (message : delivery) : M unit :=
  catch (process_try message)
    (fun e =>
       if String.eqb (exn_class e) "JSONDecodeError"
       then
         original_message ← decode message;
         _publish_error_response original_message ("Invalid JSON: " +:+ exn_msg e)
       else
         text ← decode message;
         partial_data ← loads text;
         request_id ← lift (partial_id "requestId" partial_data);
         correlation_id ← lift (partial_id "correlationId" partial_data);
         publish_response (processing_failed request_id correlation_id e)).

(** [process_message]: the message is acknowledged when the block
    ends normally and rejected, without requeue, when it raises. *)
Definition process_message (message : delivery) : M disposition := fun w =>
  match process_block message w with
  | (Ok _, w', t) => (Ok Acked, w', t)
  | (Raise _, w', t) => (Ok Rejected, w', t)
  end.

End Service.

End Consumer.

(** ** Vocabulary of the statements *)

Module Trace.

Definition result_of {A} (x : res A * World * list event) : res A := x.1.1.
Definition world_of {A} (x : res A * World * list event) : World := x.1.2.
Definition events_of {A} (x : res A * World * list event) : list event := x.2.

(** The events of a wait on a rate limiter. *)
Definition waiting (e : event) : Prop :=
  match e with
  | Sleep _ | Acquire _ => True
  | _ => False
  end.

(** The queries sent to arXiv, the payloads posted to the PDF service,
    the prompts sent to the model and the bodies given to the broker,
    each in order. *)
Definition queries_sent (t : list event) : list string :=
  omap (fun e => match e with ArxivQuery q _ => Some q | _ => None end) t.

Definition posts (t : list event) : list (list Byte.byte) :=
  omap (fun e => match e with GrobidPost b => Some b | _ => None end) t.

Definition prompts (t : list event) : list prompt :=
  omap (fun e => match e with Generate p => Some p | _ => None end) t.

Definition published_bodies (t : list event) : list published :=
  omap (fun e => match e with Publish b => Some b | _ => None end) t.

Definition sleeps (t : list event) : list Q :=
  omap (fun e => match e with Sleep d => Some d | _ => None end) t.

(** A post to the PDF service carries at least 1000 bytes. *)
Definition post_ok (e : event) : Prop :=
  match e with
  | GrobidPost b => (1000 <= length b)%nat
  | _ => True
  end.

(** A coroutine that returns from every world. *)
Definition total {A} (c : M A) : Prop :=
  forall w, exists a w' t, c w = (Ok a, w', t).

(** Every call of the model comes right after an entry into the
    rate limiter of the model. *)
Fixpoint guarded (acquired : bool) (t : list event) : bool :=
  match t with
  | [] => true
  | Acquire GeminiLimiter :: rest => guarded true rest
  | Generate _ :: rest => acquired && guarded false rest
  | _ :: rest => guarded false rest
  end.

(** The events of the pipeline: all but the publication of a
    response. *)
Definition internal (e : event) : Prop :=
  match e with
  | Publish _ => False
  | _ => True
  end.

(** The events of a wait end with the entry that let the caller
    through. *)
Definition ends_acquired (name : limiter_name) (t : list event) : Prop :=
  exists t', t = t' ++ [Acquire name].

(** The events of a computation that calls the model at most [n]
    times, each time right after an entry into its rate limiter. *)
Definition at_most_calls (n : nat) (t : list event) : Prop :=
  guarded false t = true /\ (length (prompts t) <= n)%nat.

(** The events of one guarded call of the model with prompt [p]: a
    wait on the limiter of the model, then the call unless the wait
    raised. *)
Definition one_call (p : prompt) (t : list event) : Prop :=
  exists t1, Forall waiting t1
    /\ (t = t1 \/ (ends_acquired GeminiLimiter t1 /\ t = t1 ++ [Generate p])).

(** An answer of arXiv that yields no paper. *)
Definition no_results (r : reply) : Prop :=
  match r with
  | Feed status_code (Some (_ :: _)) => status_code <> 200%Z
  | _ => True
  end.

(** A property of event lists that holds of the empty list and of the
    concatenation of two lists that have it. *)
Record closed (T : list event -> Prop) : Prop := mkClosed {
  closed_nil : T [];
  closed_app : forall t1 t2, T t1 -> T t2 -> T (t1 ++ t2)
}.

(** An invariant of the world that none of the state changes of the
    services can break. *)
Record stable (I : World -> Prop) : Prop := mkStable {
  stable_clock : forall w c, I w -> I (set_clock c w);
  stable_asked : forall w n, I w -> I (set_asked n w);
  stable_limiter : forall name w l,
    max_calls l = max_calls (Limiter.get_limiter name w) ->
    I w -> I (Limiter.set_limiter name l w);
  stable_breaker : forall w failures last state,
    I w -> I (set_gemini (Gemini.set_breaker failures last state (gemini w)) w);
  stable_session : forall w rows, I w -> I (set_session_rows rows w);
  stable_committed : forall w rows, I w -> I (set_committed_rows rows w)
}.

(** [triple I T c Q]: from a world where [I] holds, [c] ends in a world
    where [I] holds, its events satisfy [T], and a value it returns
    satisfies [Q]. *)
Definition triple {A} (I : World -> Prop) (T : list event -> Prop)
    (c : M A) (Q : A -> Prop) : Prop :=
  forall w, I w ->
    match c w with
    | (Ok a, w', t) => I w' /\ T t /\ Q a
    | (Raise _, w', t) => I w' /\ T t
    end.

(** The two statuses of a response of [analyze_paper]. *)
Definition settled (r : GapAnalysisResponse) : Prop :=
  status r = "COMPLETED" \/ status r = "FAILED".

(** The query as [_search_arxiv] sends it: [query.strip().lower()]. *)
Definition clean (query : string) : string := PyStr.lower (PyStr.strip query).

(** A world where arXiv takes calls and never has a paper. *)
Definition barren (w : World) : Prop :=
  (0 < max_calls (arxiv_limiter w))%Z
  /\ forall n q l, no_results (oracle w n (ArxivQuery q l)).

(** The keys of the table [gap_analyses]: the primary key and the two
    unique columns hold no value twice. *)
Definition well_keyed (rows : list GapAnalysis) : Prop :=
  NoDup (map ga_id rows)
  /\ NoDup (map ga_correlation_id rows)
  /\ NoDup (map ga_request_id rows).





(** The worlds in which the loop of [analyze_paper] over the initial
    gaps reaches each of them, when it starts in [w]. *)
Fixpoint gap_worlds (parse_json_safely : string -> json -> json)
    (ValidationResult_of : list (string * json) -> option ValidationResult)
    (analysis_id : N) (index : nat) (initial_gaps : list InitialGap) (w : World)
    : list World :=
  match initial_gaps with
  | [] => []
  | gap :: rest =>
      w :: gap_worlds parse_json_safely ValidationResult_of analysis_id (S index) rest
             (world_of
                (catch (Pipeline._process_single_gap parse_json_safely
                          ValidationResult_of analysis_id gap index)
                   (fun _ => mret None) w))
  end.

(** The oracle is [o] and the arXiv limiter admits [m] calls. *)
Definition env_inv (o : nat -> event -> reply) (m : Z) (w : World) : Prop :=
  oracle w = o /\ max_calls (arxiv_limiter w) = m.

End Trace.

(** ** Worlds and inputs of the examples *)

Module Examples.

(** The service objects as their constructors leave them, and the
    settings of a deployment that defines [RUN_CONNECTIVITY_TESTS]. *)
Definition arxiv_limiter0 : RateLimiter := mkRateLimiter 5 60 [].
Definition gemini0 : GeminiService :=
  mkGeminiService (mkRateLimiter 2 60 []) 0 3 300 None CLOSED.
Definition settings0 : Settings := mkSettings (Some false) 5.

Definition world0 (o : nat -> event -> reply) : World :=
  mkWorld 0 o 0 settings0 gemini0 arxiv_limiter0 [] [].

(** arXiv answers every query with an empty feed. *)
Definition no_papers : nat -> event -> reply := fun _ _ => Feed 200 (Some []).

(** The PDF service answers every request with status 503. *)
Definition always_503 : nat -> event -> reply := fun _ _ => Response 503 [].

Definition paper (title : string) : PaperSearchResult :=
  mkPaperSearchResult title None None None None None [] (Some "arXiv").

(** A payload of 1000 bytes and one of 999. *)
Definition pdf1000 : list Byte.byte := repeat Byte.x00 1000.
Definition pdf999 : list Byte.byte := repeat Byte.x00 999.

Definition no_tei (xml : list Byte.byte) : ExtractedContent :=
  failed_extraction "XML parsing error".

(** The breaker has just opened: three failures, the last one now. *)
Definition gemini_open : GeminiService :=
  mkGeminiService (mkRateLimiter 2 60 []) 3 3 300 (Some 0%Q) OPEN.

Definition world_open (o : nat -> event -> reply) : World :=
  mkWorld 0 o 0 settings0 gemini_open arxiv_limiter0 [] [].

(** The model answers every prompt with the same text. *)
Definition model_says (text : string) : nat -> event -> reply :=
  fun _ _ => Text text.

Definition a_gap : InitialGap :=
  mkInitialGap "Scalability of graph transformers" "No study beyond 10k nodes"
    "empirical" "Only small graphs are evaluated" "Section 5".

(** Parsers for the examples: a parser that finds no JSON and returns
    the default, and validators that reject every dict. *)
Definition parse_default (json_str : string) (default : json) : json := default.
Definition no_InitialGap (d : list (string * json)) : option InitialGap := None.
Definition no_ValidationResult (d : list (string * json)) : option ValidationResult :=
  None.

(** A table with one analysis that failed, its re-submission, and a
    submission of another correlation id under the request id of the
    first. *)
Definition stored_row : GapAnalysis :=
  mkGapAnalysis 1 "paper-1" "extraction-1" "corr-1" "req-1" FAILED
    (Some 0%Q) (Some 5%Q) (Some "Paper not found") JNull 4 2 2 0.

Definition resubmitted : GapAnalysis :=
  mkGapAnalysis 2 "paper-1" "extraction-1" "corr-1" "req-1" PROCESSING
    (Some 9%Q) None None JNull 0 0 0 0.

Definition other_submission : GapAnalysis :=
  mkGapAnalysis 3 "paper-1" "extraction-1" "corr-2" "req-1" PROCESSING
    (Some 9%Q) None None JNull 0 0 0 0.

(** A deployment where everything answers: the paper is found, the
    model lists one gap and names a query, arXiv has no paper, and the
    store accepts every statement. *)
Definition paper_data1 : json :=
  JObj [ ("title", JStr "Graph transformers at scale");
         ("abstract_text", JNull); ("doi", JNull); ("publication_date", JNull) ].

Definition helpful : nat -> event -> reply := fun _ e =>
  match e with
  | FetchPaper _ _ => PaperData (Some (paper_data1, JObj []))
  | Generate (PromptInitialGaps _ _) => Text "[{}]"
  | Generate _ => Text "graph transformers"
  | ArxivQuery _ _ => Feed 200 (Some [])
  | Uuid4 => Fresh 7
  | _ => Done
  end.

(** Parsers for that deployment: the list of one dict is read as
    such, every dict of a gap gives [a_gap], and the enrichment of a
    gap is accepted as it is. *)
Definition parse_one_gap (json_str : string) (default : json) : json :=
  if String.eqb json_str "[{}]" then JArr [JObj []] else default.
Definition InitialGap_of_any (d : list (string * json)) : option InitialGap :=
  Some a_gap.
Definition enrichment_as_is (d : list (string * json))
    : option (list (string * json)) := Some d.

Definition request1 : GapAnalysisRequest :=
  mkGapAnalysisRequest "paper-1" "extraction-1" "corr-1" "req-1" JNull.

(** The response of [analyze_paper] to [request1] in that
    deployment. *)
Definition response1 : GapAnalysisResponse :=
  mkGapAnalysisResponse "req-1" "corr-1" "COMPLETED"
    "Successfully identified 1 valid research gaps" (Some "7") 1 1
    (Some [ mkGapDetail "7-0-7" (gap_name a_gap) (gap_description a_gap)
              (gap_category a_gap) "VALID" 0.5 (Pipeline.detail_fields []) 0 0 ])
    None (Some 0%Q).

(** The same deployment with a database that fails every flush. *)
Definition flush_fails : nat -> event -> reply := fun n e =>
  match e with
  | DbFlush _ =>
      Fault (mkExn "OperationalError" "server closed the connection unexpectedly")
  | _ => helpful n e
  end.

(** A deployment where arXiv has a paper and the extraction of its
    text fails. *)
Definition extraction_down : nat -> event -> reply := fun _ e =>
  match e with
  | Generate _ => Text "graph transformers"
  | ArxivQuery _ _ => Feed 200 (Some [paper "Graph transformers at scale"])
  | ExtractBatch _ => Fault (mkExn "TimeoutError" "timed out")
  | _ => Done
  end.

(** Decoders for the examples. On bytes below 128 [bytes.decode()] is
    the ASCII reading, and a byte [0xff] makes it raise; [json.loads]
    reads the text of an empty object and reports its error on the text
    [not json]. *)
Definition ascii_decode (b : list Byte.byte) : option string :=
  if forallb (fun x => (Byte.to_N x <? 128)%N) b
  then Some (string_of_list_byte b) else None.

Definition loads_example (text : string) : string + json :=
  if String.eqb text "{}" then inr (JObj [])
  else inl "Expecting value: line 1 column 1 (char 0)".


End Examples.

(** ** [app/utils/helpers.py]: text and batches *)

Module Utils.

(** [text[:n]] for a Python [int]: a negative [n] counts from the
    end. *)
Definition str_slice_to (n : Z) (text : string) : string :=
  if (0 <=? n)%Z then PyStr.take (Z.to_nat n) text
  else PyStr.take (Z.to_nat (Z.of_nat (String.length text) + n)) text.

Definition truncate_text (text : string) (max_length : Z) (add_ellipsis : bool)
    : string :=
  if match text with EmptyString => true | _ => false end
     || (Z.of_nat (String.length text) <=? max_length)%Z
  then text
  else if add_ellipsis && (3 <? max_length)%Z
       then str_slice_to (max_length - 3) text +:+ "..."
       else str_slice_to max_length text.

(** [range(0, stop, step)] for a [stop] that is a length. *)
Definition range_from_zero (stop step : Z) : res (list Z) :=
  if (step =? 0)%Z
  then Raise (mkExn "ValueError" "range() arg 3 must not be zero")
  else if (step <? 0)%Z then Ok []
  else Ok (map (fun j => (Z.of_nat j * step)%Z)
             (seq 0 (Z.to_nat ((stop + step - 1) / step)))).

(** [items[a:b]] for [0 <= a <= b] *)
Definition slice {A} (a b : Z) (items : list A) : list A :=
  firstn (Z.to_nat (b - a)) (skipn (Z.to_nat a) items).

Definition batch_list {A} (items : list A) (batch_size : Z) : res (list (list A)) :=
  match range_from_zero (Z.of_nat (length items)) batch_size with
  | Raise e => Raise e
  | Ok starts => Ok (map (fun i => slice i (i + batch_size)%Z items) starts)
  end.

End Utils.

(** ** Vocabulary of the further statements *)

Module Observed.

(** The test of [_remove_duplicates]: the titles of [result] and
    [unique_result] have a similarity above 0.8. *)
Definition similar (result unique_result : PaperSearchResult) : bool :=
  Qltb 0.8%Q (Helpers.calculate_similarity (psr_title result)
                                         (psr_title unique_result)).

(** No result of the list is similar to one before it. *)
Definition distinct_titles (results : list PaperSearchResult) : Prop :=
  ForallOrdPairs (fun earlier later => similar later earlier = false) results.

(** The events of a wait on a rate limiter, with every sleep of a
    positive duration. *)
Definition positive_wait (e : event) : Prop :=
  match e with
  | Sleep seconds => (0 < seconds)%Q
  | Acquire _ => True
  | _ => False
  end.

(** The world of the examples at [now], with the arXiv limiter
    [limiter]. *)
Definition world_at (now : Q) (limiter : RateLimiter) : World :=
  mkWorld now Examples.no_papers 0 Examples.settings0 Examples.gemini0 limiter [] [].

(** A coroutine that fails with [e] after the one event [ev]. *)
Definition failing (ev : event) (e : exn) : M unit := emit ev;; raise e.

(** [c] takes every world to one that [R] relates to it. *)
Definition keeps {A} (R : World -> World -> Prop) (c : M A) : Prop :=
  forall w, R w (Trace.world_of (c w)).

(** What the methods of [GeminiService] keep true of the circuit
    breaker: the threshold is positive, the state is CLOSED exactly
    below the threshold, and a breaker that is not CLOSED has the time
    of a failure. *)
Definition breaker_ok (g : GeminiService) : Prop :=
  (0 < circuit_breaker_threshold g)%Z
  /\ (circuit_breaker_state g = CLOSED
      <-> (circuit_breaker_failures g < circuit_breaker_threshold g)%Z)
  /\ (circuit_breaker_state g <> CLOSED -> circuit_breaker_last_failure g <> None).

(** The fields of the circuit breaker are the same in both worlds. *)
Definition same_breaker (w w' : World) : Prop :=
  circuit_breaker_failures (gemini w') = circuit_breaker_failures (gemini w)
  /\ circuit_breaker_threshold (gemini w') = circuit_breaker_threshold (gemini w)
  /\ circuit_breaker_timeout (gemini w') = circuit_breaker_timeout (gemini w)
  /\ circuit_breaker_last_failure (gemini w') = circuit_breaker_last_failure (gemini w)
  /\ circuit_breaker_state (gemini w') = circuit_breaker_state (gemini w).



(** Two bodies that are JSON and no request: an empty object and an
    empty array, with a [json.loads] that reads both. *)
Definition empty_object : delivery := mkDelivery (list_byte_of_string "{}").
Definition empty_array : delivery := mkDelivery (list_byte_of_string "[]").

Definition loads_empty (text : string) : string + json :=
  if String.eqb text "[]" then inr (JArr []) else Examples.loads_example text.

End Observed.

(** * Verified properties *)

(** ** Running coroutines *)

Section Runs.

Context {A B : Type}.

Lemma run_bind_ok (c : M A) (f : A -> M B) w a w1 t1 :
  c w = (Ok a, w1, t1) ->
  (c ≫= f) w = (let '(r, w2, t2) := f a w1 in (r, w2, t1 ++ t2)).
Proof. intros H. unfold mbind, M_bind. rewrite H. reflexivity. Qed.

Lemma run_bind_raise (c : M A) (f : A -> M B) w e w1 t1 :
  c w = (Raise e, w1, t1) -> (c ≫= f) w = (Raise e, w1, t1).
Proof. intros H. unfold mbind, M_bind. rewrite H. reflexivity. Qed.

(** A bind that returns went through both of its parts. *)
Lemma bind_returns (c : M A) (f : A -> M B) w b w2 t :
  (c ≫= f) w = (Ok b, w2, t) ->
  exists a w1 t1 t2,
    c w = (Ok a, w1, t1) /\ f a w1 = (Ok b, w2, t2) /\ t = t1 ++ t2.
Proof.
  unfold mbind, M_bind. destruct (c w) as [[[a|e] w1] t1]; [|discriminate].
  destruct (f a w1) as [[r w2'] t2] eqn:Ef. intros H. inversion H; subst.
  exists a, w1, t1, t2. auto.
Qed.

Lemma run_catch_ok (c : M A) (h : exn -> M A) w a w1 t1 :
  c w = (Ok a, w1, t1) -> catch c h w = (Ok a, w1, t1).
Proof. intros H. unfold catch. rewrite H. reflexivity. Qed.

Lemma run_catch_raise (c : M A) (h : exn -> M A) w e w1 t1 :
  c w = (Raise e, w1, t1) ->
  catch c h w = (let '(r, w2, t2) := h e w1 in (r, w2, t1 ++ t2)).
Proof. intros H. unfold catch. rewrite H. reflexivity. Qed.

End Runs.

(** ** A logic of invariants, events and returned values *)

Section Triples.

Import Trace.

Variable Inv : World -> Prop.
Variable T : list event -> Prop.
Hypothesis HInv : stable Inv.
Hypothesis HT : closed T.

Local Ltac facts :=
  pose proof (closed_nil T HT); pose proof (closed_app T HT);
  pose proof (stable_clock Inv HInv); pose proof (stable_asked Inv HInv).

Lemma triple_ret {X} (a : X) (Q : X -> Prop) : Q a -> triple Inv T (mret a) Q.
Proof. intros Ha w Hw. simpl. facts; auto. Qed.

Lemma triple_raise {X} (e : exn) (Q : X -> Prop) : triple Inv T (raise e) Q.
Proof. intros w Hw. simpl. facts; auto. Qed.

Lemma triple_weaken {X} (c : M X) (Q Q' : X -> Prop) :
  triple Inv T c Q -> (forall a, Q a -> Q' a) -> triple Inv T c Q'.
Proof.
  intros Hc HQ w Hw. specialize (Hc w Hw).
  destruct (c w) as [[[a|e] w'] t]; intuition.
Qed.

Lemma triple_bind {X Y} (c : M X) (f : X -> M Y) (Q1 : X -> Prop) (Q2 : Y -> Prop) :
  triple Inv T c Q1 -> (forall a, Q1 a -> triple Inv T (f a) Q2) ->
  triple Inv T (c ≫= f) Q2.
Proof.
  intros Hc Hf w Hw. specialize (Hc w Hw). unfold mbind, M_bind.
  destruct (c w) as [[[a|e] w1] t1]; [|exact Hc].
  destruct Hc as (Hw1 & Ht1 & Ha). specialize (Hf a Ha w1 Hw1).
  destruct (f a w1) as [[[b|e] w2] t2].
  - destruct Hf as (? & ? & ?). facts; auto.
  - destruct Hf as (? & ?). facts; auto.
Qed.

Lemma triple_catch {X} (c : M X) (h : exn -> M X) (Q : X -> Prop) :
  triple Inv T c Q -> (forall e, triple Inv T (h e) Q) -> triple Inv T (catch c h) Q.
Proof.
  intros Hc Hh w Hw. specialize (Hc w Hw). unfold catch.
  destruct (c w) as [[[a|e] w1] t1]; [exact Hc|].
  destruct Hc as (Hw1 & Ht1). specialize (Hh e w1 Hw1).
  destruct (h e w1) as [[[b|e'] w2] t2].
  - destruct Hh as (? & ? & ?). facts; auto.
  - destruct Hh as (? & ?). facts; auto.
Qed.

Lemma triple_finally {X} (c : M X) (f : M unit) (Q : X -> Prop) :
  triple Inv T c Q -> triple Inv T f (fun _ => True) -> triple Inv T (finally c f) Q.
Proof.
  intros Hc Hf w Hw. specialize (Hc w Hw). unfold finally.
  destruct (c w) as [[r w1] t1].
  assert (Hw1 : Inv w1) by (destruct r; tauto).
  assert (Ht1 : T t1) by (destruct r; tauto).
  specialize (Hf w1 Hw1).
  destruct (f w1) as [[[u|e] w2] t2].
  - destruct Hf as (? & ? & _). facts; destruct r; intuition auto.
  - destruct Hf as (? & ?). facts; auto.
Qed.

Lemma triple_gets {X} (f : World -> X) (Q : X -> Prop) :
  (forall w, Inv w -> Q (f w)) -> triple Inv T (gets f) Q.
Proof. intros HQ w Hw. simpl. facts; auto. Qed.

Lemma triple_modify (f : World -> World) (Q : unit -> Prop) :
  (forall w, Inv w -> Inv (f w)) -> Q tt -> triple Inv T (modify f) Q.
Proof. intros Hf HQ w Hw. simpl. facts; auto. Qed.

Lemma triple_emit (e : event) (Q : unit -> Prop) :
  T [e] -> Q tt -> triple Inv T (emit e) Q.
Proof. intros He HQ w Hw. simpl. auto. Qed.

Lemma triple_ask (e : event) : T [e] -> triple Inv T (ask e) (fun _ => True).
Proof. intros He w Hw. simpl. facts; auto. Qed.

Lemma triple_perform (e : event) (Q : unit -> Prop) :
  T [e] -> Q tt -> triple Inv T (perform e) Q.
Proof.
  intros He HQ. unfold perform.
  apply triple_bind with (Q1 := fun _ => True); [apply triple_ask, He|].
  intros r _; destruct r; first [apply triple_raise | apply triple_ret; exact HQ].
Qed.

Lemma triple_sleep (d : Q) (Q' : unit -> Prop) :
  T [Sleep d] -> Q' tt -> triple Inv T (sleep d) Q'.
Proof. intros He HQ w Hw. simpl. facts; auto. Qed.

Lemma triple_lift {X} (r : res X) (Q : X -> Prop) :
  (forall a, r = Ok a -> Q a) -> triple Inv T (Consumer.lift r) Q.
Proof.
  intros HQ. destruct r; simpl; [apply triple_ret; auto | apply triple_raise].
Qed.

Lemma triple_retry_from {X} (func : M X) (Q : X -> Prop) remaining attempt
    max_attempts delay last :
  T [Sleep delay] -> triple Inv T func Q ->
  triple Inv T (Retry.retry_from remaining attempt max_attempts delay func last) Q.
Proof.
  intros Hs Hf. revert attempt last.
  induction remaining as [|r IH]; intros attempt last; simpl.
  - destruct last; apply triple_raise.
  - apply triple_catch; [exact Hf|]. intros e.
    apply triple_bind with (Q1 := fun _ => True).
    + destruct (attempt <? max_attempts - 1)%Z;
        [apply triple_sleep; auto | apply triple_ret; auto].
    + intros _ _. apply IH.
Qed.

Lemma triple_retry_async {X} (func : M X) (Q : X -> Prop) max_attempts delay :
  T [Sleep delay] -> triple Inv T func Q ->
  triple Inv T (Retry.retry_async max_attempts delay func) Q.
Proof. intros. apply triple_retry_from; assumption. Qed.

End Triples.

(** ** The rate limiter *)

Section LimiterFacts.

Import Trace.

Lemma wait_if_needed_from_unfold depth name :
  Limiter.wait_if_needed_from depth name =
  (emit (Acquire name);;
  now ← gets clock;
  lim ← gets (Limiter.get_limiter name);
  let cutoff := (now - time_window lim)%Q in
  let kept := List.filter (fun call_time => Qltb cutoff call_time) (calls lim) in
  modify (Limiter.set_limiter name (Limiter.set_calls kept lim));;
  (if (max_calls lim <=? Z.of_nat (length kept))%Z
   then match kept with
        | [] => raise (mkExn "ValueError" "min() arg is an empty sequence")
        | c :: cs =>
            let oldest_call := Limiter.oldest_of c cs in
            let wait_time := (oldest_call + time_window lim - now)%Q in
            if Qltb 0%Q wait_time
            then sleep wait_time;;
                 match depth with
                 | O => raise (mkExn "RecursionError" "maximum recursion depth exceeded")
                 | S d => Limiter.wait_if_needed_from d name
                 end
            else mret tt
        end
   else mret tt);;
  lim' ← gets (Limiter.get_limiter name);
  modify (Limiter.set_limiter name (Limiter.set_calls (calls lim' ++ [now]) lim'))).
Proof. destruct depth; reflexivity. Qed.

Lemma oldest_of_In c cs : In (Limiter.oldest_of c cs) (c :: cs).
Proof.
  unfold Limiter.oldest_of. revert c. induction cs as [|x cs IH]; intros c; simpl.
  - left; reflexivity.
  - destruct (Qltb x c).
    + destruct (IH x) as [H|H]; [right; left; exact H | right; right; exact H].
    + destruct (IH c) as [H|H]; [left; exact H | right; right; exact H].
Qed.

Lemma filter_drops {A} (f : A -> bool) (l : list A) (x : A) :
  In x l -> f x = false -> (length (List.filter f l) < length l)%nat.
Proof.
  induction l as [|y l IH]; simpl; [tauto|].
  intros [->|Hin] Hx.
  - rewrite Hx. pose proof (List.filter_length_le f l). lia.
  - specialize (IH Hin Hx). destruct (f y); simpl; lia.
Qed.

Lemma Qltb_true x y : Qltb x y = true <-> (x < y)%Q.
Proof.
  unfold Qltb. rewrite negb_true_iff. split.
  - intros H. apply Qnot_le_lt. intros Hle. apply Qle_bool_iff in Hle. congruence.
  - intros H. apply not_true_iff_false. intros Hle. apply Qle_bool_iff in Hle.
    exact (Qlt_not_le _ _ H Hle).
Qed.

Lemma Qltb_false x y : Qltb x y = false <-> (y <= x)%Q.
Proof. unfold Qltb. rewrite negb_false_iff. apply Qle_bool_iff. Qed.

(** After the sleep the oldest call has left the window. *)
Lemma slept_past_oldest (now window oldest : Q) :
  (0 < oldest + window - now)%Q ->
  Qltb (Qred (now + Qmax 0 (oldest + window - now)) - window) oldest = false.
Proof.
  intros Hpos. apply Qltb_false.
  rewrite Qred_correct, Q.max_r by (apply Qlt_le_weak, Hpos).
  assert (E : (now + (oldest + window - now) - window == oldest)%Q) by ring.
  rewrite E. apply Qle_refl.
Qed.

(** What a wait does, however it ends: the clock and the limiter
    change, nothing else; the limiter keeps its parameters; the events
    are those of a wait.  It returns when the limiter admits at least
    one call and the recursion has a level left for every call still
    in the window. *)
Lemma wait_if_needed_from_spec depth name w :
  exists r c' l' t,
    Limiter.wait_if_needed_from depth name w
    = (r, Limiter.set_limiter name l' (set_clock c' w), t)
    /\ max_calls l' = max_calls (Limiter.get_limiter name w)
    /\ time_window l' = time_window (Limiter.get_limiter name w)
    /\ Forall waiting t
    /\ (r = Ok tt -> ends_acquired name t)
    /\ ((0 < max_calls (Limiter.get_limiter name w))%Z ->
        (length (List.filter
           (fun t => Qltb (clock w - time_window (Limiter.get_limiter name w)) t)
           (calls (Limiter.get_limiter name w))) <= depth)%nat ->
        r = Ok tt).
Proof.
  revert w. induction depth as [|d IH]; intros w.
  all: rewrite wait_if_needed_from_unfold.
  all: destruct w as [ck o a st [rl f th to lf bs] al sr cr].
  all: destruct name.
  all: unfold mbind, M_bind, emit, gets, modify, mret, M_ret; simpl.
  all: match goal with
       | |- context [(?m <=? Z.of_nat (length ?k))%Z] =>
           remember k as kept eqn:Ek;
           destruct (Z.leb_spec m (Z.of_nat (length kept))) as [Hfull|Hfree]
       end.
  all: try (eexists _, _, _, _; split; [reflexivity|];
            repeat split; repeat constructor; try (exists []; reflexivity); fail).
  all: destruct kept as [|c cs].
  all: try (eexists _, _, _, _; split; [reflexivity|];
            repeat split; repeat constructor;
            solve [discriminate | simpl in *; lia]).
  all: destruct (Qltb 0 _) eqn:Ew.
  all: try (eexists _, _, _, _; split; [reflexivity|];
            repeat split; repeat constructor;
            solve [exists []; reflexivity | discriminate | simpl in *; lia]).
  all: match goal with
       | Hw : Qltb 0 (Limiter.oldest_of ?c ?cs + ?win - ?ck) = true
         |- context [Limiter.wait_if_needed_from ?d' ?n ?W] =>
           destruct (IH W) as (r2 & c2 & l2 & t2 & Hrun & Hm & Hw' & Ht & Hend & Hok);
           rewrite Hrun;
           pose proof (filter_drops
             (fun t => Qltb (Qred (ck + Qmax 0
                 (Limiter.oldest_of c cs + win - ck)) - win) t)
             (c :: cs) (Limiter.oldest_of c cs) (oldest_of_In c cs)
             (slept_past_oldest _ _ _ (proj1 (Qltb_true _ _) Hw))) as Hdrop
       end.
  all: simpl in Hm, Hw', Hok, Hdrop |- *.
  all: destruct r2 as [[]|e2].
  all: eexists _, _, _, _; split; [reflexivity|].
  all: simpl; repeat split; try assumption.
  all: try (constructor; [exact I|]; constructor; [exact I|];
            rewrite ?app_nil_r; exact Ht).
  all: try discriminate.
  all: try (intros _; destruct (Hend eq_refl) as [t' ->];
            eexists (_ :: _ :: t'); rewrite app_nil_r; reflexivity).
  all: try (intros; reflexivity).
  all: intros Hmax Hlen; exfalso.
  all: assert (Hbad : Raise e2 = Ok ()) by (apply Hok; [exact Hmax | lia]).
  all: discriminate Hbad.
Qed.

Lemma wait_if_needed_spec name w :
  exists r c' l' t,
    Limiter.wait_if_needed name w
    = (r, Limiter.set_limiter name l' (set_clock c' w), t)
    /\ max_calls l' = max_calls (Limiter.get_limiter name w)
    /\ time_window l' = time_window (Limiter.get_limiter name w)
    /\ Forall waiting t
    /\ (r = Ok tt -> ends_acquired name t)
    /\ ((0 < max_calls (Limiter.get_limiter name w))%Z -> r = Ok tt).
Proof.
  unfold Limiter.wait_if_needed.
  destruct (wait_if_needed_from_spec
              (length (calls (Limiter.get_limiter name w))) name w)
    as (r & c' & l' & t & Hrun & Hm & Hw & Ht & Hend & Hok).
  exists r, c', l', t. repeat split; try assumption.
  intros Hmax. apply Hok; [exact Hmax|]. apply List.filter_length_le.
Qed.

End LimiterFacts.

(** ** Triples of the services *)

Ltac tside := first [ eassumption | exact I | idtac ].

Ltac tstep :=
  lazymatch goal with
  | |- Trace.triple _ _ (mret _) _ => eapply triple_ret; tside
  | |- Trace.triple _ _ (raise _) _ => eapply triple_raise; tside
  | |- Trace.triple _ _ (mbind _ _) _ =>
      eapply triple_bind with (Q1 := fun _ => True);
      [ eassumption | eassumption | | intros ? _ ]
  | |- Trace.triple _ _ (catch _ _) _ =>
      eapply triple_catch; [ eassumption | eassumption | | intros ? ]
  | |- Trace.triple _ _ (finally _ _) _ =>
      eapply triple_finally; [ eassumption | eassumption | | ]
  | |- Trace.triple _ _ (gets _) _ =>
      eapply triple_gets; [ eassumption | eassumption | intros; tside ]
  | |- Trace.triple _ _ (Consumer.lift _) _ =>
      eapply triple_lift; [ eassumption | eassumption | intros; tside ]
  | |- Trace.triple _ _ (if ?b then _ else _) _ => destruct b
  | |- Trace.triple _ _ (match ?x with _ => _ end) _ => destruct x
  | |- Trace.triple _ _ (let '(_, _) := ?x in _) _ => destruct x
  end.

Section Safety.

Import Trace.

Variable Inv : World -> Prop.
Variable T : list event -> Prop.
Hypothesis HInv : stable Inv.
Hypothesis HT : closed T.
Hypothesis Hinternal : forall e, internal e -> T [e].

Lemma closed_Forall (P : event -> Prop) (t : list event) :
  (forall e, P e -> T [e]) -> Forall P t -> T t.
Proof.
  intros HP. induction 1 as [|e t He _ IH]; [apply (closed_nil T HT)|].
  change (e :: t) with ([e] ++ t). apply (closed_app T HT); auto.
Qed.

Lemma waiting_internal e : waiting e -> internal e.
Proof. destruct e; simpl; tauto. Qed.

Lemma get_limiter_set_clock name c w :
  Limiter.get_limiter name (set_clock c w) = Limiter.get_limiter name w.
Proof. destruct name; reflexivity. Qed.

Lemma safe_wait_if_needed name (Q : unit -> Prop) :
  Q tt -> triple Inv T (Limiter.wait_if_needed name) Q.
Proof.
  intros HQ w Hw.
  destruct (wait_if_needed_spec name w)
    as (r & c' & l' & t & Hrun & Hm & _ & Ht & _ & _).
  rewrite Hrun.
  assert (Hw' : Inv (Limiter.set_limiter name l' (set_clock c' w))).
  { apply (stable_limiter Inv HInv).
    - rewrite get_limiter_set_clock. exact Hm.
    - apply (stable_clock Inv HInv), Hw. }
  assert (Ht' : T t).
  { apply (closed_Forall waiting); [|exact Ht].
    intros e He. apply Hinternal, waiting_internal, He. }
  destruct r as [[]|e]; auto.
Qed.

Lemma safe_ask e : internal e -> triple Inv T (ask e) (fun _ => True).
Proof. intros He. eapply triple_ask; eauto. Qed.

Lemma safe_perform e (Q : unit -> Prop) :
  internal e -> Q tt -> triple Inv T (perform e) Q.
Proof. intros He HQ. eapply triple_perform; eauto. Qed.

Lemma safe_sleep d (Q : unit -> Prop) : Q tt -> triple Inv T (sleep d) Q.
Proof. intros HQ. eapply triple_sleep; eauto. apply Hinternal. exact I. Qed.

Lemma safe_retry_async {X} (func : M X) (Q : X -> Prop) n delay :
  triple Inv T func Q -> triple Inv T (Retry.retry_async n delay func) Q.
Proof. intros. eapply triple_retry_async; eauto. apply Hinternal. exact I. Qed.

Lemma safe_modify (f : World -> World) (Q : unit -> Prop) :
  (forall w, Inv w -> Inv (f w)) -> Q tt -> triple Inv T (modify f) Q.
Proof. intros. eapply triple_modify; eauto. Qed.

Lemma safe_update_breaker failures last state (Q : unit -> Prop) :
  Q tt ->
  triple Inv T (Gemini.update (Gemini.set_breaker failures last state)) Q.
Proof.
  intros HQ. apply safe_modify; [|exact HQ].
  intros w Hw. apply (stable_breaker Inv HInv), Hw.
Qed.

Ltac tleaf :=
  first [ apply safe_wait_if_needed; exact I
        | apply safe_ask; exact I
        | apply safe_perform; exact I
        | apply safe_sleep; exact I
        | apply safe_update_breaker; exact I
        | apply safe_modify;
          [ intros;
            first [ apply (stable_committed Inv HInv)
                  | apply (stable_session Inv HInv) ]; assumption
          | exact I ] ].

Ltac tgo known := repeat first [ progress cbv zeta | tleaf | known | tstep ].

Lemma safe_expect_text r : triple Inv T (expect_text r) (fun _ => True).
Proof. unfold expect_text. tgo fail. Qed.

(** *** The search service *)

Lemma safe_search_arxiv query limit :
  triple Inv T (Search._search_arxiv query limit) (fun _ => True).
Proof.
  unfold Search._search_arxiv. apply safe_retry_async.
  unfold Search._search_arxiv_try. tgo fail.
Qed.

Lemma safe_search_papers query max_results :
  triple Inv T (Search.search_papers query max_results) (fun _ => True).
Proof.
  unfold Search.search_papers. tgo ltac:(apply safe_search_arxiv).
Qed.

(** *** The model client *)

Lemma safe_check_circuit_breaker :
  triple Inv T Gemini._check_circuit_breaker (fun _ => True).
Proof. unfold Gemini._check_circuit_breaker. tgo fail. Qed.

Lemma safe_record_success : triple Inv T Gemini._record_success (fun _ => True).
Proof. unfold Gemini._record_success. tgo fail. Qed.

Lemma safe_record_failure : triple Inv T Gemini._record_failure (fun _ => True).
Proof. unfold Gemini._record_failure. tgo fail. Qed.

Lemma safe_exponential_backoff attempt base_delay :
  triple Inv T (Gemini._exponential_backoff attempt base_delay) (fun _ => True).
Proof.
  unfold Gemini._exponential_backoff, Gemini.random_uniform. tgo fail.
Qed.

Section Parsers.

Variable parse_json_safely : string -> json -> json.
Variable InitialGap_of : list (string * json) -> option InitialGap.
Variable ValidationResult_of : list (string * json) -> option ValidationResult.
Variable validate_enrichment : list (string * json) -> option (list (string * json)).

Ltac tgemini :=
  first [ apply safe_check_circuit_breaker
        | apply safe_record_success
        | apply safe_record_failure
        | apply safe_exponential_backoff
        | apply safe_expect_text
        | apply safe_retry_async ].

Lemma safe_initial_gaps_attempts remaining attempt max_attempts paper content :
  triple Inv T
    (Gemini.initial_gaps_attempts parse_json_safely InitialGap_of
       remaining attempt max_attempts paper content) (fun _ => True).
Proof.
  revert attempt. induction remaining as [|r IH]; intros attempt; simpl.
  - tgo fail.
  - unfold Gemini.initial_gaps_try. tgo ltac:(first [tgemini | apply IH]).
Qed.

Lemma safe_generate_initial_gaps paper content :
  triple Inv T
    (Gemini.generate_initial_gaps parse_json_safely InitialGap_of paper content)
    (fun _ => True).
Proof.
  unfold Gemini.generate_initial_gaps.
  tgo ltac:(first [tgemini | apply safe_initial_gaps_attempts]).
Qed.

Lemma safe_generate_search_query gap :
  triple Inv T (Gemini.generate_search_query gap) (fun _ => True).
Proof. unfold Gemini.generate_search_query. tgo tgemini. Qed.

Lemma safe_validate_gap gap papers :
  triple Inv T
    (Gemini.validate_gap parse_json_safely ValidationResult_of gap papers)
    (fun _ => True).
Proof.
  unfold Gemini.validate_gap, Gemini.validate_gap_undecorated,
    Gemini.validate_gap_try.
  tgo tgemini.
Qed.

Lemma safe_expand_gap_details gap validation :
  triple Inv T (Gemini.expand_gap_details parse_json_safely gap validation)
    (fun _ => True).
Proof.
  unfold Gemini.expand_gap_details, Gemini.expand_gap_details_undecorated,
    Gemini.expand_gap_details_try.
  tgo tgemini.
Qed.

(** *** The store *)

Lemma safe_commit : triple Inv T Store.commit (fun _ => True).
Proof. unfold Store.commit. tgo fail. Qed.

Lemma safe_rollback : triple Inv T Store.rollback (fun _ => True).
Proof. unfold Store.rollback. tgo fail. Qed.

Lemma safe_flush analysis change :
  triple Inv T (Store.flush analysis change) (fun _ => True).
Proof. unfold Store.flush. tgo fail. Qed.

Lemma safe_execute_upsert values :
  triple Inv T (Store.execute_upsert values) (fun _ => True).
Proof. unfold Store.execute_upsert. tgo fail. Qed.

Lemma safe_session_get id : triple Inv T (Store.session_get id) (fun _ => True).
Proof. unfold Store.session_get. tgo fail. Qed.

Lemma safe_select_by_correlation c :
  triple Inv T (Store.select_by_correlation c) (fun _ => True).
Proof. unfold Store.select_by_correlation. tgo fail. Qed.

Lemma safe_uuid4 : triple Inv T Store.uuid4 (fun _ => True).
Proof. unfold Store.uuid4. tgo fail. Qed.

Ltac tstore :=
  first [ apply safe_commit | apply safe_rollback | apply safe_flush
        | apply safe_execute_upsert | apply safe_session_get
        | apply safe_select_by_correlation | apply safe_uuid4 ].

(** *** The pipeline *)

Lemma safe_create_gap_analysis request :
  triple Inv T (Pipeline._create_gap_analysis request) (fun _ => True).
Proof. unfold Pipeline._create_gap_analysis. tgo tstore. Qed.

Lemma safe_fetch_paper_data p x :
  triple Inv T (Pipeline._fetch_paper_data p x) (fun _ => True).
Proof. unfold Pipeline._fetch_paper_data. tgo fail. Qed.

Lemma safe_update_analysis_summary analysis total valid :
  triple Inv T (Pipeline._update_analysis_summary analysis total valid)
    (fun _ => True).
Proof. unfold Pipeline._update_analysis_summary. tgo tstore. Qed.

Lemma safe_mark_analysis_completed analysis a b c d :
  triple Inv T (Pipeline._mark_analysis_completed analysis a b c d)
    (fun _ => True).
Proof. unfold Pipeline._mark_analysis_completed. tgo tstore. Qed.

Lemma safe_mark_analysis_failed analysis error :
  triple Inv T (Pipeline._mark_analysis_failed analysis error) (fun _ => True).
Proof. unfold Pipeline._mark_analysis_failed. tgo tstore. Qed.

Lemma safe_extract_batch papers :
  triple Inv T (Pipeline.extract_batch papers) (fun _ => True).
Proof. unfold Pipeline.extract_batch. tgo fail. Qed.

Lemma safe_validate_gap_try gap :
  triple Inv T
    (Pipeline._validate_gap_try parse_json_safely ValidationResult_of gap)
    (fun _ => True).
Proof.
  unfold Pipeline._validate_gap_try.
  tgo ltac:(first [ apply safe_generate_search_query | apply safe_search_papers
                  | apply safe_extract_batch | apply safe_validate_gap ]).
Qed.

Lemma safe_pipeline_validate_gap gap :
  triple Inv T
    (Pipeline._validate_gap parse_json_safely ValidationResult_of gap)
    (fun _ => True).
Proof.
  unfold Pipeline._validate_gap. tgo ltac:(apply safe_validate_gap_try).
Qed.

Lemma safe_pipeline_expand_gap_details gap :
  triple Inv T (Pipeline._expand_gap_details parse_json_safely gap)
    (fun _ => True).
Proof.
  unfold Pipeline._expand_gap_details. tgo ltac:(apply safe_expand_gap_details).
Qed.

Lemma safe_process_single_gap analysis_id gap index :
  triple Inv T
    (Pipeline._process_single_gap parse_json_safely ValidationResult_of
       analysis_id gap index) (fun _ => True).
Proof.
  unfold Pipeline._process_single_gap.
  tgo ltac:(first [ apply safe_pipeline_validate_gap
                  | apply safe_pipeline_expand_gap_details | tstore ]).
Qed.

Lemma safe_process_gaps analysis_id index gaps :
  triple Inv T
    (Pipeline.process_gaps parse_json_safely ValidationResult_of
       analysis_id index gaps) (fun _ => True).
Proof.
  revert index. induction gaps as [|gap rest IH]; intros index; simpl.
  - tgo fail.
  - tgo ltac:(first [ apply safe_process_single_gap | apply IH ]).
Qed.

Lemma safe_prepare_response analysis valid_gap_data :
  triple Inv T (Pipeline._prepare_response validate_enrichment analysis valid_gap_data)
    settled.
Proof.
  unfold Pipeline._prepare_response.
  destruct (Pipeline.gap_details_of _ _); [|tgo fail].
  eapply triple_ret; try eassumption. left; reflexivity.
Qed.

Lemma safe_fetch_and_generate request :
  triple Inv T
    (Pipeline.fetch_and_generate parse_json_safely InitialGap_of request)
    (fun _ => True).
Proof.
  unfold Pipeline.fetch_and_generate.
  tgo ltac:(first [ apply safe_fetch_paper_data | apply safe_generate_initial_gaps ]).
Qed.

Lemma safe_analyze_with request analysis :
  triple Inv T
    (Pipeline.analyze_with parse_json_safely InitialGap_of ValidationResult_of
       validate_enrichment request analysis) settled.
Proof.
  unfold Pipeline.analyze_with.
  tstep; [apply safe_fetch_and_generate|].
  tstep.
  - tstep; [apply safe_mark_analysis_completed|].
    eapply triple_ret; try eassumption. left; reflexivity.
  - tstep; [apply safe_process_gaps|]. cbv zeta.
    tstep; [apply safe_update_analysis_summary|].
    apply safe_prepare_response.
Qed.

Lemma safe_on_failure request analysis e :
  triple Inv T (Pipeline.on_failure request analysis e) settled.
Proof.
  unfold Pipeline.on_failure.
  tstep; [tgo tstore|].
  tstep; [tgo ltac:(apply safe_mark_analysis_failed)|].
  eapply triple_ret; try eassumption. right; reflexivity.
Qed.

Lemma safe_bind_analysis request :
  triple Inv T (Pipeline.bind_analysis request) (fun _ => True).
Proof.
  unfold Pipeline.bind_analysis. tgo ltac:(apply safe_create_gap_analysis).
Qed.

(** A response of [analyze_paper] is COMPLETED or FAILED. *)
Lemma safe_analyze_paper request :
  triple Inv T
    (Pipeline.analyze_paper parse_json_safely InitialGap_of ValidationResult_of
       validate_enrichment request) settled.
Proof.
  unfold Pipeline.analyze_paper.
  eapply triple_finally; try eassumption; [|tgo fail].
  tstep; [tgo ltac:(apply safe_bind_analysis)|].
  destruct a as [[analysis|]|e].
  - eapply triple_catch; try eassumption.
    + apply safe_analyze_with.
    + intros e. apply safe_on_failure.
  - apply safe_on_failure.
  - apply safe_on_failure.
Qed.

End Parsers.

End Safety.

(** ** Search: query degradation *)

Section SearchFacts.

Import Trace.

Lemma queries_sent_app t1 t2 :
  queries_sent (t1 ++ t2) = queries_sent t1 ++ queries_sent t2.
Proof. apply omap_app. Qed.

Lemma queries_sent_waiting t : Forall waiting t -> queries_sent t = [].
Proof.
  induction 1 as [|e t He _ IH]; [reflexivity|].
  destruct e; try contradiction; exact IH.
Qed.

Lemma search_arxiv_barren query limit w :
  barren w ->
  exists w' t,
    Search._search_arxiv query limit w = (Ok [], w', t)
    /\ barren w'
    /\ queries_sent t = [clean query].
Proof.
  intros [Hmax Hquiet].
  destruct (wait_if_needed_spec ArxivLimiter w)
    as (r & c' & l' & t1 & Hrun & Hm & _ & Ht1 & _ & Hok).
  rewrite (Hok Hmax) in Hrun. clear Hok.
  unfold Search._search_arxiv, Retry.retry_async. simpl Retry.retry_from.
  unfold Search._search_arxiv_try.
  unfold catch at 1. unfold catch at 1.
  rewrite (run_bind_ok _ _ _ _ _ _ Hrun). cbv zeta.
  unfold mbind, M_bind, ask. simpl.
  pose proof (Hquiet (asked w) (PyStr.lower (PyStr.strip query)) limit) as Hno.
  destruct (oracle w (asked w) (ArxivQuery (PyStr.lower (PyStr.strip query)) limit))
    as [e| | | | |sc ct|sc entries| |]; simpl.
  7: { destruct (Z.eqb_spec sc 200) as [->|Hsc];
       [destruct entries as [[|x results]|]|]; simpl; try (simpl in Hno; congruence).
       all: eexists _, _; split; [reflexivity|]; split;
         [split; [simpl; rewrite Hm; exact Hmax | exact Hquiet]|].
       all: rewrite !queries_sent_app, (queries_sent_waiting _ Ht1); reflexivity. }
  all: eexists _, _; split; [reflexivity|]; split;
    [split; [simpl; rewrite Hm; exact Hmax | exact Hquiet]|].
  all: rewrite !queries_sent_app, (queries_sent_waiting _ Ht1); reflexivity.
Qed.

(** One call of [_search_arxiv]: it returns from every world, the
    limiter of arXiv keeps its bound, and when that bound admits a
    call the cleaned query is sent, once. *)
Lemma search_arxiv_run query limit w :
  exists results w' t,
    Search._search_arxiv query limit w = (Ok results, w', t)
    /\ max_calls (arxiv_limiter w') = max_calls (arxiv_limiter w)
    /\ ((0 < max_calls (arxiv_limiter w))%Z -> queries_sent t = [clean query]).
Proof.
  destruct (wait_if_needed_spec ArxivLimiter w)
    as (r & c' & l' & t1 & Hrun & Hm & _ & Ht1 & _ & Hok).
  unfold Search._search_arxiv, Retry.retry_async. simpl Retry.retry_from.
  unfold Search._search_arxiv_try.
  unfold catch at 1. unfold catch at 1.
  destruct r as [[]|e].
  - rewrite (run_bind_ok _ _ _ _ _ _ Hrun). cbv zeta.
    unfold mbind, M_bind, ask. simpl.
    destruct (oracle w (asked w) (ArxivQuery (PyStr.lower (PyStr.strip query)) limit))
      as [e| | | | |sc ct|sc entries| |]; simpl.
    7: destruct (sc =? 200)%Z; [destruct entries as [results|]|]; simpl.
    all: eexists _, _, _; split; [reflexivity|]; split; [exact Hm|].
    all: intros _; rewrite !queries_sent_app, (queries_sent_waiting _ Ht1);
      reflexivity.
  - rewrite (run_bind_raise _ _ _ _ _ _ Hrun). simpl.
    eexists _, _, _. split; [reflexivity|]. split; [exact Hm|].
    intros Hmax. specialize (Hok Hmax). discriminate Hok.
Qed.

End SearchFacts.

Section Degradation.

Import Trace.

Lemma slice_to_nil {A} (n : Z) : Search.slice_to n (@nil A) = [].
Proof. unfold Search.slice_to. destruct (0 <=? n)%Z; apply firstn_nil. Qed.

(** What [search_papers] does when arXiv has no paper for any query. *)
Lemma search_papers_barren (query : string) (max_results : Z) (w : World) :
  barren w ->
  let words := PyStr.split query in
  exists w' t,
    Search.search_papers query max_results w = (Ok [], w', t)
    /\ barren w'
    /\ queries_sent t =
       map clean
         ([query]
          ++ (if (2 <? length words)%nat
              then [PyStr.join " " (firstn 2 words)] else [])
          ++ (if (1 <? length words)%nat then [hd "" words] else [])).
Proof.
  intros Hw words.
  destruct (search_arxiv_barren query max_results w Hw)
    as (w1 & t1 & Hrun1 & Hw1 & Hq1).
  unfold Search.search_papers, mbind, M_bind, mret, M_ret.
  rewrite Hrun1. cbv beta iota zeta.
  cbn [length Nat.eqb app andb]. cbv beta iota. fold words.
  destruct (2 <? length words)%nat.
  - destruct (search_arxiv_barren (PyStr.join " " (firstn 2 words)) max_results
                w1 Hw1) as (w2 & t2 & Hrun2 & Hw2 & Hq2).
    rewrite Hrun2. cbv beta iota zeta.
    destruct (1 <? length words)%nat; cbn [length Nat.eqb app andb]; cbv beta iota.
    + destruct (search_arxiv_barren (hd "" words) max_results w2 Hw2)
        as (w3 & t3 & Hrun3 & Hw3 & Hq3).
      rewrite Hrun3. cbv beta iota zeta.
      cbn [app Search._remove_duplicates]. rewrite slice_to_nil.
      eexists _, _. split; [reflexivity|]. split; [assumption|].
      rewrite !queries_sent_app, Hq1, Hq2, Hq3. reflexivity.
    + cbn [app Search._remove_duplicates]. rewrite slice_to_nil.
      eexists _, _. split; [reflexivity|]. split; [assumption|].
      rewrite !queries_sent_app, Hq1, Hq2. reflexivity.
  - destruct (1 <? length words)%nat; cbn [length Nat.eqb app andb]; cbv beta iota.
    + destruct (search_arxiv_barren (hd "" words) max_results w1 Hw1)
        as (w3 & t3 & Hrun3 & Hw3 & Hq3).
      rewrite Hrun3. cbv beta iota zeta.
      cbn [app Search._remove_duplicates]. rewrite slice_to_nil.
      eexists _, _. split; [reflexivity|]. split; [assumption|].
      rewrite !queries_sent_app, Hq1, Hq3. reflexivity.
    + cbn [app Search._remove_duplicates]. rewrite slice_to_nil.
      eexists _, _. split; [reflexivity|]. split; [assumption|].
      rewrite !queries_sent_app, Hq1. reflexivity.
Qed.

(** C3, as the code has it. [search_papers] sends the original query.
    If that finds a paper, its results are returned, without
    duplicates and cut to [max_results], and no other query is sent.
    If it finds none and the query has more than two words, the first
    two words are sent; results of that query are returned likewise,
    and end the search. If there is still no result and the query has
    more than one word, the first word is sent, and what it finds is
    returned. So a query of two words is retried with its first word
    only, and a query of one word, or of none, is not retried. Each of
    these searches sends its query once, cleaned, when the limiter of
    arXiv admits calls. *)
Theorem search_papers_degrades (query : string) (max_results : Z) (w : World) :
  let words := PyStr.split query in
  let two_words := PyStr.join " " (firstn 2 words) in
  let first_word := hd "" words in
  let admits := (0 < max_calls (arxiv_limiter w))%Z in
  let returns results w' t :=
    Search.search_papers query max_results w
    = (Ok (Search.slice_to max_results (Search._remove_duplicates results)), w', t) in
  exists r1 w1 t1,
    Search._search_arxiv query max_results w = (Ok r1, w1, t1)
    /\ (admits -> queries_sent t1 = [clean query])
    /\ match r1 with
       | _ :: _ => returns r1 w1 t1
       | [] =>
           if (2 <? length words)%nat
           then
             exists r2 w2 t2,
               Search._search_arxiv two_words max_results w1 = (Ok r2, w2, t2)
               /\ (admits -> queries_sent t2 = [clean two_words])
               /\ match r2 with
                  | _ :: _ => returns r2 w2 (t1 ++ t2)
                  | [] =>
                      exists r3 w3 t3,
                        Search._search_arxiv first_word max_results w2
                        = (Ok r3, w3, t3)
                        /\ (admits -> queries_sent t3 = [clean first_word])
                        /\ returns r3 w3 (t1 ++ t2 ++ t3)
                  end
           else
             if (1 <? length words)%nat
             then
               exists r3 w3 t3,
                 Search._search_arxiv first_word max_results w1 = (Ok r3, w3, t3)
                 /\ (admits -> queries_sent t3 = [clean first_word])
                 /\ returns r3 w3 (t1 ++ t3)
             else returns [] w1 t1
       end.
Proof.
  intros words two_words first_word admits returns.
  destruct (search_arxiv_run query max_results w)
    as (r1 & w1 & t1 & Hrun1 & Hm1 & Hq1).
  exists r1, w1, t1. split; [exact Hrun1|]. split; [exact Hq1|].
  unfold returns, Search.search_papers, mbind, M_bind, mret, M_ret.
  rewrite Hrun1. cbv beta iota zeta.
  destruct r1 as [|x r1].
  2: { cbn [length Nat.eqb]. cbv beta iota. rewrite !app_nil_r. reflexivity. }
  cbn [length Nat.eqb]. cbv beta iota. fold words.
  destruct (Nat.ltb_spec 2 (length words)) as [Htwo|Htwo].
  - fold two_words.
    destruct (search_arxiv_run two_words max_results w1)
      as (r2 & w2 & t2 & Hrun2 & Hm2 & Hq2).
    exists r2, w2, t2. split; [exact Hrun2|].
    split; [intros Hmax; apply Hq2; rewrite Hm1; exact Hmax|].
    rewrite Hrun2. cbv beta iota zeta. cbn [app].
    destruct r2 as [|y r2].
    2: { cbn [length Nat.eqb andb]. cbv beta iota. rewrite !app_nil_r.
         reflexivity. }
    cbn [length Nat.eqb andb]. fold first_word.
    assert (Hone : (1 <? length words)%nat = true) by (apply Nat.ltb_lt; lia).
    rewrite Hone.
    destruct (search_arxiv_run first_word max_results w2)
      as (r3 & w3 & t3 & Hrun3 & Hm3 & Hq3).
    exists r3, w3, t3. split; [exact Hrun3|].
    split; [intros Hmax; apply Hq3; rewrite Hm2, Hm1; exact Hmax|].
    cbv beta iota. rewrite Hrun3. cbv beta iota zeta. cbn [app].
    rewrite ?app_nil_r, <- ?app_assoc. reflexivity.
  - fold first_word.
    destruct (1 <? length words)%nat; cbn [length Nat.eqb andb]; cbv beta iota.
    + destruct (search_arxiv_run first_word max_results w1)
        as (r3 & w3 & t3 & Hrun3 & Hm3 & Hq3).
      exists r3, w3, t3. split; [exact Hrun3|].
      split; [intros Hmax; apply Hq3; rewrite Hm1; exact Hmax|].
      rewrite Hrun3. cbv beta iota zeta. cbn [app].
      rewrite !app_nil_r. reflexivity.
    + cbn [app]. rewrite !app_nil_r. reflexivity.
Qed.

(** C3 on a query of four words that finds nothing: it is degraded
    twice. *)
Lemma search_papers_degrades_witness :
  exists w' t,
    Search.search_papers "Quantum error correction codes" 5
      (Examples.world0 Examples.no_papers) = (Ok [], w', t)
    /\ queries_sent t =
       ["quantum error correction codes"; "quantum error"; "quantum"].
Proof.
  destruct (search_papers_degrades "Quantum error correction codes" 5
              (Examples.world0 Examples.no_papers))
    as (r1 & w1 & t1 & Hrun1 & Hq1 & Hrest).
  vm_compute in Hrun1. inversion Hrun1; subst r1 w1 t1; clear Hrun1.
  destruct Hrest as (r2 & w2 & t2 & Hrun2 & Hq2 & Hrest).
  vm_compute in Hrun2. inversion Hrun2; subst r2 w2 t2; clear Hrun2.
  destruct Hrest as (r3 & w3 & t3 & Hrun3 & Hq3 & Hrest).
  vm_compute in Hrun3. inversion Hrun3; subst r3 w3 t3; clear Hrun3.
  eexists _, _. split; [exact Hrest|]. reflexivity.
Defined.

(** C3 as the specification has it fails: a query of one word that
    finds nothing is not retried at all, and a query of two words is
    retried with its first word only. *)
Lemma single_word_query_not_retried :
  let run q := Search.search_papers q 5 (Examples.world0 Examples.no_papers) in
  result_of (run "quantum") = Ok []
  /\ queries_sent (events_of (run "quantum")) = ["quantum"]
  /\ queries_sent (events_of (run "quantum computing"))
     = ["quantum computing"; "quantum"].
Proof. vm_compute. auto. Qed.

(** A query of four words that finds nothing until it is cut to two
    words: the papers of the second search are returned, and the first
    word is not sent. *)
Lemma second_query_ends_search :
  let found : nat -> event -> reply := fun _ e =>
    match e with
    | ArxivQuery "quantum error" _ =>
        Feed 200 (Some [Examples.paper "Quantum error correction"])
    | _ => Feed 200 (Some [])
    end in
  let run :=
    Search.search_papers "Quantum error correction codes" 5 (Examples.world0 found) in
  result_of run = Ok [Examples.paper "Quantum error correction"]
  /\ queries_sent (events_of run)
     = ["quantum error correction codes"; "quantum error"].
Proof. vm_compute. auto. Qed.

End Degradation.

(** ** Search: duplicate suppression *)

Section Dedup.

Import PyStr.

Lemma split_from_words cur s :
  split_from cur s = completed cur s ++ word_list (pending cur s).
Proof.
  revert cur. induction s as [|c s IH]; intros cur; simpl.
  - destruct cur; reflexivity.
  - destruct (isspace c).
    + destruct cur; rewrite IH; reflexivity.
    + apply IH.
Qed.

Lemma sapp_nil (s : string) : "" +:+ s = s.
Proof. reflexivity. Qed.

Lemma sapp_cons c (a b : string) : String c a +:+ b = String c (a +:+ b).
Proof. reflexivity. Qed.

Lemma sapp_nil_r (s : string) : s +:+ "" = s.
Proof. induction s as [|c s IH]; [reflexivity|]. rewrite sapp_cons, IH. reflexivity. Qed.

Lemma sapp_assoc (a b c : string) : (a +:+ b) +:+ c = a +:+ (b +:+ c).
Proof.
  induction a as [|x a IH]; [reflexivity|].
  rewrite !sapp_cons, IH. reflexivity.
Qed.

Lemma completed_app cur s p :
  all_chars (fun c => negb (isspace c)) p = true ->
  completed cur (s +:+ p) = completed cur s.
Proof.
  intros Hp. revert cur. induction s as [|c s IH]; intros cur.
  - rewrite sapp_nil. simpl.
    revert cur. induction p as [|c p IHp]; intros cur; simpl; [reflexivity|].
    simpl in Hp. apply andb_true_iff in Hp as [Hc Hp].
    apply negb_true_iff in Hc. rewrite Hc. apply IHp, Hp.
  - rewrite sapp_cons. simpl.
    destruct (isspace c); [destruct cur; rewrite IH; reflexivity | apply IH].
Qed.

Lemma pending_app cur s p :
  all_chars (fun c => negb (isspace c)) p = true ->
  pending cur (s +:+ p) = pending cur s +:+ p.
Proof.
  intros Hp. revert cur. induction s as [|c s IH]; intros cur.
  - rewrite sapp_nil. simpl.
    revert cur. induction p as [|c p IHp]; intros cur; simpl.
    + symmetry. apply sapp_nil_r.
    + simpl in Hp. apply andb_true_iff in Hp as [Hc Hp].
      apply negb_true_iff in Hc. rewrite Hc, IHp by exact Hp.
      apply sapp_assoc.
  - rewrite sapp_cons. simpl. destruct (isspace c); apply IH.
Qed.

Lemma lower_app a b : lower (a +:+ b) = lower a +:+ lower b.
Proof.
  induction a as [|x a IH]; [reflexivity|].
  rewrite sapp_cons. simpl. rewrite IH. reflexivity.
Qed.

Lemma isspace_lower_char c : isspace (lower_char c) = isspace c.
Proof. destruct c as [[] [] [] [] [] [] [] []]; reflexivity. Qed.

Lemma ispunct_lower_char c : ispunct c = true -> lower_char c = c.
Proof. destruct c as [[] [] [] [] [] [] [] []]; simpl; intros H; try reflexivity; discriminate H. Qed.

Lemma ispunct_not_space c : ispunct c = true -> isspace c = false.
Proof. destruct c as [[] [] [] [] [] [] [] []]; simpl; intros H; try reflexivity; discriminate H. Qed.

Lemma lower_punct p : all_chars ispunct p = true -> lower p = p.
Proof.
  induction p as [|c p IH]; simpl; [reflexivity|].
  intros H. apply andb_true_iff in H as [Hc Hp].
  rewrite ispunct_lower_char, IH by assumption. reflexivity.
Qed.

Lemma punct_no_space p :
  all_chars ispunct p = true -> all_chars (fun c => negb (isspace c)) p = true.
Proof.
  induction p as [|c p IH]; simpl; [reflexivity|].
  intros H. apply andb_true_iff in H as [Hc Hp].
  rewrite (ispunct_not_space _ Hc), IH by assumption. reflexivity.
Qed.

Lemma jaccard_threshold (k : nat) :
  Qltb 0.8 (inject_Z (Z.of_nat k) / inject_Z (Z.of_nat (k + 2))) = (9 <=? k)%nat.
Proof.
  assert (Hpos : (0 < inject_Z (Z.of_nat (k + 2)))%Q).
  { unfold Qlt; simpl. lia. }
  unfold Qltb. destruct (Nat.leb_spec 9 k) as [Hk|Hk].
  - apply negb_true_iff, not_true_iff_false. intros H.
    apply Qle_bool_iff in H.
    assert (Hlt : (0.8 < inject_Z (Z.of_nat k) / inject_Z (Z.of_nat (k + 2)))%Q).
    { apply Qlt_shift_div_l; [exact Hpos|]. unfold Qlt; simpl. lia. }
    exact (Qlt_not_le _ _ Hlt H).
  - apply negb_false_iff, Qle_bool_iff.
    apply Qle_shift_div_r; [exact Hpos|]. unfold Qle; simpl. lia.
Qed.

Lemma word_sets_sizes (ws : list string) (w w' : string) :
  w ∉ ws -> w' ∉ ws -> w ≠ w' ->
  size ((list_to_set (ws ++ [w']) : gset string) ∩ list_to_set (ws ++ [w]))
  = size (list_to_set ws : gset string)
  /\ size ((list_to_set (ws ++ [w']) : gset string) ∪ list_to_set (ws ++ [w]))
     = (size (list_to_set ws : gset string) + 2)%nat.
Proof.
  intros Hw Hw' Hne.
  rewrite !list_to_set_app_L. simpl.
  set (S := list_to_set ws : gset string).
  assert (HwS : w ∉ S) by (unfold S; rewrite elem_of_list_to_set; exact Hw).
  assert (Hw'S : w' ∉ S) by (unfold S; rewrite elem_of_list_to_set; exact Hw').
  split.
  - f_equal. set_solver.
  - replace ((S ∪ ({[w']} ∪ ∅)) ∪ (S ∪ ({[w]} ∪ ∅))) with (S ∪ ({[w']} ∪ {[w]}))
      by set_solver.
    rewrite size_union by set_solver.
    rewrite size_union by set_solver.
    rewrite !size_singleton. reflexivity.
Qed.

Lemma calculate_similarity_nonempty (text1 text2 : string) :
  text1 ≠ "" -> text2 ≠ "" ->
  Helpers.calculate_similarity text1 text2 =
    let words1 := Helpers.word_set text1 in
    let words2 := Helpers.word_set text2 in
    if decide (size (words1 ∪ words2) = 0%nat) then 0%Q
    else (inject_Z (Z.of_nat (size (words1 ∩ words2)))
          / inject_Z (Z.of_nat (size (words1 ∪ words2))))%Q.
Proof. destruct text1, text2; intros H1 H2; try congruence; reflexivity. Qed.

Lemma sapp_snoc_nonempty (s : string) c : s +:+ String c "" ≠ "".
Proof. destruct s; discriminate. Qed.

Lemma sapp_nonempty_l (a b : string) : a ≠ "" -> a +:+ b ≠ "".
Proof. destruct a; [congruence | discriminate]. Qed.

Lemma sapp_length (a b : string) :
  String.length (a +:+ b) = (String.length a + String.length b)%nat.
Proof.
  induction a as [|x a IH]; [reflexivity|].
  rewrite sapp_cons. simpl. rewrite IH. reflexivity.
Qed.

Lemma sapp_fixpoint (w p : string) : w +:+ p = w -> p = "".
Proof.
  intros H. apply (f_equal String.length) in H. rewrite sapp_length in H.
  destruct p; [reflexivity | simpl in H; lia].
Qed.

(** The words of a title that ends in a word, followed by punctuation. *)
Lemma split_trailing_punctuation (s p : string) (c : ascii) (ws : list string) (w : string) :
  isspace c = false -> p ≠ "" -> all_chars ispunct p = true ->
  split (lower (s +:+ String c "")) = ws ++ [w] ->
  split (lower ((s +:+ String c "") +:+ p)) = ws ++ [w +:+ p].
Proof.
  intros Hc Hp Hpunct Hsplit.
  unfold split in *. rewrite split_from_words in *.
  rewrite (lower_app (s +:+ String c "") p), (lower_punct p Hpunct).
  rewrite completed_app, pending_app by (apply punct_no_space, Hpunct).
  rewrite lower_app in Hsplit |- *. simpl lower in Hsplit |- *.
  assert (Hc' : all_chars (fun x => negb (isspace x)) (String (lower_char c) "") = true).
  { simpl. rewrite isspace_lower_char, Hc. reflexivity. }
  rewrite pending_app in Hsplit |- * by exact Hc'.
  assert (Hpw : pending "" (lower s) +:+ String (lower_char c) "" ≠ "")
    by apply sapp_snoc_nonempty.
  remember (pending "" (lower s) +:+ String (lower_char c) "") as pw eqn:Epw.
  clear Epw.
  assert (Hwl : word_list pw = [pw]) by (destruct pw; [congruence | reflexivity]).
  rewrite Hwl in Hsplit. apply app_inj_tail in Hsplit as [E1 E2].
  rewrite E1. subst pw.
  assert (Hwl' : word_list (w +:+ p) = [w +:+ p]).
  { pose proof (sapp_nonempty_l w p Hpw). destruct (w +:+ p); [congruence | reflexivity]. }
  rewrite Hwl'. reflexivity.
Qed.

End Dedup.

(** ** The PDF service *)

Section GrobidFacts.

Import Trace.

Variable _parse_tei_xml : list Byte.byte -> ExtractedContent.

Let Always : World -> Prop := fun _ => True.
Let Posts : list event -> Prop := Forall post_ok.

Lemma stable_Always : stable Always.
Proof. split; intros; exact I. Qed.

Lemma closed_Posts : closed Posts.
Proof. split; [constructor | intros; apply Forall_app; auto]. Qed.

Ltac post_leaf :=
  first [ eapply triple_ask;
          [ exact stable_Always | exact closed_Posts
          | constructor; [simpl; first [exact I | assumption] | constructor] ]
        | eapply triple_sleep;
          [ exact stable_Always | exact closed_Posts
          | constructor; [exact I | constructor] | exact I ] ].

Ltac post_step :=
  lazymatch goal with
  | |- triple _ _ (mret _) _ =>
      eapply triple_ret; [exact stable_Always | exact closed_Posts | exact I]
  | |- triple _ _ (raise _) _ =>
      eapply triple_raise; [exact stable_Always | exact closed_Posts]
  | |- triple _ _ (mbind _ _) _ =>
      eapply triple_bind with (Q1 := fun _ => True);
      [ exact stable_Always | exact closed_Posts | | intros ? _ ]
  | |- triple _ _ (catch _ _) _ =>
      eapply triple_catch; [ exact stable_Always | exact closed_Posts | | intros ? ]
  | |- triple _ _ (if ?b then _ else _) _ => destruct b
  | |- triple _ _ (match ?x with _ => _ end) _ => destruct x
  | |- triple _ _ (let '(_, _) := ?x in _) _ => destruct x
  end.

Ltac post_go known :=
  repeat first [ progress cbv zeta | post_leaf | known | post_step ].

Lemma posts_expect_response r :
  triple Always Posts (Grobid.expect_response r) (fun _ => True).
Proof. unfold Grobid.expect_response. post_go fail. Qed.

Lemma posts_try_direct_download url :
  triple Always Posts (Grobid._try_direct_download url) (fun _ => True).
Proof.
  unfold Grobid._try_direct_download. post_go ltac:(apply posts_expect_response).
Qed.

Lemma posts_try_with_user_agent url :
  triple Always Posts (Grobid._try_with_user_agent url) (fun _ => True).
Proof.
  unfold Grobid._try_with_user_agent. post_go ltac:(apply posts_expect_response).
Qed.

Lemma posts_try_urls urls :
  triple Always Posts (Grobid.try_urls urls) (fun _ => True).
Proof.
  induction urls as [|u rest IH]; simpl.
  - post_go fail.
  - post_go ltac:(first [apply posts_expect_response | apply IH]).
Qed.

Lemma posts_try_alternative_urls url :
  triple Always Posts (Grobid._try_alternative_urls url) (fun _ => True).
Proof.
  unfold Grobid._try_alternative_urls. post_go ltac:(apply posts_try_urls).
Qed.

Lemma posts_download_with attempts url :
  (forall f, In f attempts -> forall u, triple Always Posts (f u) (fun _ => True)) ->
  triple Always Posts (Grobid.download_with attempts url) (fun _ => True).
Proof.
  induction attempts as [|f rest IH]; intros Hall; simpl.
  - post_go fail.
  - post_go ltac:(first [ apply Hall; left; reflexivity
                        | apply IH; intros g Hg; apply Hall; right; exact Hg ]).
Qed.

Lemma posts_download_pdf url :
  triple Always Posts (Grobid._download_pdf url) (fun _ => True).
Proof.
  unfold Grobid._download_pdf. apply posts_download_with.
  intros f [<-|[<-|[<-|[]]]] u.
  - apply posts_try_direct_download.
  - apply posts_try_with_user_agent.
  - apply posts_try_alternative_urls.
Qed.

Lemma posts_extract_attempts remaining attempt max_attempts pdf_bytes :
  (1000 <= length pdf_bytes)%nat ->
  triple Always Posts
    (Grobid.extract_attempts _parse_tei_xml remaining attempt max_attempts pdf_bytes)
    (fun _ => True).
Proof.
  intros Hlen. revert attempt.
  induction remaining as [|r IH]; intros attempt; simpl.
  - post_go fail.
  - post_go ltac:(first [apply posts_expect_response | apply IH]).
Qed.

Lemma posts_extract_with_retry pdf_bytes max_attempts :
  triple Always Posts
    (Grobid._extract_with_retry _parse_tei_xml pdf_bytes max_attempts)
    (fun _ => True).
Proof.
  unfold Grobid._extract_with_retry.
  destruct (Nat.ltb_spec (length pdf_bytes) 1000) as [Hsmall|Hbig].
  - post_go fail.
  - apply posts_extract_attempts, Hbig.
Qed.

Lemma posts_extract_from_url url :
  triple Always Posts (Grobid.extract_from_url _parse_tei_xml url) (fun _ => True).
Proof.
  unfold Grobid.extract_from_url, Grobid.extract_from_bytes.
  eapply triple_retry_async;
    [ exact stable_Always | exact closed_Posts
    | constructor; [exact I | constructor] | ].
  post_go ltac:(first [apply posts_download_pdf | apply posts_extract_with_retry]).
Qed.

(** A coroutine whose handler returns a value returns from every
    world, also under [retry_async]. *)
Lemma total_catch_ret {A} (c : M A) (h : exn -> A) :
  total (catch c (fun e => mret (h e))).
Proof.
  intros w. unfold catch. destruct (c w) as [[[a|e] w1] t1]; simpl; eauto.
Qed.

Lemma total_retry_async {A} (c : M A) n delay :
  total c -> total (Retry.retry_async (S n) delay c).
Proof.
  intros Hc w. destruct (Hc w) as (a & w' & t & Hrun).
  unfold Retry.retry_async. simpl. unfold catch. rewrite Hrun. eauto.
Qed.

Lemma posts_Forall t :
  Forall post_ok t -> Forall (fun b => (1000 <= length b)%nat) (posts t).
Proof.
  induction 1 as [|e t He _ IH]; [constructor|].
  destruct e; simpl; try exact IH. constructor; assumption.
Qed.

(** C6.  A payload of fewer than 1000 bytes is answered with the
    failed extraction "PDF too small", with no event at all: the
    service is not invoked.  Whatever the network answers,
    [extract_from_url] returns an extraction, every payload it posts to
    the service has at least 1000 bytes, and the two direct download
    strategies turn a 200 answer of fewer than 1000 bytes into [None]. *)
Theorem small_pdf_never_posted :
  (forall pdf_bytes w,
     (length pdf_bytes < 1000)%nat ->
     Grobid.extract_from_bytes _parse_tei_xml pdf_bytes w
     = (Ok (failed_extraction
              ("PDF too small (" +:+ pretty (length pdf_bytes)
               +:+ " bytes) - likely invalid or error page")), w, []))
  /\ (forall url w,
        (exists content, result_of (Grobid.extract_from_url _parse_tei_xml url w)
                         = Ok content)
        /\ Forall (fun b => (1000 <= length b)%nat)
             (posts (events_of (Grobid.extract_from_url _parse_tei_xml url w))))
  /\ (forall url agent w content,
        oracle w (asked w) (HttpGet url agent) = Response 200 content ->
        (length content < 1000)%nat ->
        result_of ((if agent then Grobid._try_with_user_agent
                    else Grobid._try_direct_download) url w) = Ok None).
Proof.
  split; [|split].
  - intros pdf_bytes w Hsmall.
    unfold Grobid.extract_from_bytes, Grobid._extract_with_retry.
    apply Nat.ltb_lt in Hsmall. rewrite Hsmall. reflexivity.
  - intros url w. split.
    + destruct (total_retry_async
                  (catch
                     (pdf_content ← Grobid._download_pdf url;
                      match pdf_content with
                      | Some (b :: bs) =>
                          Grobid.extract_from_bytes _parse_tei_xml (b :: bs)
                      | _ => mret (failed_extraction "Failed to download PDF")
                      end)
                     (fun e => mret (failed_extraction (exn_msg e))))
                  2 2 (total_catch_ret _ _) w) as (c & w' & t & Hrun).
      exists c. unfold Grobid.extract_from_url. rewrite Hrun. reflexivity.
    + pose proof (posts_extract_from_url url w I) as H.
      destruct (Grobid.extract_from_url _parse_tei_xml url w) as [[[c|e] w'] t];
        apply posts_Forall; simpl; tauto.
  - intros url agent w content Hreply Hsmall.
    apply Nat.ltb_lt in Hsmall.
    destruct agent;
      unfold Grobid._try_with_user_agent, Grobid._try_direct_download,
        mbind, M_bind, ask, result_of; simpl; rewrite Hreply; simpl;
      rewrite Hsmall; reflexivity.
Qed.

(** C5, as the code has it. When the service answers 503 to every attempt,
    [_extract_with_retry] posts the payload three times, sleeps 5
    seconds after the first attempt and 10 seconds after the second,
    does not sleep after the third, and returns a failed extraction. *)
Theorem service_unavailable_three_attempts (pdf_bytes : list Byte.byte) (w : World) :
  (1000 <= length pdf_bytes)%nat ->
  (forall n, exists content, oracle w n (GrobidPost pdf_bytes) = Response 503 content) ->
  exists w',
    Grobid._extract_with_retry _parse_tei_xml pdf_bytes 3 w
    = (Ok (failed_extraction "GROBID extraction failed after all retry attempts"),
       w',
       [GrobidPost pdf_bytes; Sleep 5; GrobidPost pdf_bytes; Sleep 10;
        GrobidPost pdf_bytes]).
Proof.
  intros Hlen H503.
  unfold Grobid._extract_with_retry.
  apply Nat.ltb_ge in Hlen. rewrite Hlen.
  destruct (H503 (asked w)) as [c1 H1].
  destruct (H503 (S (asked w))) as [c2 H2].
  destruct (H503 (S (S (asked w)))) as [c3 H3].
  unfold Grobid.extract_attempts, catch, mbind, M_bind, ask, sleep; simpl.
  rewrite H1; simpl. rewrite H2; simpl. rewrite H3; simpl.
  eexists. reflexivity.
Qed.

End GrobidFacts.

(** C6 on a payload of 999 bytes, turned away before any request. *)
Lemma small_pdf_never_posted_witness :
  (length Examples.pdf999 < 1000)%nat
  /\ Grobid.extract_from_bytes Examples.no_tei Examples.pdf999
       (Examples.world0 Examples.always_503)
     = (Ok (failed_extraction
              "PDF too small (999 bytes) - likely invalid or error page"),
        Examples.world0 Examples.always_503, []).
Proof.
  assert (H : (length Examples.pdf999 < 1000)%nat) by (vm_compute; lia).
  split; [exact H|].
  exact (proj1 (small_pdf_never_posted Examples.no_tei) Examples.pdf999
           (Examples.world0 Examples.always_503) H).
Defined.

(** C5 on 1000 bytes against a service that always answers 503. *)
Lemma service_unavailable_three_attempts_witness :
  exists w',
    Grobid._extract_with_retry Examples.no_tei Examples.pdf1000 3
      (Examples.world0 Examples.always_503)
    = (Ok (failed_extraction "GROBID extraction failed after all retry attempts"),
       w',
       [GrobidPost Examples.pdf1000; Sleep 5; GrobidPost Examples.pdf1000;
        Sleep 10; GrobidPost Examples.pdf1000]).
Proof.
  apply (service_unavailable_three_attempts Examples.no_tei Examples.pdf1000
           (Examples.world0 Examples.always_503)).
  - vm_compute. lia.
  - intros n. exists []. reflexivity.
Defined.

(** C5 as the specification has it fails: against a service that
    always answers 503 the client posts three times and sleeps twice,
    5 and 10 seconds; no sleep of 20 seconds follows the third
    attempt. *)
Lemma no_sleep_after_third_attempt :
  let t := Trace.events_of
             (Grobid._extract_with_retry Examples.no_tei Examples.pdf1000 3
                (Examples.world0 Examples.always_503)) in
  length (Trace.posts t) = 3%nat
  /\ Trace.sleeps t = [5%Q; 10%Q]
  /\ ~ In (Sleep 20) t.
Proof.
  vm_compute. split; [reflexivity|]. split; [reflexivity|].
  intros H. repeat (destruct H as [H|H]; [discriminate H|]). exact H.
Qed.

(** ** The model client: guards *)

Section GuardFacts.

Import Trace.

Lemma events_bind {A B} (c : M A) (f : A -> M B) w :
  events_of ((c ≫= f) w) =
  events_of (c w)
  ++ match result_of (c w) with
     | Ok a => events_of (f a (world_of (c w)))
     | Raise _ => []
     end.
Proof.
  unfold mbind, M_bind, events_of, result_of, world_of.
  destruct (c w) as [[[a|e] w1] t1]; simpl.
  - destruct (f a w1) as [[r w2] t2]. reflexivity.
  - symmetry. apply app_nil_r.
Qed.

Lemma events_catch {A} (c : M A) (h : exn -> M A) w :
  events_of (catch c h w) =
  events_of (c w)
  ++ match result_of (c w) with
     | Ok _ => []
     | Raise e => events_of (h e (world_of (c w)))
     end.
Proof.
  unfold catch, events_of, result_of, world_of.
  destruct (c w) as [[[a|e] w1] t1]; simpl.
  - symmetry. apply app_nil_r.
  - destruct (h e w1) as [[r w2] t2]. reflexivity.
Qed.

(** The first attempt under [retry_async] is the last one when it
    returns. *)
Lemma retry_async_first {A} (c : M A) n delay w a w' t :
  c w = (Ok a, w', t) -> Retry.retry_async (S n) delay c w = (Ok a, w', t).
Proof.
  intros H. unfold Retry.retry_async. simpl. unfold catch. rewrite H. reflexivity.
Qed.

Lemma prompts_app t1 t2 : prompts (t1 ++ t2) = prompts t1 ++ prompts t2.
Proof. apply omap_app. Qed.

Lemma prompts_waiting t : Forall waiting t -> prompts t = [].
Proof.
  induction 1 as [|e t He _ IH]; [reflexivity|].
  destruct e; try contradiction; exact IH.
Qed.

Lemma guarded_mono b t : guarded false t = true -> guarded b t = true.
Proof.
  destruct b; [|auto]. destruct t as [|e t]; [reflexivity|].
  destruct e; simpl; try tauto. discriminate.
Qed.

Lemma guarded_app b t1 t2 :
  guarded b t1 = true -> guarded false t2 = true -> guarded b (t1 ++ t2) = true.
Proof.
  revert b. induction t1 as [|e t1 IH]; intros b H1 H2; simpl.
  - apply guarded_mono, H2.
  - destruct e; simpl in *; try (apply IH; assumption).
    + destruct limiter; apply IH; assumption.
    + apply andb_true_iff in H1 as [-> H1]. simpl. apply IH; assumption.
Qed.

Lemma guarded_waiting b t : Forall waiting t -> guarded b t = true.
Proof.
  intros H. revert b. induction H as [|e t He _ IH]; intros b; [reflexivity|].
  destruct e; try contradiction; simpl; [apply IH|].
  destruct limiter; apply IH.
Qed.

Lemma guarded_after_wait b t' p t2 :
  Forall waiting t' ->
  guarded b (t' ++ Acquire GeminiLimiter :: Generate p :: t2) = guarded false t2.
Proof.
  intros H. revert b. induction H as [|e t He _ IH]; intros b; [reflexivity|].
  destruct e; try contradiction; simpl; [apply IH|].
  destruct limiter; apply IH.
Qed.

Lemma closed_guarded : closed (fun t => guarded false t = true).
Proof. split; [reflexivity | intros; apply guarded_app; assumption]. Qed.

Lemma one_call_guarded p t : one_call p t -> guarded false t = true.
Proof.
  intros (t1 & Hw & [->|[[t' ->] ->]]).
  - apply guarded_waiting, Hw.
  - rewrite <- app_assoc. simpl.
    rewrite guarded_after_wait; [reflexivity|].
    apply Forall_app in Hw. tauto.
Qed.

Lemma one_call_prompts p t : one_call p t -> (length (prompts t) <= 1)%nat.
Proof.
  intros (t1 & Hw & [->|[_ ->]]).
  - rewrite (prompts_waiting _ Hw). simpl. lia.
  - rewrite prompts_app, (prompts_waiting _ Hw). simpl. lia.
Qed.

Lemma ask_text_events {X} p (rest : string -> M X) w :
  (forall s w0, events_of (rest s w0) = []) ->
  events_of ((text ← ask (Generate p) ≫= expect_text; rest text) w) = [Generate p].
Proof.
  intros Hrest. unfold mbind, M_bind, ask, events_of. simpl.
  destruct (oracle w (asked w) (Generate p)); simpl; try reflexivity.
  match goal with
  | |- context [rest ?s ?W] =>
      pose proof (Hrest s W) as H; destruct (rest s W) as [[[x|e] w2] t2]
  end; unfold events_of in H; simpl in *; subst; reflexivity.
Qed.

(** The shape shared by the three [try] blocks: a wait on the limiter
    of the model, the call, and a remainder without events. *)
Lemma guarded_try_events {X} p (rest : string -> M X) w :
  (forall s w0, events_of (rest s w0) = []) ->
  one_call p
    (events_of
       ((Limiter.wait_if_needed GeminiLimiter;;
         text ← ask (Generate p) ≫= expect_text;
         rest text) w)).
Proof.
  intros Hrest.
  destruct (wait_if_needed_spec GeminiLimiter w)
    as (r & c' & l' & t1 & Hrun & _ & _ & Ht1 & Hend & _).
  exists t1. split; [exact Ht1|].
  rewrite events_bind. rewrite Hrun. unfold result_of, world_of, events_of at 1.
  simpl fst. simpl snd.
  destruct r as [[]|e]; [|left; apply app_nil_r].
  right. split; [apply Hend; reflexivity|]. f_equal.
  apply ask_text_events, Hrest.
Qed.

Lemma calls_nil n : at_most_calls n [].
Proof. split; [reflexivity | simpl; lia]. Qed.

Lemma calls_mono n m t : (n <= m)%nat -> at_most_calls n t -> at_most_calls m t.
Proof. intros Hle [Hg Hp]. split; [exact Hg | lia]. Qed.

Lemma calls_app n m t1 t2 :
  at_most_calls n t1 -> at_most_calls m t2 -> at_most_calls (n + m) (t1 ++ t2).
Proof.
  intros [Hg1 Hp1] [Hg2 Hp2]. split.
  - apply guarded_app; assumption.
  - rewrite prompts_app, length_app. lia.
Qed.

Lemma calls_one_call p t : one_call p t -> at_most_calls 1 t.
Proof.
  intros H. split; [eapply one_call_guarded | eapply one_call_prompts]; exact H.
Qed.

Lemma calls_bind {A B} n m (c : M A) (f : A -> M B) w :
  at_most_calls n (events_of (c w)) ->
  (forall a w', at_most_calls m (events_of (f a w'))) ->
  at_most_calls (n + m) (events_of ((c ≫= f) w)).
Proof.
  intros Hc Hf. rewrite events_bind. apply calls_app; [exact Hc|].
  destruct (result_of (c w)); [apply Hf | apply calls_nil].
Qed.

Lemma calls_catch {A} n m (c : M A) (h : exn -> M A) w :
  at_most_calls n (events_of (c w)) ->
  (forall e w', at_most_calls m (events_of (h e w'))) ->
  at_most_calls (n + m) (events_of (catch c h w)).
Proof.
  intros Hc Hh. rewrite events_catch. apply calls_app; [exact Hc|].
  destruct (result_of (c w)); [apply calls_nil | apply Hh].
Qed.

Lemma calls_bind_none {A B} (c : M A) (f : A -> M B) w :
  at_most_calls 0 (events_of (c w)) ->
  (forall a w', at_most_calls 0 (events_of (f a w'))) ->
  at_most_calls 0 (events_of ((c ≫= f) w)).
Proof. apply (calls_bind 0 0). Qed.

Lemma calls_catch_none {A} (c : M A) (h : exn -> M A) w :
  at_most_calls 0 (events_of (c w)) ->
  (forall e w', at_most_calls 0 (events_of (h e w'))) ->
  at_most_calls 0 (events_of (catch c h w)).
Proof. apply (calls_catch 0 0). Qed.

Lemma events_record_success w : events_of (Gemini._record_success w) = [].
Proof.
  unfold Gemini._record_success, Gemini.update, mbind, M_bind, gets, modify. simpl.
  destruct (circuit_breaker_state (gemini w)); reflexivity.
Qed.

Lemma events_record_failure w :
  exists w', Gemini._record_failure w = (Ok tt, w', []).
Proof. eexists. reflexivity. Qed.

Lemma calls_exponential_backoff attempt base_delay w :
  at_most_calls 0 (events_of (Gemini._exponential_backoff attempt base_delay w)).
Proof.
  unfold Gemini._exponential_backoff.
  destruct (1024 <=? attempt)%Z; [apply calls_nil|].
  unfold Gemini.random_uniform, mbind, M_bind, ask, sleep.
  simpl. destruct (oracle w (asked w) RandomUniform); simpl; apply calls_nil || (split; simpl; [reflexivity|lia]).
Qed.

Section Parsers.

Variable parse_json_safely : string -> json -> json.
Variable InitialGap_of : list (string * json) -> option InitialGap.
Variable ValidationResult_of : list (string * json) -> option ValidationResult.

Lemma calls_initial_gaps_try paper content w :
  at_most_calls 1
    (events_of (Gemini.initial_gaps_try parse_json_safely InitialGap_of paper content w)).
Proof.
  apply calls_one_call with (p := PromptInitialGaps paper content).
  unfold Gemini.initial_gaps_try.
  destruct (Gemini._prepare_paper_context paper content) as [[]|e].
  - apply guarded_try_events. intros s w0. cbv zeta.
    destruct (Gemini.build_gaps _ _); [|reflexivity].
    rewrite events_bind, events_record_success.
    destruct (result_of _); reflexivity.
  - destruct (wait_if_needed_spec GeminiLimiter w)
      as (r & c' & l' & t1 & Hrun & _ & _ & Ht1 & _ & _).
    exists t1. split; [exact Ht1|]. left.
    rewrite events_bind, Hrun. unfold result_of, world_of, events_of. simpl.
    destruct r; apply app_nil_r.
Qed.

Lemma calls_initial_gaps_attempts remaining attempt max_attempts paper content w :
  at_most_calls remaining
    (events_of (Gemini.initial_gaps_attempts parse_json_safely InitialGap_of
                  remaining attempt max_attempts paper content w)).
Proof.
  revert attempt w. induction remaining as [|r IH]; intros attempt w.
  - apply calls_nil.
  - cbn [Gemini.initial_gaps_attempts].
    change (S r) with ((1 + 0) + r)%nat. apply calls_bind.
    + apply calls_catch.
      * replace 1%nat with (1 + 0)%nat by reflexivity.
        apply calls_bind; [apply calls_initial_gaps_try|].
        intros; apply calls_nil.
      * intros e w'. cbv zeta.
        change 0%nat with (0 + 0)%nat. apply calls_bind.
        -- destruct (events_record_failure w') as [w2 ->]. apply calls_nil.
        -- intros [] w2.
           destruct (Gemini.is_rate_limit_error _), (attempt <? max_attempts - 1)%Z;
             try apply calls_nil;
             (change 0%nat with (0 + 0)%nat; apply calls_bind;
              [apply calls_exponential_backoff | intros; apply calls_nil]).
    + intros [gaps|] w'; [apply calls_mono with 0%nat; [lia | apply calls_nil] | apply IH].
Qed.

Lemma calls_generate_initial_gaps paper content w :
  at_most_calls 3
    (events_of (Gemini.generate_initial_gaps parse_json_safely InitialGap_of
                  paper content w)).
Proof.
  unfold Gemini.generate_initial_gaps.
  change 3%nat with (0 + 3)%nat. apply calls_bind.
  - unfold Gemini._check_circuit_breaker, Gemini.update, mbind, M_bind, gets, modify.
    simpl. destruct (circuit_breaker_state (gemini w)); try apply calls_nil.
    destruct (circuit_breaker_last_failure (gemini w)); [|apply calls_nil].
    simpl. destruct (Qltb _ _); apply calls_nil.
  - intros [] w'; cbn [negb]; [apply calls_initial_gaps_attempts|].
    apply calls_mono with 0%nat; [lia | apply calls_nil].
Qed.

(** With the breaker open and its cooldown running, the check at the
    entry of [generate_initial_gaps] returns at once. *)
Lemma open_breaker_blocks paper content w t0 :
  circuit_breaker_state (gemini w) = OPEN ->
  circuit_breaker_last_failure (gemini w) = Some t0 ->
  (clock w - t0 <= circuit_breaker_timeout (gemini w))%Q ->
  Gemini.generate_initial_gaps parse_json_safely InitialGap_of paper content w
  = (Ok [], w, []).
Proof.
  intros Hstate Hlast Hcool.
  unfold Gemini.generate_initial_gaps, Gemini._check_circuit_breaker,
    mbind, M_bind, gets.
  simpl. rewrite Hstate. simpl. rewrite Hlast.
  apply Qltb_false in Hcool. rewrite Hcool. reflexivity.
Qed.

(** The handlers of [validate_gap] and [expand_gap_details] return:
    the decorator never sees an exception, and runs them once. *)
Lemma validate_gap_undecorated_cases gap papers w :
  match Gemini.validate_gap_try parse_json_safely ValidationResult_of gap papers w with
  | (Ok v, w1, t1) =>
      Gemini.validate_gap_undecorated parse_json_safely ValidationResult_of
        gap papers w = (Ok v, w1, t1)
  | (Raise e, w1, t1) =>
      exists why w2 t2,
        Gemini.validate_gap_undecorated parse_json_safely ValidationResult_of
          gap papers w = (Ok (Gemini.assumed_valid why), w2, t1 ++ t2)
        /\ at_most_calls 0 t2
  end.
Proof.
  unfold Gemini.validate_gap_undecorated, catch.
  destruct (Gemini.validate_gap_try _ _ _ _ w) as [[[v|e] w1] t1]; [reflexivity|].
  cbv zeta. destruct (Gemini.is_rate_limit_error _).
  - do 3 eexists. split; [reflexivity|]. split; simpl; [reflexivity|lia].
  - do 3 eexists. split; [reflexivity|]. apply calls_nil.
Qed.

Lemma validate_gap_once gap papers w :
  Gemini.validate_gap parse_json_safely ValidationResult_of gap papers w
  = Gemini.validate_gap_undecorated parse_json_safely ValidationResult_of gap papers w.
Proof.
  unfold Gemini.validate_gap.
  pose proof (validate_gap_undecorated_cases gap papers w) as H.
  destruct (Gemini.validate_gap_try _ _ _ _ w) as [[[v|e] w1] t1].
  - rewrite H. apply retry_async_first, H.
  - destruct H as (why & w2 & t2 & H & _). rewrite H. apply retry_async_first, H.
Qed.

Lemma calls_validate_gap_try gap papers w :
  at_most_calls 1
    (events_of (Gemini.validate_gap_try parse_json_safely ValidationResult_of
                  gap papers w)).
Proof.
  apply calls_one_call with (p := PromptValidate gap papers).
  apply guarded_try_events. intros s w0. cbv zeta.
  destruct (parse_json_safely _ _); try reflexivity.
  destruct (ValidationResult_of _); reflexivity.
Qed.

Lemma calls_validate_gap gap papers w :
  at_most_calls 1
    (events_of (Gemini.validate_gap parse_json_safely ValidationResult_of
                  gap papers w)).
Proof.
  rewrite validate_gap_once.
  pose proof (validate_gap_undecorated_cases gap papers w) as H.
  pose proof (calls_validate_gap_try gap papers w) as Ht.
  destruct (Gemini.validate_gap_try _ _ _ _ w) as [[[v|e] w1] t1].
  - rewrite H. exact Ht.
  - destruct H as (why & w2 & t2 & -> & H2).
    change 1%nat with (1 + 0)%nat. apply calls_app; assumption.
Qed.

Lemma expand_gap_details_undecorated_cases gap validation w :
  match Gemini.expand_gap_details_try parse_json_safely gap validation w with
  | (Ok d, w1, t1) =>
      Gemini.expand_gap_details_undecorated parse_json_safely gap validation w
      = (Ok d, w1, t1)
  | (Raise e, w1, t1) =>
      exists w2 t2,
        Gemini.expand_gap_details_undecorated parse_json_safely gap validation w
        = (Ok Gemini.degraded_details, w2, t1 ++ t2)
        /\ at_most_calls 0 t2
  end.
Proof.
  unfold Gemini.expand_gap_details_undecorated, catch.
  destruct (Gemini.expand_gap_details_try _ _ _ w) as [[[v|e] w1] t1]; [reflexivity|].
  cbv zeta. destruct (Gemini.is_rate_limit_error _).
  - do 2 eexists. split; [reflexivity|]. split; simpl; [reflexivity|lia].
  - do 2 eexists. split; [reflexivity|]. apply calls_nil.
Qed.

Lemma expand_gap_details_once gap validation w :
  Gemini.expand_gap_details parse_json_safely gap validation w
  = Gemini.expand_gap_details_undecorated parse_json_safely gap validation w.
Proof.
  unfold Gemini.expand_gap_details.
  pose proof (expand_gap_details_undecorated_cases gap validation w) as H.
  destruct (Gemini.expand_gap_details_try _ _ _ w) as [[[v|e] w1] t1].
  - rewrite H. apply retry_async_first, H.
  - destruct H as (w2 & t2 & H & _). rewrite H. apply retry_async_first, H.
Qed.

Lemma calls_expand_gap_details_try gap validation w :
  at_most_calls 1
    (events_of (Gemini.expand_gap_details_try parse_json_safely gap validation w)).
Proof.
  apply calls_one_call with (p := PromptExpand gap validation).
  apply guarded_try_events. intros s w0. cbv zeta.
  destruct (parse_json_safely _ _); try reflexivity.
  destruct (dict_get _ _) as [[]|]; reflexivity.
Qed.

Lemma calls_expand_gap_details gap validation w :
  at_most_calls 1
    (events_of (Gemini.expand_gap_details parse_json_safely gap validation w)).
Proof.
  rewrite expand_gap_details_once.
  pose proof (expand_gap_details_undecorated_cases gap validation w) as H.
  pose proof (calls_expand_gap_details_try gap validation w) as Ht.
  destruct (Gemini.expand_gap_details_try _ _ _ w) as [[[v|e] w1] t1].
  - rewrite H. exact Ht.
  - destruct H as (w2 & t2 & -> & H2).
    change 1%nat with (1 + 0)%nat. apply calls_app; assumption.
Qed.

(** [generate_search_query] is one call of the model and nothing
    else. *)
Lemma generate_search_query_run gap w :
  exists query,
    Gemini.generate_search_query gap w
    = (Ok query, set_asked (S (asked w)) w, [Generate (PromptSearchQuery gap)]).
Proof.
  unfold Gemini.generate_search_query, catch, mbind, M_bind, ask, expect_text.
  simpl. destruct (oracle w (asked w) (Generate (PromptSearchQuery gap)));
    simpl; eexists; reflexivity.
Qed.

(** C7, as the code has it: the rate limiter of the model guards the
    calls of [generate_initial_gaps], [validate_gap] and
    [expand_gap_details]; the circuit breaker is consulted by
    [generate_initial_gaps] alone, once, on entry, where an open
    breaker whose cooldown has not elapsed returns the empty list with
    no event; [generate_initial_gaps] calls the model up to three times,
    [validate_gap] and [expand_gap_details] once, their decorator
    running the coroutine a single time; and [generate_search_query]
    calls the model once from every world, with no limiter, breaker or
    retry. *)
Theorem model_guards_as_coded (w : World) :
  (forall paper content t0,
     circuit_breaker_state (gemini w) = OPEN ->
     circuit_breaker_last_failure (gemini w) = Some t0 ->
     (clock w - t0 <= circuit_breaker_timeout (gemini w))%Q ->
     Gemini.generate_initial_gaps parse_json_safely InitialGap_of paper content w
     = (Ok [], w, []))
  /\ (forall paper content,
        at_most_calls 3
          (events_of (Gemini.generate_initial_gaps parse_json_safely InitialGap_of
                        paper content w)))
  /\ (forall gap papers,
        Gemini.validate_gap parse_json_safely ValidationResult_of gap papers w
        = Gemini.validate_gap_undecorated parse_json_safely ValidationResult_of
            gap papers w
        /\ at_most_calls 1
             (events_of (Gemini.validate_gap parse_json_safely ValidationResult_of
                           gap papers w)))
  /\ (forall gap validation,
        Gemini.expand_gap_details parse_json_safely gap validation w
        = Gemini.expand_gap_details_undecorated parse_json_safely gap validation w
        /\ at_most_calls 1
             (events_of (Gemini.expand_gap_details parse_json_safely
                           gap validation w)))
  /\ (forall gap,
        exists query,
          Gemini.generate_search_query gap w
          = (Ok query, set_asked (S (asked w)) w,
             [Generate (PromptSearchQuery gap)])).
Proof.
  split; [|split; [|split; [|split]]].
  - intros paper content t0. apply open_breaker_blocks.
  - intros. apply calls_generate_initial_gaps.
  - intros. split; [apply validate_gap_once | apply calls_validate_gap].
  - intros. split; [apply expand_gap_details_once | apply calls_expand_gap_details].
  - intros gap. apply generate_search_query_run.
Qed.

End Parsers.

End GuardFacts.

(** C7 on a breaker that has just opened: [generate_initial_gaps]
    returns at once. *)
Lemma model_guards_as_coded_witness :
  Gemini.generate_initial_gaps Examples.parse_default Examples.no_InitialGap
    JNull JNull (Examples.world_open (Examples.model_says "[]"))
  = (Ok [], Examples.world_open (Examples.model_says "[]"), []).
Proof.
  apply (proj1 (model_guards_as_coded Examples.parse_default Examples.no_InitialGap
                  Examples.no_ValidationResult
                  (Examples.world_open (Examples.model_says "[]")))
               JNull JNull 0%Q).
  - reflexivity.
  - reflexivity.
  - vm_compute. discriminate.
Defined.

(** C7 as the specification has it fails: with the breaker open and
    its cooldown running ([_check_circuit_breaker] answers [False]),
    [generate_search_query], [validate_gap] and [expand_gap_details]
    still call the model. *)
Lemma open_breaker_still_calls_model :
  let w := Examples.world_open (Examples.model_says "graph transformers") in
  Gemini._check_circuit_breaker w = (Ok false, w, [])
  /\ Trace.events_of (Gemini.generate_search_query Examples.a_gap w)
     = [Generate (PromptSearchQuery Examples.a_gap)]
  /\ Trace.prompts
       (Trace.events_of
          (Gemini.validate_gap Examples.parse_default Examples.no_ValidationResult
             Examples.a_gap [] w))
     = [PromptValidate Examples.a_gap []]
  /\ Trace.prompts
       (Trace.events_of
          (Gemini.expand_gap_details Examples.parse_default Examples.a_gap
             (Gemini.assumed_valid "x") w))
     = [PromptExpand Examples.a_gap (Gemini.assumed_valid "x")].
Proof. vm_compute. repeat split. Qed.

(** ** Validation under errors *)

Section ValidationFacts.

Import Trace.

Variable parse_json_safely : string -> json -> json.
Variable ValidationResult_of : list (string * json) -> option ValidationResult.

(** A result of the model's own: the answer parsed to a dict from
    which the [ValidationResult] was built. *)
Let answered (v : ValidationResult) : Prop :=
  exists text fields,
    parse_json_safely text (JObj []) = JObj fields
    /\ ValidationResult_of fields = Some v.

Lemma validate_gap_try_returns gap papers w v w1 t1 :
  Gemini.validate_gap_try parse_json_safely ValidationResult_of gap papers w
  = (Ok v, w1, t1) ->
  answered v.
Proof.
  unfold Gemini.validate_gap_try. intros H.
  apply bind_returns in H as (u & w2 & t2 & t3 & _ & H & _).
  apply bind_returns in H as (text & w3 & t4 & t5 & _ & H & _).
  cbv zeta in H.
  destruct (parse_json_safely text (JObj [])) as [| | | | |fields] eqn:Eparse;
    try discriminate.
  destruct (ValidationResult_of fields) as [v'|] eqn:Ebuild; [|discriminate].
  inversion H; subst. exists text, fields. auto.
Qed.

Lemma validate_gap_returns gap papers w :
  exists v w' t,
    Gemini.validate_gap parse_json_safely ValidationResult_of gap papers w
    = (Ok v, w', t)
    /\ ((exists why, v = Gemini.assumed_valid why) \/ answered v).
Proof.
  rewrite validate_gap_once.
  pose proof (validate_gap_undecorated_cases parse_json_safely ValidationResult_of
                gap papers w) as H.
  destruct (Gemini.validate_gap_try _ _ _ _ w) as [[[v|e] w1] t1] eqn:Etry.
  - exists v, w1, t1. split; [exact H|]. right.
    eapply validate_gap_try_returns, Etry.
  - destruct H as (why & w2 & t2 & H & _). do 3 eexists. split; [exact H|].
    left. exists why. reflexivity.
Qed.

Lemma pipeline_validate_gap_try_returns gap w v w1 t1 :
  Pipeline._validate_gap_try parse_json_safely ValidationResult_of gap w
  = (Ok v, w1, t1) ->
  is_valid v = true \/ answered v.
Proof.
  unfold Pipeline._validate_gap_try. intros H.
  apply bind_returns in H as (q & w2 & t2 & t3 & _ & H & _).
  apply bind_returns in H as (n & w3 & t4 & t5 & _ & H & _).
  apply bind_returns in H as (related & w4 & t6 & t7 & _ & H & _).
  destruct related as [|r related].
  - inversion H; subst. left. reflexivity.
  - apply bind_returns in H as (contents & w5 & t8 & t9 & _ & H & _).
    destruct (validate_gap_returns gap contents w5)
      as (v' & w' & t' & Hrun & [[why ->]|Hans]);
      rewrite Hrun in H; inversion H; subst; [left; reflexivity | right; exact Hans].
Qed.

(** C2: an error raised while a gap is validated never marks it
    invalid. When the [try] block of [validate_gap] raises, whatever
    the error (rate limiting included), [validate_gap] returns a
    result with [is_valid = True] and [confidence = 0.3]; when the
    [try] block of [_validate_gap] raises, [_validate_gap] returns a
    result with [is_valid = True] and [confidence = 0.3]; and
    [_validate_gap] returns from every world, with [is_valid = False]
    only in a result built from the answer of the model. *)
Theorem validation_errors_assume_valid (gap : InitialGap) (w : World) :
  (forall papers e w1 t1,
     Gemini.validate_gap_try parse_json_safely ValidationResult_of gap papers w
     = (Raise e, w1, t1) ->
     exists v w2 t2,
       Gemini.validate_gap parse_json_safely ValidationResult_of gap papers w
       = (Ok v, w2, t2)
       /\ is_valid v = true /\ confidence v = 0.3%Q)
  /\ (forall e w1 t1,
        Pipeline._validate_gap_try parse_json_safely ValidationResult_of gap w
        = (Raise e, w1, t1) ->
        exists v,
          Pipeline._validate_gap parse_json_safely ValidationResult_of gap w
          = (Ok v, w1, t1)
          /\ is_valid v = true /\ confidence v = 0.3%Q)
  /\ (exists v w' t,
        Pipeline._validate_gap parse_json_safely ValidationResult_of gap w
        = (Ok v, w', t)
        /\ (is_valid v = false ->
            exists text fields,
              parse_json_safely text (JObj []) = JObj fields
              /\ ValidationResult_of fields = Some v)).
Proof.
  split; [|split].
  - intros papers e w1 t1 Htry. rewrite validate_gap_once.
    pose proof (validate_gap_undecorated_cases parse_json_safely ValidationResult_of
                  gap papers w) as H.
    rewrite Htry in H. destruct H as (why & w2 & t2 & H & _).
    exists (Gemini.assumed_valid why), w2, (t1 ++ t2). auto.
  - intros e w1 t1 Htry. exists Pipeline.validation_error_result.
    unfold Pipeline._validate_gap, catch. rewrite Htry. simpl.
    rewrite app_nil_r. auto.
  - unfold Pipeline._validate_gap, catch.
    destruct (Pipeline._validate_gap_try _ _ _ w) as [[[v|e] w1] t1] eqn:Etry.
    + exists v, w1, t1. split; [reflexivity|]. intros Hinvalid.
      destruct (pipeline_validate_gap_try_returns _ _ _ _ _ Etry) as [Hv|Hans];
        [congruence | exact Hans].
    + do 3 eexists. split; [reflexivity|]. discriminate.
Qed.

End ValidationFacts.

(** C2 on a model whose answer is not JSON, and on a deployment where
    the extraction of the related papers fails. *)
Lemma validation_errors_assume_valid_witness :
  (exists v w2 t2,
     Gemini.validate_gap Examples.parse_default Examples.no_ValidationResult
       Examples.a_gap [] (Examples.world0 (Examples.model_says "not json"))
     = (Ok v, w2, t2)
     /\ is_valid v = true /\ confidence v = 0.3%Q)
  /\ (exists v w1 t1,
        Pipeline._validate_gap Examples.parse_default Examples.no_ValidationResult
          Examples.a_gap (Examples.world0 Examples.extraction_down)
        = (Ok v, w1, t1)
        /\ is_valid v = true /\ confidence v = 0.3%Q).
Proof.
  split.
  - eapply (proj1 (validation_errors_assume_valid Examples.parse_default
                     Examples.no_ValidationResult Examples.a_gap
                     (Examples.world0 (Examples.model_says "not json")))
                  [] _ _ _).
    vm_compute. reflexivity.
  - destruct (proj1 (proj2 (validation_errors_assume_valid Examples.parse_default
                              Examples.no_ValidationResult Examples.a_gap
                              (Examples.world0 Examples.extraction_down)))
                    _ _ _ ltac:(vm_compute; reflexivity)) as (v & Hrun & Hv).
    eexists v, _, _. split; [exact Hrun | exact Hv].
Defined.

(** ** The table of analyses *)

Section StoreFacts.

Import Trace.

Lemma collision_correlation row others :
  Store.collision "correlation_id" row others
  = if existsb (fun r => String.eqb (ga_request_id r) (ga_request_id row)) others
    then Some "request_id" else None.
Proof.
  unfold Store.collision, Store.unique_columns. cbn.
  destruct (existsb _ others); reflexivity.
Qed.

Lemma NoDup_map_In {A K} (f : A -> K) l x y :
  NoDup (map f l) -> In x l -> In y l -> f x = f y -> x = y.
Proof.
  induction l as [|a l IH]; intros Hnd Hx Hy Hf; [contradiction|].
  inversion Hnd as [|? ? Hnotin Hnd']; subst. rewrite list_elem_of_In in Hnotin.
  destruct Hx as [->|Hx], Hy as [->|Hy]; auto.
  - exfalso. apply Hnotin. rewrite Hf. apply in_map, Hy.
  - exfalso. apply Hnotin. rewrite <- Hf. apply in_map, Hx.
Qed.

Lemma NoDup_map_snoc {A K} (f : A -> K) l x :
  NoDup (map f l) -> (forall r, In r l -> f r <> f x) -> NoDup (map f (l ++ [x])).
Proof.
  induction l as [|a l IH]; intros Hnd Hfresh; simpl.
  - constructor; [rewrite list_elem_of_In; intros []|constructor].
  - inversion Hnd as [|? ? Hnotin Hnd']; subst. rewrite list_elem_of_In in Hnotin.
    constructor.
    + rewrite list_elem_of_In, map_app, in_app_iff. intros [Hin|[Hin|[]]]; [auto|].
      apply (Hfresh a); [left; reflexivity | symmetry; exact Hin].
    + apply IH; [exact Hnd'|]. intros r Hr. apply Hfresh. right. exact Hr.
Qed.

(** Replacing the one element that satisfies [p] by [u] keeps the
    values of [f] distinct when [f u] is the value of no other
    element. *)
Lemma NoDup_map_update {A K} (f : A -> K) (p : A -> bool) (u : A) l :
  NoDup (map f l) ->
  (forall x y, In x l -> In y l -> p x = true -> p y = true -> f x = f y) ->
  (forall r, In r l -> p r = false -> f r <> f u) ->
  NoDup (map f (map (fun r => if p r then u else r) l)).
Proof.
  induction l as [|a l IH]; intros Hnd Hone Hfresh; simpl; [constructor|].
  inversion Hnd as [|? ? Hnotin Hnd']; subst. rewrite list_elem_of_In in Hnotin.
  assert (Htail : NoDup (map f (map (fun r => if p r then u else r) l))).
  { apply IH; [exact Hnd'| |].
    - intros x y Hx Hy. apply Hone; right; assumption.
    - intros r Hr. apply Hfresh. right. exact Hr. }
  constructor; [|exact Htail].
  rewrite list_elem_of_In, map_map, in_map_iff. intros (r & Heq & Hr).
  destruct (p a) eqn:Ea, (p r) eqn:Er.
  - apply Hnotin. rewrite (Hone a r); [apply in_map, Hr | left; reflexivity
      | right; exact Hr | exact Ea | exact Er].
  - apply (Hfresh r); [right; exact Hr | exact Er | exact Heq].
  - apply (Hfresh a); [left; reflexivity | exact Ea | symmetry; exact Heq].
  - apply Hnotin. rewrite <- Heq. apply in_map, Hr.
Qed.

Lemma existsb_false {A} (f : A -> bool) l :
  existsb f l = false -> forall x, In x l -> f x = false.
Proof.
  intros H x Hx. destruct (f x) eqn:E; [|reflexivity].
  rewrite <- H. symmetry. apply existsb_exists. exists x. auto.
Qed.

(** The table after an upsert that went through. *)
Lemma upsert_well_keyed values now rows id rows' :
  well_keyed rows ->
  Store.upsert values now rows = Ok (id, rows') ->
  well_keyed rows'.
Proof.
  intros (Hid & Hcorr & Hreq). unfold Store.upsert.
  destruct (find _ rows) as [existing|] eqn:Efind.
  - apply find_some in Efind as [Hin Hc]. apply String.eqb_eq in Hc.
    cbv zeta. rewrite collision_correlation.
    destruct (existsb _ _) eqn:Ecol; [discriminate|].
    intros H; inversion H; subst; clear H.
    pose proof (existsb_false _ _ Ecol) as Hothers.
    assert (Hsame : forall r, In r rows -> (ga_id r =? ga_id existing)%N = true ->
                              r = existing).
    { intros r Hr E. apply N.eqb_eq in E.
      eapply (NoDup_map_In ga_id); eauto. }
    split; [|split].
    + rewrite map_map. erewrite map_ext_in; [exact Hid|].
      intros r Hr. simpl. destruct (ga_id r =? ga_id existing)%N eqn:E; [|reflexivity].
      simpl. symmetry. apply N.eqb_eq, E.
    + rewrite map_map. erewrite map_ext_in; [exact Hcorr|].
      intros r Hr. simpl. destruct (ga_id r =? ga_id existing)%N eqn:E; [|reflexivity].
      simpl. rewrite (Hsame r Hr E). reflexivity.
    + apply NoDup_map_update; [exact Hreq| |].
      * intros x y Hx Hy Ex Ey. rewrite (Hsame x Hx Ex), (Hsame y Hy Ey). reflexivity.
      * intros r Hr E. simpl. intros Heq.
        assert (Hf : In r (List.filter (fun r => negb (ga_id r =? ga_id existing)%N) rows)).
        { apply filter_In. split; [exact Hr|]. rewrite E. reflexivity. }
        specialize (Hothers r Hf). simpl in Hothers.
        apply String.eqb_neq in Hothers. contradiction.
  - destruct (existsb _ rows) eqn:Epk; [discriminate|].
    rewrite collision_correlation.
    destruct (existsb _ rows) eqn:Ecol in |- *; [discriminate|].
    intros H; inversion H; subst; clear H.
    pose proof (existsb_false _ _ Epk) as Hpk.
    pose proof (existsb_false _ _ Ecol) as Hrq.
    pose proof (find_none _ _ Efind) as Hco.
    split; [|split]; apply NoDup_map_snoc; try assumption; intros r Hr.
    + specialize (Hpk r Hr). apply N.eqb_neq in Hpk. exact Hpk.
    + specialize (Hco r Hr). apply String.eqb_neq in Hco. exact Hco.
    + specialize (Hrq r Hr). apply String.eqb_neq in Hrq. exact Hrq.
Qed.

(** C8, as the code has it: on a table whose keys are distinct, the
    upsert of values whose correlation id is that of a stored row never
    adds a row. Either it raises the violation of the unique constraint
    on [request_id] (another row holds the request id of the values),
    or it returns the id of the stored row and a table of the same
    length, with distinct keys, where that row alone carries the
    correlation id: it keeps its id and its counters, has status
    [PROCESSING] and no error message, and every other row is as it
    was. *)
Theorem resubmission_reuses_row (values : GapAnalysis) (now : Q)
    (rows : list GapAnalysis) (existing : GapAnalysis) :
  well_keyed rows ->
  In existing rows ->
  ga_correlation_id existing = ga_correlation_id values ->
  let updated := Store.on_conflict_set values now existing in
  match Store.upsert values now rows with
  | Raise e =>
      e = Store.unique_violation "request_id_key"
      /\ exists r, In r rows /\ r <> existing
                   /\ ga_request_id r = ga_request_id values
  | Ok (id, rows') =>
      id = ga_id existing
      /\ length rows' = length rows
      /\ well_keyed rows'
      /\ In updated rows'
      /\ (forall r, In r rows' ->
            ga_correlation_id r = ga_correlation_id values -> r = updated)
      /\ (forall r, In r rows -> r <> existing -> In r rows')
      /\ ga_id updated = ga_id existing
      /\ ga_status updated = PROCESSING
      /\ ga_error_message updated = None
      /\ total_gaps_identified updated = total_gaps_identified existing
      /\ valid_gaps_count updated = valid_gaps_count existing
  end.
Proof.
  intros Hkeys Hin Hcorr updated.
  pose proof Hkeys as (Hid & Hco & Hreq).
  destruct (Store.upsert values now rows) as [[id rows']|e] eqn:Eup.
  - pose proof (upsert_well_keyed _ _ _ _ _ Hkeys Eup) as Hkeys'.
    revert Eup. unfold Store.upsert.
    destruct (find _ rows) as [found|] eqn:Efind.
    + apply find_some in Efind as [Hfound Hc]. apply String.eqb_eq in Hc.
      assert (found = existing) as ->.
      { eapply (NoDup_map_In ga_correlation_id); eauto. congruence. }
      cbv zeta. rewrite collision_correlation.
      destruct (existsb _ _); [discriminate|].
      intros H; inversion H; subst; clear H. fold updated in Hkeys' |- *.
      assert (Hupd : In updated
                (map (fun r => if (ga_id r =? ga_id existing)%N then updated else r)
                   rows)).
      { apply in_map_iff. exists existing. rewrite N.eqb_refl. auto. }
      split; [reflexivity|]. split; [apply length_map|]. split; [exact Hkeys'|].
      split; [exact Hupd|]. split; [|split].
      * intros r Hr Hrc. destruct Hkeys' as (_ & Hco' & _).
        eapply (NoDup_map_In ga_correlation_id); eauto.
        simpl. congruence.
      * intros r Hr Hne. apply in_map_iff. exists r. split; [|exact Hr].
        destruct (ga_id r =? ga_id existing)%N eqn:E; [|reflexivity].
        exfalso. apply Hne. apply N.eqb_eq in E.
        eapply (NoDup_map_In ga_id); eauto.
      * repeat split; reflexivity.
    + exfalso. pose proof (find_none _ _ Efind existing Hin) as Hc.
      simpl in Hc. apply String.eqb_neq in Hc. contradiction.
  - revert Eup. unfold Store.upsert.
    destruct (find _ rows) as [found|] eqn:Efind.
    + apply find_some in Efind as [Hfound Hc]. apply String.eqb_eq in Hc.
      assert (found = existing) as ->.
      { eapply (NoDup_map_In ga_correlation_id); eauto. congruence. }
      cbv zeta. rewrite collision_correlation.
      destruct (existsb _ _) eqn:Ecol; [|discriminate].
      intros H; inversion H; subst; clear H. split; [reflexivity|].
      apply existsb_exists in Ecol as (r & Hr & Heq).
      apply filter_In in Hr as [Hr Hne]. apply String.eqb_eq in Heq.
      exists r. split; [exact Hr|]. split; [|exact Heq].
      intros ->. rewrite N.eqb_refl in Hne. discriminate.
    + exfalso. pose proof (find_none _ _ Efind existing Hin) as Hc.
      simpl in Hc. apply String.eqb_neq in Hc. contradiction.
Qed.

End StoreFacts.

(** C8 on the re-submission of an analysis that failed. *)
Lemma resubmission_reuses_row_witness :
  let updated := Store.on_conflict_set Examples.resubmitted 9 Examples.stored_row in
  match Store.upsert Examples.resubmitted 9 [Examples.stored_row] with
  | Raise e =>
      e = Store.unique_violation "request_id_key"
      /\ exists r, In r [Examples.stored_row] /\ r <> Examples.stored_row
                   /\ ga_request_id r = ga_request_id Examples.resubmitted
  | Ok (id, rows') =>
      id = ga_id Examples.stored_row
      /\ length rows' = length [Examples.stored_row]
      /\ Trace.well_keyed rows'
      /\ In updated rows'
      /\ (forall r, In r rows' ->
            ga_correlation_id r = ga_correlation_id Examples.resubmitted ->
            r = updated)
      /\ (forall r, In r [Examples.stored_row] -> r <> Examples.stored_row ->
            In r rows')
      /\ ga_id updated = ga_id Examples.stored_row
      /\ ga_status updated = PROCESSING
      /\ ga_error_message updated = None
      /\ total_gaps_identified updated = total_gaps_identified Examples.stored_row
      /\ valid_gaps_count updated = valid_gaps_count Examples.stored_row
  end.
Proof.
  apply (resubmission_reuses_row Examples.resubmitted 9 [Examples.stored_row]
           Examples.stored_row).
  - repeat split; apply NoDup_singleton.
  - left. reflexivity.
  - reflexivity.
Defined.

(** C8 as the specification has it fails: [request_id] is under a
    unique constraint as well, and a submission with a new correlation
    id and the request id of a stored analysis is refused. *)
Lemma request_id_is_unique_too :
  Store.unique_columns = ["correlation_id"; "request_id"]
  /\ Trace.well_keyed [Examples.stored_row]
  /\ Store.upsert Examples.other_submission 9 [Examples.stored_row]
     = Raise (Store.unique_violation "request_id_key").
Proof.
  split; [reflexivity|]. split; [|reflexivity].
  repeat split; apply NoDup_singleton.
Qed.

(** ** The pipeline: what a completed analysis reports *)

Section Returns.

Context {A : Type}.

(** A [try] that returns did so in its body or in its handler. *)
Lemma catch_returns (c : M A) (h : exn -> M A) w a w' t :
  catch c h w = (Ok a, w', t) ->
  c w = (Ok a, w', t)
  \/ exists e w1 t1 t2,
       c w = (Raise e, w1, t1) /\ h e w1 = (Ok a, w', t2) /\ t = t1 ++ t2.
Proof.
  unfold catch. destruct (c w) as [[[a'|e] w1] t1]; [auto|].
  destruct (h e w1) as [[r w2] t2] eqn:Eh. intros H; inversion H; subst.
  right. exists e, w1, t1, t2. auto.
Qed.

(** A [try ... finally] that returns: its body returned, and so did
    the cleanup. *)
Lemma finally_returns (c : M A) (f : M unit) w a w' t :
  finally c f w = (Ok a, w', t) ->
  exists w1 t1 t2,
    c w = (Ok a, w1, t1) /\ f w1 = (Ok tt, w', t2) /\ t = t1 ++ t2.
Proof.
  unfold finally. destruct (c w) as [[r w1] t1].
  destruct (f w1) as [[[[]|e] w2] t2] eqn:Ef; intros H; inversion H; subst.
  exists w1, t1, t2. auto.
Qed.

End Returns.

Section PipelineFacts.

Import Trace.

Variable parse_json_safely : string -> json -> json.
Variable InitialGap_of : list (string * json) -> option InitialGap.
Variable ValidationResult_of : list (string * json) -> option ValidationResult.
Variable validate_enrichment : list (string * json) -> option (list (string * json)).

Let process_gaps := Pipeline.process_gaps parse_json_safely ValidationResult_of.
Let analyze_with :=
  Pipeline.analyze_with parse_json_safely InitialGap_of ValidationResult_of
    validate_enrichment.
Let analyze_paper :=
  Pipeline.analyze_paper parse_json_safely InitialGap_of ValidationResult_of
    validate_enrichment.
Let generate_initial_gaps :=
  Gemini.generate_initial_gaps parse_json_safely InitialGap_of.

Lemma on_failure_returns request analysis e w r w' t :
  Pipeline.on_failure request analysis e w = (Ok r, w', t) ->
  r = Pipeline.failed_response request e.
Proof.
  unfold Pipeline.on_failure. intros H.
  apply bind_returns in H as (u1 & w1 & t1 & t2 & _ & H & _).
  apply bind_returns in H as (u2 & w2 & t3 & t4 & _ & H & _).
  inversion H. reflexivity.
Qed.

Lemma process_gaps_length analysis_id index initial_gaps w gap_results w' t :
  process_gaps analysis_id index initial_gaps w = (Ok gap_results, w', t) ->
  length gap_results = length initial_gaps.
Proof.
  revert index w gap_results w' t.
  induction initial_gaps as [|gap rest IH]; intros index w gap_results w' t H.
  - inversion H. reflexivity.
  - unfold process_gaps in H. cbn [Pipeline.process_gaps] in H.
    apply bind_returns in H as (r & w1 & t1 & t2 & _ & H & _).
    apply bind_returns in H as (rs & w2 & t3 & t4 & Hrest & H & _).
    inversion H; subst. simpl. f_equal. eapply IH, Hrest.
Qed.

Lemma valid_results_length (gap_results : list (option gap_data)) :
  (length (Pipeline.valid_results gap_results) <= length gap_results)%nat.
Proof.
  induction gap_results as [|[d|] rest IH]; simpl; [lia| |];
    fold (Pipeline.valid_results rest); simpl; lia.
Qed.

Lemma gap_details_of_length valid_gap_data gap_details :
  Pipeline.gap_details_of validate_enrichment valid_gap_data = Some gap_details ->
  length gap_details = length valid_gap_data.
Proof.
  revert gap_details. induction valid_gap_data as [|d rest IH]; intros ds H.
  - inversion H. reflexivity.
  - cbn [Pipeline.gap_details_of] in H.
    destruct (Pipeline.gap_detail_of validate_enrichment d) as [x|]; [|discriminate].
    destruct (Pipeline.gap_details_of validate_enrichment rest) as [xs|];
      [|discriminate].
    inversion H; subst. simpl. f_equal. apply IH. reflexivity.
Qed.

Lemma update_analysis_summary_returns analysis total_gaps valid_gaps w a w' t :
  Pipeline._update_analysis_summary analysis total_gaps valid_gaps w = (Ok a, w', t) ->
  a = Pipeline.summary_change total_gaps valid_gaps (clock w) analysis.
Proof.
  unfold Pipeline._update_analysis_summary. intros H.
  apply bind_returns in H as (now & w1 & t1 & t2 & Hnow & H & _).
  inversion Hnow; subst. cbv zeta in H.
  apply bind_returns in H as (u1 & w2 & t3 & t4 & _ & H & _).
  apply bind_returns in H as (u2 & w3 & t5 & t6 & _ & H & _).
  inversion H. reflexivity.
Qed.

(** The runs behind a COMPLETED response of [analyze_with]. *)
Lemma analyze_with_returns request analysis w response w' t :
  analyze_with request analysis w = (Ok response, w', t) ->
  exists paper content initial_gaps gap_results gap_details w1 t1 w2 t2 w3 t3,
    Pipeline._fetch_paper_data (paperId request) (paperExtractionId request) w
    = (Ok (Some (paper, content)), w1, t1)
    /\ generate_initial_gaps paper content w1 = (Ok initial_gaps, w2, t2)
    /\ process_gaps (ga_id analysis) 0 initial_gaps w2 = (Ok gap_results, w3, t3)
    /\ Pipeline.gap_details_of validate_enrichment
         (Pipeline.valid_results gap_results) = Some gap_details
    /\ gaps response = Some gap_details
    /\ totalGaps response = Z.of_nat (length initial_gaps)
    /\ validGaps response = Z.of_nat (length (Pipeline.valid_results gap_results)).
Proof.
  unfold analyze_with, Pipeline.analyze_with. intros H.
  apply bind_returns in H as (initial_gaps & w2 & t12 & t' & Hgen & H & _).
  unfold Pipeline.fetch_and_generate in Hgen.
  apply bind_returns in Hgen as (found & w1 & t1 & t2 & Hfetch & Hgen & _).
  destruct found as [[paper content]|]; [|discriminate].
  exists paper, content, initial_gaps.
  destruct initial_gaps as [|gap rest].
  - apply bind_returns in H as (u & w3 & t3 & t4 & _ & H & _).
    inversion H; subst.
    exists [], [], w1, t1, w2, t2, w2, []. repeat split; assumption || reflexivity.
  - apply bind_returns in H as (gap_results & w3 & t3 & t4 & Hproc & H & _).
    cbv zeta in H.
    apply bind_returns in H as (analysis' & w4 & t5 & t6 & Hsum & H & _).
    apply update_analysis_summary_returns in Hsum. subst analysis'.
    unfold Pipeline._prepare_response in H.
    destruct (Pipeline.gap_details_of validate_enrichment _) as [gap_details|] eqn:Ed;
      [|discriminate].
    inversion H; subst.
    exists gap_results, gap_details, w1, t1, w2, t2, w3, t3.
    repeat split; assumption || reflexivity.
Qed.

(** The runs behind a COMPLETED response of [analyze_paper]. *)
Lemma analyze_paper_completed request w response w' t :
  analyze_paper request w = (Ok response, w', t) ->
  status response = "COMPLETED" ->
  exists analysis w0 t0,
    Pipeline.bind_analysis request w = (Ok (Some analysis), w0, t0)
    /\ exists w1 t1, analyze_with request analysis w0 = (Ok response, w1, t1).
Proof.
  unfold analyze_paper, Pipeline.analyze_paper. intros H Hstatus.
  apply finally_returns in H as (wb & tb & tc & H & _ & _).
  apply bind_returns in H as (bound & w0 & t0 & t1 & Hbound & H & _).
  assert (Hfailed : forall a e w2 w3 t3,
            Pipeline.on_failure request a e w2 = (Ok response, w3, t3) -> False).
  { intros a e w2 w3 t3 Hf. apply on_failure_returns in Hf. subst response.
    discriminate Hstatus. }
  destruct bound as [[analysis|]|e]; try (exfalso; eapply Hfailed; exact H).
  exists analysis, w0, t0. split.
  - apply catch_returns in Hbound as [Hbound|(e & w2 & t2 & t3 & _ & Hbound & _)];
      [|discriminate].
    apply bind_returns in Hbound as (a & w2 & t2 & t3 & Hbind & Hret & ->).
    inversion Hret; subst. rewrite app_nil_r. exact Hbind.
  - apply catch_returns in H as [H|(e & w2 & t2 & t3 & _ & H & _)].
    + eauto.
    + exfalso. eapply Hfailed; exact H.
Qed.

(** The results that are not [None], counted one by one. *)
Lemma valid_results_count (gap_results : list (option gap_data)) :
  length (Pipeline.valid_results gap_results)
  = length (List.filter (fun r => match r with Some _ => true | None => false end)
              gap_results).
Proof.
  unfold Pipeline.valid_results.
  induction gap_results as [|[d|] rest IH]; simpl; [reflexivity| |exact IH].
  f_equal. exact IH.
Qed.

(** C1: a COMPLETED response of [analyze_paper] comes from a run in
    which [generate_initial_gaps] returned [initial_gaps] and the loop
    over them returned [gap_results], one result per gap; its
    [totalGaps] is the number of initial gaps, its [validGaps] is the
    number of results that are not [None], which is the length of its
    [gaps], and [validGaps <= totalGaps]. *)
Theorem completed_response_counts (request : GapAnalysisRequest) (w : World)
    (response : GapAnalysisResponse) (w' : World) (t : list event) :
  analyze_paper request w = (Ok response, w', t) ->
  status response = "COMPLETED" ->
  exists analysis paper content initial_gaps gap_results
         w0 t0 w1 t1 w2 t2 w3 t3,
    Pipeline.bind_analysis request w = (Ok (Some analysis), w0, t0)
    /\ Pipeline._fetch_paper_data (paperId request) (paperExtractionId request) w0
       = (Ok (Some (paper, content)), w1, t1)
    /\ generate_initial_gaps paper content w1 = (Ok initial_gaps, w2, t2)
    /\ process_gaps (ga_id analysis) 0 initial_gaps w2 = (Ok gap_results, w3, t3)
    /\ length gap_results = length initial_gaps
    /\ let valid :=
         length (List.filter
                   (fun r : option gap_data =>
                      match r with Some _ => true | None => false end)
                   gap_results) in
       totalGaps response = Z.of_nat (length initial_gaps)
       /\ validGaps response = Z.of_nat valid
       /\ (exists gap_details,
             gaps response = Some gap_details /\ length gap_details = valid)
       /\ (validGaps response <= totalGaps response)%Z.
Proof.
  intros Hrun Hstatus.
  destruct (analyze_paper_completed _ _ _ _ _ Hrun Hstatus)
    as (analysis & w0 & t0 & Hbind & w4 & t4 & Hwith).
  destruct (analyze_with_returns _ _ _ _ _ _ Hwith)
    as (paper & content & initial_gaps & gap_results & gap_details
        & w1 & t1 & w2 & t2 & w3 & t3
        & Hfetch & Hgen & Hproc & Hdetails & Hgaps & Htotal & Hvalid).
  pose proof (process_gaps_length _ _ _ _ _ _ _ Hproc) as Hlen.
  pose proof (valid_results_length gap_results) as Hle.
  pose proof (gap_details_of_length _ _ Hdetails) as Hdl.
  rewrite valid_results_count in Hvalid, Hle, Hdl.
  exists analysis, paper, content, initial_gaps, gap_results,
    w0, t0, w1, t1, w2, t2, w3, t3.
  do 5 (split; [assumption|]). cbv zeta.
  split; [exact Htotal|]. split; [exact Hvalid|]. split.
  - exists gap_details. split; [exact Hgaps | exact Hdl].
  - rewrite Htotal, Hvalid. lia.
Qed.

(** *** Gaps without literature *)

Lemma stable_barren : stable barren.
Proof.
  split.
  - intros w c H. exact H.
  - intros w n H. exact H.
  - intros [] w l Hl [Hmax Hquiet]; split; simpl in *; try assumption.
    rewrite Hl. exact Hmax.
  - intros w failures last state H. exact H.
  - intros w rows H. exact H.
  - intros w rows H. exact H.
Qed.

Lemma closed_any : closed (fun _ => True).
Proof. split; auto. Qed.

Lemma stable_any : stable (fun _ => True).
Proof. split; intros; exact I. Qed.

(** What a triple says of one run. *)
Lemma triple_world {X} (Inv : World -> Prop) (T : list event -> Prop)
    (c : M X) (Q : X -> Prop) w r w' t :
  triple Inv T c Q -> Inv w -> c w = (r, w', t) -> Inv w'.
Proof.
  intros Hc Hw Hrun. specialize (Hc w Hw). rewrite Hrun in Hc.
  destruct r; tauto.
Qed.

Lemma search_arxiv_once query limit w :
  Search._search_arxiv query limit w
  = catch (Search._search_arxiv_try query limit) (fun _ => mret []) w.
Proof.
  unfold Search._search_arxiv.
  destruct (total_catch_ret (Search._search_arxiv_try query limit) (fun _ => [])
              w) as (a & w' & t & Hrun).
  rewrite Hrun. apply retry_async_first, Hrun.
Qed.

Lemma calls_search_arxiv query limit w :
  at_most_calls 0 (events_of (Search._search_arxiv query limit w)).
Proof.
  rewrite search_arxiv_once.
  apply calls_catch_none; [|intros; apply calls_nil].
  unfold Search._search_arxiv_try. apply calls_bind_none.
  - destruct (wait_if_needed_spec ArxivLimiter w)
      as (r & c' & l' & t1 & Hrun & _ & _ & Ht1 & _ & _).
    rewrite Hrun. split; [apply guarded_waiting, Ht1|].
    unfold events_of. simpl. rewrite (prompts_waiting _ Ht1). simpl. lia.
  - intros [] w1. cbv zeta. apply calls_bind_none.
    + split; [reflexivity | simpl; lia].
    + intros r w2. destruct r; try apply calls_nil.
      destruct (status_code =? 200)%Z; [destruct entries|]; apply calls_nil.
Qed.

Lemma calls_search_papers query max_results w :
  at_most_calls 0 (events_of (Search.search_papers query max_results w)).
Proof.
  unfold Search.search_papers.
  apply calls_bind_none; [apply calls_search_arxiv|].
  intros results w1. cbv zeta. apply calls_bind_none; [|intros; apply calls_nil].
  destruct (length results =? 0)%nat; [|apply calls_nil].
  cbv zeta. apply calls_bind_none.
  - destruct (2 <? _)%nat; [|apply calls_nil].
    apply calls_bind_none; [apply calls_search_arxiv | intros; apply calls_nil].
  - intros all w2. destruct (_ && _); [|apply calls_nil].
    apply calls_bind_none; [apply calls_search_arxiv | intros; apply calls_nil].
Qed.

Lemma calls_none t : at_most_calls 0 t -> prompts t = [].
Proof.
  intros [_ H]. destruct (prompts t); [reflexivity | simpl in H; lia].
Qed.

(** Without a related paper the validation is over after the search. *)
Lemma validate_gap_short_circuit gap w query w1 t1 w2 t2 :
  Gemini.generate_search_query gap w = (Ok query, w1, t1) ->
  Search.search_papers query (GAP_VALIDATION_PAPERS (settings w1)) w1
  = (Ok [], w2, t2) ->
  Pipeline._validate_gap parse_json_safely ValidationResult_of gap w
  = (Ok Pipeline.no_related_papers, w2, t1 ++ t2).
Proof.
  intros Hquery Hsearch.
  unfold Pipeline._validate_gap, Pipeline._validate_gap_try.
  unfold catch at 1.
  rewrite (run_bind_ok _ _ _ _ _ _ Hquery).
  unfold mbind at 1, M_bind at 1, gets at 1.
  unfold mbind at 1, M_bind at 1.
  rewrite (run_catch_ok _ _ _ _ _ _ Hsearch).
  simpl. rewrite !app_nil_r. reflexivity.
Qed.

Lemma uuid4_returns w :
  exists id, Store.uuid4 w = (Ok id, set_asked (S (asked w)) w, [Uuid4]).
Proof.
  unfold Store.uuid4, mbind, M_bind, ask. simpl.
  destruct (oracle w (asked w) Uuid4); eexists; reflexivity.
Qed.

(** A gap whose validation returns a valid result is accepted. *)
Lemma process_single_gap_accepts analysis_id gap index w v w1 t1 :
  Pipeline._validate_gap parse_json_safely ValidationResult_of gap w
  = (Ok v, w1, t1) ->
  is_valid v = true ->
  exists d w3 t3,
    Pipeline._process_single_gap parse_json_safely ValidationResult_of
      analysis_id gap index w = (Ok (Some d), w3, t1 ++ t3)
    /\ gd_gap_name d = gap_name gap
    /\ gd_validation_status d = "VALID"
    /\ gd_confidence_score d = Pipeline.confidence_or_default (confidence v)
    /\ (forall Inv, stable Inv -> Inv w1 -> Inv w3)
    /\ (exists fresh,
          gd_gap_id d
          = Pipeline.uuid_str analysis_id +:+ "-" +:+ pretty index +:+ "-"
            +:+ Pipeline.uuid_str fresh).
Proof.
  intros Hvalidate Hvalid.
  destruct (total_catch_ret
              (expanded_details ← Gemini.expand_gap_details parse_json_safely
                                    gap Pipeline.validated;
               mret (Pipeline.detail_fields expanded_details))
              (fun _ => []) w1) as (details & w2 & t2 & Hexpand).
  fold (Pipeline._expand_gap_details parse_json_safely gap) in Hexpand.
  destruct (uuid4_returns w2) as (fresh & Hfresh).
  eexists _, _, (t2 ++ [Uuid4]). split; [|split; [|split; [|split; [|split]]]].
  - unfold Pipeline._process_single_gap, catch.
    rewrite (run_bind_ok _ _ _ _ _ _ Hvalidate). rewrite Hvalid.
    rewrite (run_bind_ok _ _ _ _ _ _ Hexpand).
    rewrite (run_bind_ok _ _ _ _ _ _ Hfresh). simpl. reflexivity.
  - reflexivity.
  - reflexivity.
  - reflexivity.
  - intros Inv HInv Hw1. apply (stable_asked Inv HInv).
    eapply triple_world; [|exact Hw1|exact Hexpand].
    apply (safe_pipeline_expand_gap_details Inv (fun _ => True) HInv closed_any).
    intros; exact I.
  - exists fresh. reflexivity.
Qed.

(** Where arXiv has no paper, every gap is accepted. *)
Lemma process_single_gap_barren analysis_id gap index w :
  barren w ->
  exists d w' t,
    Pipeline._process_single_gap parse_json_safely ValidationResult_of
      analysis_id gap index w = (Ok (Some d), w', t)
    /\ barren w'
    /\ gd_gap_name d = gap_name gap
    /\ gd_validation_status d = "VALID"
    /\ gd_confidence_score d = 0.5%Q.
Proof.
  intros Hw.
  destruct (generate_search_query_run gap w) as (query & Hquery).
  assert (Hw1 : barren (set_asked (S (asked w)) w)) by exact Hw.
  destruct (search_papers_barren query
              (GAP_VALIDATION_PAPERS (settings (set_asked (S (asked w)) w)))
              _ Hw1) as (w2 & t2 & Hsearch & Hw2 & _).
  pose proof (validate_gap_short_circuit _ _ _ _ _ _ _ Hquery Hsearch) as Hvalidate.
  destruct (process_single_gap_accepts analysis_id gap index _ _ _ _ Hvalidate
              eq_refl) as (d & w3 & t3 & Hrun & Hname & Hstatus & Hconf & Hinv & _).
  eexists d, w3, _. split; [exact Hrun|]. split; [|auto].
  apply (Hinv barren stable_barren Hw2).
Qed.

Lemma process_gaps_barren analysis_id index initial_gaps w :
  barren w ->
  exists ds w' t,
    process_gaps analysis_id index initial_gaps w = (Ok (map Some ds), w', t)
    /\ map gd_gap_name ds = map gap_name initial_gaps
    /\ Forall (fun d => gd_validation_status d = "VALID"
                        /\ gd_confidence_score d = 0.5%Q) ds.
Proof.
  revert index w. induction initial_gaps as [|gap rest IH]; intros index w Hw.
  - exists [], w, []. repeat split; constructor.
  - destruct (process_single_gap_barren analysis_id gap index w Hw)
      as (d & w1 & t1 & Hrun & Hw1 & Hname & Hstatus & Hconf).
    destruct (IH (S index) w1 Hw1) as (ds & w2 & t2 & Hrest & Hnames & Hall).
    exists (d :: ds), w2, (t1 ++ t2 ++ []). split; [|split].
    + unfold process_gaps in *. cbn [Pipeline.process_gaps].
      rewrite (run_bind_ok _ _ _ _ _ _ (run_catch_ok _ _ _ _ _ _ Hrun)).
      rewrite (run_bind_ok _ _ _ _ _ _ Hrest). reflexivity.
    + simpl. rewrite Hname, Hnames. reflexivity.
    + constructor; auto.
Qed.

Lemma valid_results_Some ds : Pipeline.valid_results (map Some ds) = ds.
Proof.
  induction ds as [|d ds IH]; [reflexivity|].
  simpl. unfold Pipeline.valid_results in *. simpl. rewrite IH. reflexivity.
Qed.

Lemma gap_details_of_fields ds gap_details :
  Pipeline.gap_details_of validate_enrichment ds = Some gap_details ->
  map gd_name gap_details = map gd_gap_name ds
  /\ map validationStatus gap_details = map gd_validation_status ds
  /\ map confidenceScore gap_details = map gd_confidence_score ds.
Proof.
  revert gap_details. induction ds as [|d rest IH]; intros details H.
  - inversion H. auto.
  - cbn [Pipeline.gap_details_of] in H.
    destruct (Pipeline.gap_detail_of validate_enrichment d) as [x|] eqn:Ex;
      [|discriminate].
    destruct (Pipeline.gap_details_of validate_enrichment rest) as [xs|];
      [|discriminate].
    inversion H; subst. destruct (IH xs eq_refl) as (H1 & H2 & H3).
    unfold Pipeline.gap_detail_of in Ex.
    destruct (validate_enrichment (gd_details d)); [|discriminate].
    inversion Ex; subst. simpl. rewrite H1, H2, H3. auto.
Qed.

(** The loop over the initial gaps, gap by gap: the gap at position
    [i] is processed in the world [gap_worlds] lists for it, and its
    result is the one at position [i]. *)
Lemma process_gaps_lookup analysis_id index initial_gaps w gap_results w' t i gap wi :
  process_gaps analysis_id index initial_gaps w = (Ok gap_results, w', t) ->
  initial_gaps !! i = Some gap ->
  gap_worlds parse_json_safely ValidationResult_of analysis_id index initial_gaps w
    !! i = Some wi ->
  exists r wi' ti,
    catch (Pipeline._process_single_gap parse_json_safely ValidationResult_of
             analysis_id gap (index + i))
      (fun _ => mret None) wi = (Ok r, wi', ti)
    /\ gap_results !! i = Some r.
Proof.
  revert index w gap_results w' t i.
  induction initial_gaps as [|g rest IH]; intros index w gap_results w' t i H Hgap Hwi;
    [discriminate|].
  unfold process_gaps in H. cbn [Pipeline.process_gaps] in H.
  apply bind_returns in H as (r & w1 & t1 & t2 & Hone & H & _).
  apply bind_returns in H as (rs & w2 & t3 & t4 & Hrest & H & _).
  inversion H; subst gap_results; clear H.
  cbn [gap_worlds] in Hwi. destruct i as [|i].
  - inversion Hgap; subst g. inversion Hwi; subst wi.
    exists r, w1, t1. rewrite Nat.add_0_r. split; [exact Hone | reflexivity].
  - change ((g :: rest) !! S i) with (rest !! i) in Hgap.
    rewrite Hone in Hwi. cbn [world_of fst snd] in Hwi.
    change ((w :: ?l) !! S i) with (l !! i) in Hwi.
    destruct (IH (S index) w1 rs w2 t3 i Hrest Hgap Hwi) as (r' & wi' & ti & Hrun & Hr).
    exists r', wi', ti. rewrite <- Nat.add_succ_comm. split; [exact Hrun | exact Hr].
Qed.

Lemma valid_results_In (gap_results : list (option gap_data)) i d :
  gap_results !! i = Some (Some d) -> In d (Pipeline.valid_results gap_results).
Proof.
  unfold Pipeline.valid_results. revert i.
  induction gap_results as [|r rest IH]; intros i H; [discriminate|].
  destruct i as [|i].
  - inversion H; subst r. left. reflexivity.
  - change ((r :: rest) !! S i) with (rest !! i) in H.
    destruct r as [x|]; simpl; [right|]; eapply IH, H.
Qed.

Lemma gap_details_of_In ds gap_details d :
  Pipeline.gap_details_of validate_enrichment ds = Some gap_details ->
  In d ds ->
  exists detail,
    In detail gap_details
    /\ gapId detail = gd_gap_id d
    /\ gd_name detail = gd_gap_name d
    /\ validationStatus detail = gd_validation_status d
    /\ confidenceScore detail = gd_confidence_score d.
Proof.
  revert gap_details. induction ds as [|x rest IH]; intros details H Hin;
    [contradiction|].
  cbn [Pipeline.gap_details_of] in H.
  destruct (Pipeline.gap_detail_of validate_enrichment x) as [y|] eqn:Ey;
    [|discriminate].
  destruct (Pipeline.gap_details_of validate_enrichment rest) as [ys|];
    [|discriminate].
  inversion H; subst details; clear H.
  destruct Hin as [->|Hin].
  - exists y. split; [left; reflexivity|].
    unfold Pipeline.gap_detail_of in Ey.
    destruct (validate_enrichment (gd_details d)); [|discriminate].
    inversion Ey. repeat split.
  - destruct (IH ys eq_refl Hin) as (detail & Hd & Hrest).
    exists detail. split; [right; exact Hd | exact Hrest].
Qed.

(** C10, as the code has it. When the query generated for a gap finds
    no paper, [_validate_gap] returns [is_valid = True] with
    confidence 0.5, and the only prompt sent is the one for the query:
    the validator of the model is not called; [_process_single_gap]
    then returns the data of the gap, marked VALID with confidence
    0.5. In a COMPLETED response, whatever the searches for the other
    gaps found, every initial gap whose own search found no paper is
    in the [gaps] array, under the identifier of its position, VALID
    with confidence 0.5. Where arXiv has no paper for any query, a
    COMPLETED response lists every initial gap, in order. *)
Theorem no_literature_gap_accepted :
  (forall gap w query w1 t1 w2 t2,
     Gemini.generate_search_query gap w = (Ok query, w1, t1) ->
     Search.search_papers query (GAP_VALIDATION_PAPERS (settings w1)) w1
     = (Ok [], w2, t2) ->
     Pipeline._validate_gap parse_json_safely ValidationResult_of gap w
     = (Ok Pipeline.no_related_papers, w2, t1 ++ t2)
     /\ is_valid Pipeline.no_related_papers = true
     /\ confidence Pipeline.no_related_papers = 0.5%Q
     /\ prompts (t1 ++ t2) = [PromptSearchQuery gap]
     /\ forall analysis_id index,
          exists d w3 t3,
            Pipeline._process_single_gap parse_json_safely ValidationResult_of
              analysis_id gap index w = (Ok (Some d), w3, (t1 ++ t2) ++ t3)
            /\ gd_gap_name d = gap_name gap
            /\ gd_validation_status d = "VALID"
            /\ gd_confidence_score d = 0.5%Q)
  /\ (forall request w response w' t,
        analyze_paper request w = (Ok response, w', t) ->
        status response = "COMPLETED" ->
        exists analysis paper content initial_gaps gap_details w0 t0 w1 t1 w2 t2,
          Pipeline.bind_analysis request w = (Ok (Some analysis), w0, t0)
          /\ Pipeline._fetch_paper_data (paperId request) (paperExtractionId request)
               w0 = (Ok (Some (paper, content)), w1, t1)
          /\ generate_initial_gaps paper content w1 = (Ok initial_gaps, w2, t2)
          /\ gaps response = Some gap_details
          /\ forall i gap wi query wq tq ws ts,
               initial_gaps !! i = Some gap ->
               gap_worlds parse_json_safely ValidationResult_of (ga_id analysis) 0
                 initial_gaps w2 !! i = Some wi ->
               Gemini.generate_search_query gap wi = (Ok query, wq, tq) ->
               Search.search_papers query (GAP_VALIDATION_PAPERS (settings wq)) wq
               = (Ok [], ws, ts) ->
               exists detail fresh,
                 In detail gap_details
                 /\ gapId detail
                    = Pipeline.uuid_str (ga_id analysis) +:+ "-" +:+ pretty i +:+ "-"
                      +:+ Pipeline.uuid_str fresh
                 /\ gd_name detail = gap_name gap
                 /\ validationStatus detail = "VALID"
                 /\ confidenceScore detail = 0.5%Q)
  /\ (forall request w response w' t,
        barren w ->
        analyze_paper request w = (Ok response, w', t) ->
        status response = "COMPLETED" ->
        exists paper content initial_gaps w1 w2 t2 gap_details,
          generate_initial_gaps paper content w1 = (Ok initial_gaps, w2, t2)
          /\ gaps response = Some gap_details
          /\ map gd_name gap_details = map gap_name initial_gaps
          /\ Forall (fun d => validationStatus d = "VALID"
                              /\ confidenceScore d = 0.5%Q) gap_details).
Proof.
  split; [|split].
  - intros gap w query w1 t1 w2 t2 Hquery Hsearch.
    pose proof (validate_gap_short_circuit _ _ _ _ _ _ _ Hquery Hsearch) as Hvalidate.
    split; [exact Hvalidate|]. split; [reflexivity|]. split; [reflexivity|].
    split.
    + destruct (generate_search_query_run gap w) as (q & Hq).
      rewrite Hq in Hquery. inversion Hquery; subst.
      rewrite prompts_app.
      pose proof (calls_search_papers query
                    (GAP_VALIDATION_PAPERS (settings (set_asked (S (asked w)) w)))
                    (set_asked (S (asked w)) w)) as Hcalls.
      rewrite Hsearch in Hcalls. apply calls_none in Hcalls.
      change (prompts t2 = []) in Hcalls. rewrite Hcalls. reflexivity.
    + intros analysis_id index.
      destruct (process_single_gap_accepts analysis_id gap index _ _ _ _ Hvalidate
                  eq_refl) as (d & w3 & t3 & Hrun & Hname & Hstatus & Hconf & _).
      exists d, w3, t3. auto.
  - intros request w response w' t Hrun Hstatus.
    destruct (analyze_paper_completed _ _ _ _ _ Hrun Hstatus)
      as (analysis & w0 & t0 & Hbind & w4 & t4 & Hwith).
    destruct (analyze_with_returns _ _ _ _ _ _ Hwith)
      as (paper & content & initial_gaps & gap_results & gap_details
          & w1 & t1 & w2 & t2 & w3 & t3
          & Hfetch & Hgen & Hproc & Hdetails & Hgaps & _ & _).
    exists analysis, paper, content, initial_gaps, gap_details,
      w0, t0, w1, t1, w2, t2.
    do 4 (split; [assumption|]).
    intros i gap wi query wq tq ws ts Hgap Hwi Hquery Hsearch.
    destruct (process_gaps_lookup _ _ _ _ _ _ _ _ _ _ Hproc Hgap Hwi)
      as (r & wi' & ti & Hone & Hr).
    pose proof (validate_gap_short_circuit _ _ _ _ _ _ _ Hquery Hsearch) as Hvalidate.
    destruct (process_single_gap_accepts (ga_id analysis) gap (0 + i) _ _ _ _
                Hvalidate eq_refl)
      as (d & w5 & t5 & Hsingle & Hname & Hvalid & Hconf & _ & fresh & Hid).
    rewrite (run_catch_ok _ _ _ _ _ _ Hsingle) in Hone.
    inversion Hone; subst r.
    destruct (gap_details_of_In _ _ d Hdetails (valid_results_In _ _ _ Hr))
      as (detail & Hin & Hdid & Hdname & Hdstatus & Hdconf).
    exists detail, fresh. split; [exact Hin|].
    rewrite Hdid, Hdname, Hdstatus, Hdconf, Hid, Hname, Hvalid, Hconf.
    repeat split.
  - intros request w response w' t Hw Hrun Hstatus.
    destruct (analyze_paper_completed _ _ _ _ _ Hrun Hstatus)
      as (analysis & w0 & t0 & Hbind & w4 & t4 & Hwith).
    destruct (analyze_with_returns _ _ _ _ _ _ Hwith)
      as (paper & content & initial_gaps & gap_results & gap_details
          & w1 & t1 & w2 & t2 & w3 & t3
          & Hfetch & Hgen & Hproc & Hdetails & Hgaps & _ & _).
    assert (Hany : forall e, internal e -> (fun _ : list event => True) [e])
      by (intros; exact I).
    assert (Hw0 : barren w0).
    { eapply triple_world; [|exact Hw|exact Hbind].
      apply (safe_bind_analysis barren (fun _ => True) stable_barren closed_any Hany). }
    assert (Hw1 : barren w1).
    { eapply triple_world; [|exact Hw0|exact Hfetch].
      apply (safe_fetch_paper_data barren (fun _ => True) stable_barren closed_any
               Hany). }
    assert (Hw2 : barren w2).
    { eapply triple_world; [|exact Hw1|exact Hgen].
      apply (safe_generate_initial_gaps barren (fun _ => True) stable_barren
               closed_any Hany). }
    destruct (process_gaps_barren (ga_id analysis) 0 initial_gaps w2 Hw2)
      as (ds & w5 & t5 & Hproc' & Hnames & Hall).
    rewrite Hproc in Hproc'. inversion Hproc'; subst gap_results.
    rewrite valid_results_Some in Hdetails.
    destruct (gap_details_of_fields _ _ Hdetails) as (Hn & Hs & Hc).
    exists paper, content, initial_gaps, w1, w2, t2, gap_details.
    split; [exact Hgen|]. split; [exact Hgaps|]. split; [congruence|].
    clear - Hs Hc Hall. revert ds Hs Hc Hall.
    induction gap_details as [|x xs IH]; intros [|d ds] Hs Hc Hall;
      try discriminate; constructor.
    + inversion Hall; subst. simpl in Hs, Hc. inversion Hs. inversion Hc.
      destruct H1 as [H1 H1']. split; congruence.
    + inversion Hall; subst. simpl in Hs, Hc. inversion Hs. inversion Hc.
      eapply IH; eauto.
Qed.

End PipelineFacts.

(** C1 on a deployment where the model lists one gap and arXiv has no
    paper. *)
Lemma completed_response_counts_witness :
  exists analysis paper content initial_gaps gap_results
         w0 t0 w1 t1 w2 t2 w3 t3,
    Pipeline.bind_analysis Examples.request1 (Examples.world0 Examples.helpful)
    = (Ok (Some analysis), w0, t0)
    /\ Pipeline._fetch_paper_data (paperId Examples.request1)
         (paperExtractionId Examples.request1) w0
       = (Ok (Some (paper, content)), w1, t1)
    /\ Gemini.generate_initial_gaps Examples.parse_one_gap Examples.InitialGap_of_any
         paper content w1 = (Ok initial_gaps, w2, t2)
    /\ Pipeline.process_gaps Examples.parse_one_gap Examples.no_ValidationResult
         (ga_id analysis) 0 initial_gaps w2 = (Ok gap_results, w3, t3)
    /\ length gap_results = length initial_gaps
    /\ let valid :=
         length (List.filter
                   (fun r : option gap_data =>
                      match r with Some _ => true | None => false end)
                   gap_results) in
       totalGaps Examples.response1 = Z.of_nat (length initial_gaps)
       /\ validGaps Examples.response1 = Z.of_nat valid
       /\ (exists gap_details,
             gaps Examples.response1 = Some gap_details
             /\ length gap_details = valid)
       /\ (validGaps Examples.response1 <= totalGaps Examples.response1)%Z.
Proof.
  eapply (completed_response_counts Examples.parse_one_gap Examples.InitialGap_of_any
            Examples.no_ValidationResult Examples.enrichment_as_is
            Examples.request1 (Examples.world0 Examples.helpful)
            Examples.response1 _ _).
  - vm_compute. reflexivity.
  - reflexivity.
Defined.

(** C10 on the same deployment: the gap is validated without a call of
    the validator, and listed in the response under the identifier of
    its position. *)
Lemma no_literature_gap_accepted_witness :
  (exists w2 t,
     Pipeline._validate_gap Examples.parse_one_gap Examples.no_ValidationResult
       Examples.a_gap (Examples.world0 Examples.helpful)
     = (Ok Pipeline.no_related_papers, w2, t)
     /\ Trace.prompts t = [PromptSearchQuery Examples.a_gap])
  /\ (exists gap_details detail,
        gaps Examples.response1 = Some gap_details
        /\ In detail gap_details
        /\ gapId detail = "7-0-7"
        /\ gd_name detail = gap_name Examples.a_gap
        /\ validationStatus detail = "VALID"
        /\ confidenceScore detail = 0.5%Q).
Proof.
  pose proof (no_literature_gap_accepted Examples.parse_one_gap
                Examples.InitialGap_of_any Examples.no_ValidationResult
                Examples.enrichment_as_is) as (Hshort & Hlisted & _).
  split.
  - destruct (Hshort Examples.a_gap (Examples.world0 Examples.helpful)
                "graph transformers" _ _ _ _
                ltac:(vm_compute; reflexivity) ltac:(vm_compute; reflexivity))
      as (Hrun & _ & _ & Hprompts & _).
    eexists _, _. split; [exact Hrun | exact Hprompts].
  - destruct (Hlisted Examples.request1 (Examples.world0 Examples.helpful)
                Examples.response1 _ _
                ltac:(vm_compute; reflexivity) eq_refl)
      as (analysis & paper & content & initial_gaps & gap_details
          & w0 & t0 & w1 & t1 & w2 & t2 & Hbind & Hfetch & Hgen & Hgaps & Hall).
    vm_compute in Hbind. inversion Hbind; subst analysis w0 t0; clear Hbind.
    vm_compute in Hfetch. inversion Hfetch; subst paper content w1 t1; clear Hfetch.
    vm_compute in Hgen. inversion Hgen; subst initial_gaps w2 t2; clear Hgen.
    destruct (Hall 0%nat Examples.a_gap _ "graph transformers" _ _ _ _
                eq_refl eq_refl
                ltac:(vm_compute; reflexivity) ltac:(vm_compute; reflexivity))
      as (detail & fresh & Hin & Hid & Hname & Hstatus & Hconf).
    exists gap_details, detail. split; [exact Hgaps|]. split; [exact Hin|].
    split; [|auto].
    inversion Hgaps; subst gap_details.
    destruct Hin as [<-|[]]. reflexivity.
Defined.

(** C10 as the specification has it fails: the gap is not always in
    the response. Here the search for the one gap finds no paper, the
    validator is not called and the gap is accepted (its details are
    expanded); then the flush of the summary fails, and the response
    is FAILED, without a [gaps] array. *)
Lemma no_literature_gap_unlisted :
  let run :=
    Pipeline.analyze_paper Examples.parse_one_gap Examples.InitialGap_of_any
      Examples.no_ValidationResult Examples.enrichment_as_is
      Examples.request1 (Examples.world0 Examples.flush_fails) in
  Trace.queries_sent (Trace.events_of run) = ["graph transformers"; "graph"]
  /\ Trace.prompts (Trace.events_of run)
     = [PromptInitialGaps Examples.paper_data1 (JObj []);
        PromptSearchQuery Examples.a_gap;
        PromptExpand Examples.a_gap Pipeline.validated]
  /\ exists response,
       Trace.result_of run = Ok response
       /\ status response = "FAILED"
       /\ gaps response = None.
Proof. vm_compute. split; [reflexivity|]. split; [reflexivity|]. eauto. Qed.

(** * Further properties *)

(** ** [app/utils/helpers.py] *)

Section BatchFacts.

Context {A : Type}.

Lemma firstn_add (k n : nat) (l : list A) :
  firstn (k + n) l = firstn k l ++ firstn n (skipn k l).
Proof.
  revert l. induction k as [|k IH]; intros l; [reflexivity|].
  destruct l as [|x l]; simpl; [destruct n; reflexivity|].
  f_equal. apply IH.
Qed.

Lemma skipn_add (k n : nat) (l : list A) : skipn (k + n) l = skipn n (skipn k l).
Proof.
  revert l. induction k as [|k IH]; intros l; [reflexivity|].
  destruct l as [|x l]; simpl; [destruct n; reflexivity | apply IH].
Qed.

(** The chunks of [k] items that start at the multiples of [k] from
    [a * k] on. *)
Lemma chunks_concat (k m a : nat) (l : list A) :
  concat (map (fun j => firstn k (skipn (j * k) l)) (seq a m))
  = firstn (m * k) (skipn (a * k) l).
Proof.
  revert a. induction m as [|m IH]; intros a; [reflexivity|].
  cbn [seq map concat]. rewrite IH.
  replace (S a * k)%nat with (a * k + k)%nat by lia.
  rewrite skipn_add. replace (S m * k)%nat with (k + m * k)%nat by lia.
  symmetry. apply firstn_add.
Qed.

Lemma slice_chunk (k j : nat) (l : list A) :
  Utils.slice (Z.of_nat j * Z.of_nat k) (Z.of_nat j * Z.of_nat k + Z.of_nat k) l
  = firstn k (skipn (j * k) l).
Proof.
  unfold Utils.slice. f_equal; [lia|]. f_equal. lia.
Qed.

(** X1: with a positive [batch_size], [batch_list] cuts the list into
    consecutive batches: their concatenation is the list, every batch
    holds at least one item and at most [batch_size], and there are
    [ceil(len(items) / batch_size)] of them. A [batch_size] of zero
    raises [ValueError], and a negative one returns no batch at all:
    the items are dropped. *)
Theorem batch_list_partitions (items : list A) (batch_size : Z) :
  ((0 < batch_size)%Z ->
   exists batches,
     Utils.batch_list items batch_size = Ok batches
     /\ concat batches = items
     /\ Forall (fun b => (1 <= length b)%nat
                         /\ (Z.of_nat (length b) <= batch_size)%Z) batches
     /\ Z.of_nat (length batches)
        = ((Z.of_nat (length items) + batch_size - 1) / batch_size)%Z)
  /\ (batch_size = 0%Z ->
      Utils.batch_list items batch_size
      = Raise (mkExn "ValueError" "range() arg 3 must not be zero"))
  /\ ((batch_size < 0)%Z -> Utils.batch_list items batch_size = Ok []).
Proof.
  split; [|split].
  2: { intros ->. reflexivity. }
  2: { intros Hneg. unfold Utils.batch_list, Utils.range_from_zero.
       destruct (Z.eqb_spec batch_size 0) as [?|_]; [lia|].
       destruct (Z.ltb_spec batch_size 0) as [_|?]; [reflexivity | lia]. }
  intros Hpos.
  set (n := length items). set (k := Z.to_nat batch_size).
  assert (Hk : batch_size = Z.of_nat k) by (unfold k; lia).
  assert (Hk0 : (0 < k)%nat) by lia.
  set (m := Z.to_nat ((Z.of_nat n + batch_size - 1) / batch_size)).
  assert (Hm : Z.of_nat m = ((Z.of_nat n + batch_size - 1) / batch_size)%Z).
  { unfold m. rewrite Z2Nat.id; [reflexivity|]. apply Z.div_pos; lia. }
  assert (Hdiv : (Z.of_nat m * batch_size <= Z.of_nat n + batch_size - 1
                  < Z.of_nat m * batch_size + batch_size)%Z).
  { rewrite Hm.
    pose proof (Z.div_mod (Z.of_nat n + batch_size - 1) batch_size ltac:(lia)).
    pose proof (Z.mod_pos_bound (Z.of_nat n + batch_size - 1) batch_size Hpos).
    lia. }
  assert (Hcover : (n <= m * k)%nat) by nia.
  assert (Hlast : forall j, (j < m)%nat -> (j * k < n)%nat) by (intros; nia).
  assert (Hstarts :
    map (fun i => Utils.slice i (i + batch_size) items)
      (map (fun j => (Z.of_nat j * batch_size)%Z) (seq 0 m))
    = map (fun j => firstn k (skipn (j * k) items)) (seq 0 m)).
  { rewrite map_map. apply map_ext. intros j. rewrite Hk. apply slice_chunk. }
  exists (map (fun j => firstn k (skipn (j * k) items)) (seq 0 m)).
  split; [|split; [|split]].
  - unfold Utils.batch_list, Utils.range_from_zero.
    destruct (Z.eqb_spec batch_size 0) as [?|_]; [lia|].
    destruct (Z.ltb_spec batch_size 0) as [?|_]; [lia|].
    fold n m. rewrite Hstarts. reflexivity.
  - rewrite chunks_concat. simpl. apply firstn_all2. fold n. exact Hcover.
  - apply Forall_forall. intros b Hb. apply list_elem_of_In in Hb.
    apply in_map_iff in Hb as (j & <- & Hj).
    apply in_seq in Hj. specialize (Hlast j ltac:(lia)).
    rewrite length_firstn, length_skipn. fold n. lia.
  - rewrite length_map, length_seq. exact Hm.
Qed.

End BatchFacts.

(** X1 on seven items in batches of three. *)
Lemma batch_list_partitions_witness :
  exists batches,
    Utils.batch_list [1; 2; 3; 4; 5; 6; 7]%nat 3 = Ok batches
    /\ concat batches = [1; 2; 3; 4; 5; 6; 7]%nat
    /\ Forall (fun b => (1 <= length b)%nat /\ (Z.of_nat (length b) <= 3)%Z) batches
    /\ Z.of_nat (length batches) = ((Z.of_nat 7 + 3 - 1) / 3)%Z.
Proof.
  apply (proj1 (batch_list_partitions [1; 2; 3; 4; 5; 6; 7]%nat 3)). reflexivity.
Defined.

Section TextFacts.

Lemma take_length (n : nat) (s : string) :
  String.length (PyStr.take n s) = Nat.min n (String.length s).
Proof.
  unfold PyStr.take. revert s. induction n as [|n IH]; intros s.
  - destruct s; reflexivity.
  - destruct s as [|c s]; [reflexivity|]. simpl. rewrite IH. reflexivity.
Qed.

Lemma take_prefix (n : nat) (s : string) : exists rest, s = PyStr.take n s +:+ rest.
Proof.
  unfold PyStr.take. revert s. induction n as [|n IH]; intros s.
  - exists s. destruct s; reflexivity.
  - destruct s as [|c s]; [exists ""; reflexivity|].
    destruct (IH s) as (rest & Hrest). exists rest.
    simpl. rewrite sapp_cons. f_equal. exact Hrest.
Qed.

(** X2: for a [max_length] that is not negative, [truncate_text]
    returns at most [max_length] characters: the text itself when it
    fits, and otherwise exactly [max_length] characters, which are a
    prefix of the text followed by three dots when the ellipsis is
    asked for and [max_length] exceeds 3, and a prefix of the text
    when not. *)
Theorem truncate_text_bound (text : string) (max_length : Z) (add_ellipsis : bool) :
  (0 <= max_length)%Z ->
  let result := Utils.truncate_text text max_length add_ellipsis in
  (Z.of_nat (String.length result) <= max_length)%Z
  /\ ((Z.of_nat (String.length text) <= max_length)%Z -> result = text)
  /\ ((max_length < Z.of_nat (String.length text))%Z ->
      Z.of_nat (String.length result) = max_length
      /\ exists kept rest,
           text = kept +:+ rest
           /\ result = if add_ellipsis && (3 <? max_length)%Z
                       then kept +:+ "..." else kept).
Proof.
  intros Hmax result. subst result. unfold Utils.truncate_text.
  destruct (Z.leb_spec (Z.of_nat (String.length text)) max_length) as [Hfit|Hlong].
  - rewrite orb_true_r. split; [exact Hfit|]. split; [reflexivity | lia].
  - destruct text as [|c text]; [simpl in Hlong; lia|].
    cbn [orb]. remember (String c text) as t eqn:Et. clear Et.
    unfold Utils.str_slice_to.
    destruct (add_ellipsis && (3 <? max_length)%Z) eqn:Ecase.
    + apply andb_true_iff in Ecase as [_ H3]. apply Z.ltb_lt in H3.
      destruct (Z.leb_spec 0 (max_length - 3)) as [_|?]; [|lia].
      assert (Hlen : String.length (PyStr.take (Z.to_nat (max_length - 3)) t +:+ "...")
                     = Z.to_nat max_length).
      { rewrite sapp_length, take_length. cbn [String.length]. lia. }
      split; [lia|]. split; [lia|]. intros _. split; [lia|].
      destruct (take_prefix (Z.to_nat (max_length - 3)) t) as (rest & Hrest).
      exists (PyStr.take (Z.to_nat (max_length - 3)) t), rest. auto.
    + destruct (Z.leb_spec 0 max_length) as [_|?]; [|lia].
      assert (Hlen : String.length (PyStr.take (Z.to_nat max_length) t)
                     = Z.to_nat max_length).
      { rewrite take_length. lia. }
      split; [lia|]. split; [lia|]. intros _. split; [lia|].
      destruct (take_prefix (Z.to_nat max_length) t) as (rest & Hrest).
      exists (PyStr.take (Z.to_nat max_length) t), rest. auto.
Qed.

End TextFacts.

(** X2 on a text of sixteen characters cut to ten. *)
Lemma truncate_text_bound_witness :
  let result := Utils.truncate_text "research gap map" 10 true in
  (Z.of_nat (String.length result) <= 10)%Z
  /\ ((Z.of_nat (String.length "research gap map") <= 10)%Z
      -> result = "research gap map")
  /\ ((10 < Z.of_nat (String.length "research gap map"))%Z ->
      Z.of_nat (String.length result) = 10%Z
      /\ exists kept rest,
           "research gap map" = kept +:+ rest
           /\ result = if true && (3 <? 10)%Z then kept +:+ "..." else kept).
Proof. apply (truncate_text_bound "research gap map" 10 true). lia. Defined.

Section SimilarityFacts.

Import Observed.

Lemma Qdiv_nat_bounds (a b : nat) :
  (a <= b)%nat -> (0 < b)%nat ->
  (0 <= inject_Z (Z.of_nat a) / inject_Z (Z.of_nat b))%Q
  /\ (inject_Z (Z.of_nat a) / inject_Z (Z.of_nat b) <= 1)%Q.
Proof.
  intros Hab Hb.
  assert (Hpos : (0 < inject_Z (Z.of_nat b))%Q) by (unfold Qlt; simpl; lia).
  split.
  - apply Qle_shift_div_l; [exact Hpos|]. unfold Qle; simpl. lia.
  - apply Qle_shift_div_r; [exact Hpos|]. unfold Qle; simpl. lia.
Qed.

(** X3: [calculate_similarity] is symmetric and lies between 0 and 1;
    of a text with itself it is 1 when the text has a word, and 0
    when it has none. *)
Theorem calculate_similarity_symmetric_bounded (text1 text2 : string) :
  Helpers.calculate_similarity text1 text2 = Helpers.calculate_similarity text2 text1
  /\ (0 <= Helpers.calculate_similarity text1 text2)%Q
  /\ (Helpers.calculate_similarity text1 text2 <= 1)%Q
  /\ match PyStr.split (PyStr.lower text1) with
     | [] => Helpers.calculate_similarity text1 text1 = 0%Q
     | _ :: _ => (Helpers.calculate_similarity text1 text1 == 1)%Q
     end.
Proof.
  split; [|split; [|split]].
  - destruct text1 as [|c1 s1], text2 as [|c2 s2]; try reflexivity.
    rewrite !calculate_similarity_nonempty by discriminate. cbv zeta.
    generalize (Helpers.word_set (String c1 s1)) (Helpers.word_set (String c2 s2)).
    intros A B.
    assert (E1 : B ∩ A = A ∩ B) by set_solver.
    assert (E2 : B ∪ A = A ∪ B) by set_solver.
    rewrite E1, E2. reflexivity.
  - destruct text1 as [|c1 s1], text2 as [|c2 s2]; try (unfold Qle; simpl; lia).
    rewrite calculate_similarity_nonempty by discriminate. cbv zeta.
    destruct (decide _) as [|Hne]; [unfold Qle; simpl; lia|].
    apply Qdiv_nat_bounds; [|lia]. apply subseteq_size. set_solver.
  - destruct text1 as [|c1 s1], text2 as [|c2 s2]; try (unfold Qle; simpl; lia).
    rewrite calculate_similarity_nonempty by discriminate. cbv zeta.
    destruct (decide _) as [|Hne]; [unfold Qle; simpl; lia|].
    apply Qdiv_nat_bounds; [|lia]. apply subseteq_size. set_solver.
  - destruct text1 as [|c1 s1]; [reflexivity|].
    rewrite calculate_similarity_nonempty by discriminate. cbv zeta.
    assert (Hidem : forall A : gset string, A ∩ A = A /\ A ∪ A = A)
      by (intros A; split; set_solver).
    destruct (Hidem (Helpers.word_set (String c1 s1))) as [-> ->]. clear Hidem.
    unfold Helpers.word_set.
    destruct (PyStr.split (PyStr.lower (String c1 s1))) as [|w ws] eqn:Ewords.
    + destruct (decide _) as [|Hne]; [reflexivity|].
      exfalso. apply Hne. reflexivity.
    + destruct (decide _) as [He|Hne].
      * exfalso. apply size_empty_inv in He.
        assert (w ∈ (list_to_set (w :: ws) : gset string)) by set_solver.
        set_solver.
      * unfold Qdiv. apply Qmult_inv_r. intros H. apply Hne.
        unfold Qeq, inject_Z in H. cbn [Qnum Qden] in H. lia.
Qed.

Lemma FOP_snoc {A} (R : A -> A -> Prop) (l : list A) (x : A) :
  ForallOrdPairs R l -> Forall (fun y => R y x) l -> ForallOrdPairs R (l ++ [x]).
Proof.
  induction 1 as [|y l Hy Hl IH]; intros Hx; simpl.
  - constructor; constructor.
  - inversion Hx; subst. constructor; [|apply IH; assumption].
    apply Forall_app. split; [exact Hy|]. constructor; [assumption|constructor].
Qed.

Lemma FOP_app_before {A} (R : A -> A -> Prop) (l1 l2 : list A) (x : A) :
  ForallOrdPairs R (l1 ++ x :: l2) -> Forall (fun y => R y x) l1.
Proof.
  induction l1 as [|y l1 IH]; intros H; [constructor|].
  simpl in H. inversion H as [|? ? Hy Hl]; subst. constructor.
  - apply Forall_app in Hy as [_ Hy]. inversion Hy; assumption.
  - apply IH, Hl.
Qed.

Lemma is_duplicate_false result unique_results :
  Search.is_duplicate result unique_results = false
  <-> Forall (fun u => similar result u = false) unique_results.
Proof.
  unfold Search.is_duplicate. induction unique_results as [|u us IH]; simpl.
  - split; [constructor | reflexivity].
  - rewrite orb_false_iff, IH. split.
    + intros [H1 H2]. constructor; assumption.
    + intros H. inversion H; subst. split; assumption.
Qed.

Lemma is_duplicate_true result unique_results :
  Search.is_duplicate result unique_results = true ->
  exists u, In u unique_results /\ similar result u = true.
Proof. unfold Search.is_duplicate. intros H. apply existsb_exists in H. exact H. Qed.

(** What the loop of [_remove_duplicates] keeps once [seen] has been
    read and [unique_results] kept. *)
Let remove_step (unique_results : list PaperSearchResult) (result : PaperSearchResult) :=
  if Search.is_duplicate result unique_results
  then unique_results else unique_results ++ [result].

Let kept_of (seen unique_results : list PaperSearchResult) : Prop :=
  unique_results `sublist_of` seen
  /\ distinct_titles unique_results
  /\ hd_error unique_results = hd_error seen
  /\ forall r, In r seen ->
       exists u, In u unique_results /\ (u = r \/ similar r u = true).

Lemma remove_duplicates_loop rest seen unique_results :
  kept_of seen unique_results -> seen <> [] ->
  kept_of (seen ++ rest) (fold_left remove_step rest unique_results).
Proof.
  revert seen unique_results.
  induction rest as [|r rest IH]; intros seen acc Hkept Hseen; simpl.
  - rewrite app_nil_r. exact Hkept.
  - replace (seen ++ r :: rest) with ((seen ++ [r]) ++ rest)
      by (rewrite <- app_assoc; reflexivity).
    apply IH; [|destruct seen; discriminate].
    destruct Hkept as (Hsub & Hdist & Hhd & Hcover).
    unfold remove_step. destruct (Search.is_duplicate r acc) eqn:Edup.
    + split; [|split; [|split]].
      * apply sublist_inserts_r, Hsub.
      * exact Hdist.
      * destruct seen as [|s seen]; [contradiction | exact Hhd].
      * intros x Hx. apply in_app_iff in Hx as [Hx|[<-|[]]]; [apply Hcover, Hx|].
        destruct (is_duplicate_true _ _ Edup) as (u & Hu & Hsim). eauto.
    + split; [|split; [|split]].
      * apply sublist_app; [exact Hsub | reflexivity].
      * apply FOP_snoc; [exact Hdist|]. apply is_duplicate_false, Edup.
      * destruct seen as [|s seen]; [contradiction|].
        destruct acc as [|a acc]; [discriminate | exact Hhd].
      * intros x Hx. apply in_app_iff in Hx as [Hx|[<-|[]]].
        -- destruct (Hcover x Hx) as (u & Hu & Hor). exists u.
           split; [apply in_app_iff; left; exact Hu | exact Hor].
        -- exists r. split; [apply in_app_iff; right; left; reflexivity | left; reflexivity].
Qed.

Lemma remove_duplicates_spec (results : list PaperSearchResult) :
  kept_of results (Search._remove_duplicates results).
Proof.
  destruct results as [|first rest].
  - split; [reflexivity|]. split; [constructor|]. split; [reflexivity|].
    intros r [].
  - assert (H0 : kept_of [first] [first]).
    { split; [reflexivity|]. split; [repeat constructor|]. split; [reflexivity|].
      intros r [Hr|[]]. exists r. split; [left; exact Hr | left; reflexivity]. }
    exact (remove_duplicates_loop rest [first] [first] H0 ltac:(discriminate)).
Qed.

(** X4: [_remove_duplicates] keeps a sublist of the results, in their
    order and starting with the first one; no result it keeps is
    similar (above 0.8) to one kept before it; and every result is
    kept or similar to a result that is kept. *)
Theorem remove_duplicates_keeps_distinct (results : list PaperSearchResult) :
  let unique_results := Search._remove_duplicates results in
  unique_results `sublist_of` results
  /\ hd_error unique_results = hd_error results
  /\ distinct_titles unique_results
  /\ forall r, In r results ->
       exists u, In u unique_results /\ (u = r \/ similar r u = true).
Proof.
  destruct (remove_duplicates_spec results) as (Hsub & Hdist & Hhd & Hcover).
  cbv zeta. auto.
Qed.

Lemma remove_duplicates_loop_fixed rest unique_results :
  distinct_titles (unique_results ++ rest) ->
  fold_left remove_step rest unique_results = unique_results ++ rest.
Proof.
  revert unique_results. induction rest as [|r rest IH]; intros acc H; simpl.
  - symmetry. apply app_nil_r.
  - pose proof (FOP_app_before _ _ _ _ H) as Hr.
    apply is_duplicate_false in Hr. unfold remove_step at 2. rewrite Hr.
    rewrite IH; rewrite <- app_assoc; [reflexivity | exact H].
Qed.

(** X5: a list in which no result is similar to an earlier one is left
    as it is by [_remove_duplicates]; so removing duplicates twice
    gives what removing them once gives. *)
Theorem remove_duplicates_idempotent (results : list PaperSearchResult) :
  (distinct_titles results -> Search._remove_duplicates results = results)
  /\ Search._remove_duplicates (Search._remove_duplicates results)
     = Search._remove_duplicates results.
Proof.
  assert (Hfix : forall l, distinct_titles l -> Search._remove_duplicates l = l).
  { intros [|first rest] H; [reflexivity|].
    unfold Search._remove_duplicates. fold remove_step.
    apply (remove_duplicates_loop_fixed rest [first]), H. }
  split; [apply Hfix|].
  apply Hfix. apply (remove_duplicates_spec results).
Qed.

End SimilarityFacts.

(** X5 on two papers with unrelated titles. *)
Lemma remove_duplicates_idempotent_witness :
  Search._remove_duplicates
    [Examples.paper "Graph transformers"; Examples.paper "Protein folding"]
  = [Examples.paper "Graph transformers"; Examples.paper "Protein folding"].
Proof.
  apply (proj1 (remove_duplicates_idempotent
                  [Examples.paper "Graph transformers";
                   Examples.paper "Protein folding"])).
  repeat constructor.
Defined.

(** ** Search: titles that differ in trailing punctuation *)

Section TrailingPunctuation.

Import PyStr Observed.

Lemma is_duplicate_app result l1 l2 :
  Search.is_duplicate result (l1 ++ l2)
  = Search.is_duplicate result l1 || Search.is_duplicate result l2.
Proof. apply existsb_app. Qed.

(** The similarity of two titles that differ in the punctuation after
    the last word is above 0.8 exactly from ten distinct words on. *)
Lemma trailing_punctuation_similar (r1 r2 : PaperSearchResult)
    (s p : string) (c : ascii) (ws : list string) (w : string) :
  psr_title r1 = s +:+ String c "" -> isspace c = false ->
  p ≠ "" -> all_chars ispunct p = true ->
  psr_title r2 = psr_title r1 +:+ p ->
  split (lower (psr_title r1)) = ws ++ [w] ->
  w ∉ ws -> w +:+ p ∉ ws ->
  similar r2 r1 = (10 <=? size (Helpers.word_set (psr_title r1)))%nat.
Proof.
  intros Ht1 Hc Hp Hpunct Ht2 Hsplit Hw Hwp.
  assert (Hsplit2 : split (lower (psr_title r2)) = ws ++ [w +:+ p]).
  { rewrite Ht2, Ht1. apply split_trailing_punctuation; try assumption.
    rewrite <- Ht1. exact Hsplit. }
  assert (Hne : w ≠ w +:+ p).
  { intros E. symmetry in E. apply sapp_fixpoint in E. contradiction. }
  destruct (word_sets_sizes ws w (w +:+ p) Hw Hwp Hne) as [Hi Hu].
  assert (Hn1 : psr_title r1 ≠ "") by (rewrite Ht1; apply sapp_snoc_nonempty).
  assert (Hn2 : psr_title r2 ≠ "") by (rewrite Ht2; apply sapp_nonempty_l, Hn1).
  assert (Hsize : size (Helpers.word_set (psr_title r1))
                  = S (size (list_to_set ws : gset string))).
  { unfold Helpers.word_set. rewrite Hsplit, list_to_set_app_L. simpl.
    rewrite size_union.
    - rewrite union_empty_r_L, size_singleton. lia.
    - apply disjoint_union_r. split; [|set_solver].
      apply disjoint_singleton_r. rewrite elem_of_list_to_set. exact Hw. }
  rewrite Hsize. unfold similar.
  rewrite (calculate_similarity_nonempty _ _ Hn2 Hn1). cbv zeta.
  unfold Helpers.word_set. rewrite Hsplit, Hsplit2, Hi, Hu.
  destruct (decide _) as [E|_]; [lia|].
  apply jaccard_threshold.
Qed.

Lemma similar_symmetric r1 r2 : similar r1 r2 = similar r2 r1.
Proof.
  unfold similar.
  destruct (psr_title r1) as [|c1 s1], (psr_title r2) as [|c2 s2]; try reflexivity.
  rewrite !calculate_similarity_nonempty by discriminate. cbv zeta.
  generalize (Helpers.word_set (String c1 s1)) (Helpers.word_set (String c2 s2)).
  intros A B.
  assert (E1 : B ∩ A = A ∩ B) by set_solver.
  assert (E2 : B ∪ A = A ∪ B) by set_solver.
  rewrite E1, E2. reflexivity.
Qed.

(** C4, as the code has it. Two results whose titles differ only in
    punctuation that trails the last word, a word that occurs nowhere
    else in the title with or without the punctuation. The test of the
    loop, a similarity above 0.8, holds of the two exactly when the
    title has at least ten distinct words. A list of just the two keeps
    the first one alone then, and both otherwise. In any list, the
    later one is tested against the results kept so far: with the
    earlier one among them it is dropped when the title has ten
    distinct words, and otherwise exactly when it is similar to another
    result that is kept; and a title of ten distinct words is never
    kept in both forms. *)
Theorem dedup_trailing_punctuation (r1 r2 : PaperSearchResult)
    (s p : string) (c : ascii) (ws : list string) (w : string) :
  psr_title r1 = s +:+ String c "" -> isspace c = false ->
  p ≠ "" -> all_chars ispunct p = true ->
  psr_title r2 = psr_title r1 +:+ p ->
  split (lower (psr_title r1)) = ws ++ [w] ->
  w ∉ ws -> w +:+ p ∉ ws ->
  let long := (10 <=? size (Helpers.word_set (psr_title r1)))%nat in
  Qltb 0.8 (Helpers.calculate_similarity (psr_title r2) (psr_title r1)) = long
  /\ Search._remove_duplicates [r1; r2] = (if long then [r1] else [r1; r2])
  /\ (forall kept1 kept2,
        Search.is_duplicate r2 (kept1 ++ r1 :: kept2)
        = long || Search.is_duplicate r2 (kept1 ++ kept2))
  /\ (forall results,
        long = true ->
        ~ (In r1 (Search._remove_duplicates results)
           /\ In r2 (Search._remove_duplicates results))).
Proof.
  intros Ht1 Hc Hp Hpunct Ht2 Hsplit Hw Hwp long.
  pose proof (trailing_punctuation_similar r1 r2 s p c ws w
                Ht1 Hc Hp Hpunct Ht2 Hsplit Hw Hwp) as Hsim.
  fold long in Hsim. unfold similar in Hsim.
  split; [exact Hsim|]. split; [|split].
  - unfold Search._remove_duplicates, Search.is_duplicate. simpl.
    rewrite Hsim, orb_false_r. reflexivity.
  - intros kept1 kept2.
    change (kept1 ++ r1 :: kept2) with (kept1 ++ [r1] ++ kept2).
    rewrite !is_duplicate_app.
    unfold Search.is_duplicate at 2. simpl. rewrite Hsim, orb_false_r.
    destruct (Search.is_duplicate r2 kept1), long; reflexivity.
  - intros results Hlong [Hin1 Hin2].
    destruct (remove_duplicates_spec results) as (_ & Hdist & _).
    destruct (ForallOrdPairs_In Hdist _ _ Hin1 Hin2) as [E|[H|H]].
    + subst r2. apply (f_equal String.length) in Ht2.
      rewrite sapp_length in Ht2. destruct p; [congruence | simpl in Ht2; lia].
    + fold (similar r2 r1) in Hsim. congruence.
    + rewrite similar_symmetric in H. fold (similar r2 r1) in Hsim. congruence.
Qed.

End TrailingPunctuation.

(** C4 on a title of ten distinct words. *)
Lemma dedup_trailing_punctuation_witness :
  let r1 := Examples.paper "a b c d e f g h i j" in
  let r2 := Examples.paper "a b c d e f g h i j." in
  Search._remove_duplicates [r1; r2] = [r1]
  /\ forall results,
       ~ (In r1 (Search._remove_duplicates results)
          /\ In r2 (Search._remove_duplicates results)).
Proof.
  intros r1 r2.
  destruct (dedup_trailing_punctuation r1 r2 "a b c d e f g h i " "." "j"%char
              ["a"; "b"; "c"; "d"; "e"; "f"; "g"; "h"; "i"] "j")
    as (_ & Hpair & _ & Hnever).
  - reflexivity.
  - reflexivity.
  - discriminate.
  - reflexivity.
  - reflexivity.
  - reflexivity.
  - intros H. apply list_elem_of_In in H. simpl in H.
    repeat (destruct H as [H|H]; [discriminate H|]). exact H.
  - intros H. apply list_elem_of_In in H. simpl in H.
    repeat (destruct H as [H|H]; [discriminate H|]). exact H.
  - split; [exact Hpair|]. intros results. apply Hnever. reflexivity.
Defined.

(** C4 as the specification has it fails: two titles of four words
    that differ only in a trailing full stop have similarity 3/5, and
    both results are kept. *)
Lemma dedup_short_title_counterexample :
  let r1 := Examples.paper "Deep Learning for Vision" in
  let r2 := Examples.paper "Deep Learning for Vision." in
  psr_title r2 = psr_title r1 +:+ "."
  /\ Helpers.calculate_similarity (psr_title r2) (psr_title r1) = (3 # 5)%Q
  /\ Search._remove_duplicates [r1; r2] = [r1; r2].
Proof. vm_compute. auto. Qed.

(** A result is tested against the results that were kept, not against
    every earlier result: here the title of ten words is dropped for
    its similarity with a title of eleven, and its punctuated form,
    which comes after it, is kept. *)
Lemma dedup_after_dropped_neighbour :
  let r0 := Examples.paper "a b c d e f g h i j k" in
  let r1 := Examples.paper "a b c d e f g h i j" in
  let r2 := Examples.paper "a b c d e f g h i j." in
  Search._remove_duplicates [r0; r1; r2] = [r0; r2].
Proof. vm_compute. reflexivity. Qed.

(** ** [retry_async] and [RateLimiter] *)

Section RetryFacts.

Import Trace.

Context {A : Type}.

Lemma retry_from_exhausts (func : M A) (e : exn) (ev : event) (delay : Q)
    (max_attempts : Z) :
  (forall w0, exists w1, func w0 = (Raise e, w1, [ev])) ->
  forall remaining attempt last w,
    (attempt + Z.of_nat (S remaining) = max_attempts)%Z ->
    exists w',
      Retry.retry_from (S remaining) attempt max_attempts delay func last w
      = (Raise e, w', concat (repeat [ev; Sleep delay] remaining) ++ [ev]).
Proof.
  intros Hfunc. induction remaining as [|r IH]; intros attempt last w Hsum.
  - destruct (Hfunc w) as (w1 & Hrun).
    cbn [Retry.retry_from]. unfold catch. rewrite Hrun.
    destruct (Z.ltb_spec attempt (max_attempts - 1)) as [?|_]; [lia|].
    eexists. reflexivity.
  - destruct (Hfunc w) as (w1 & Hrun).
    change (Retry.retry_from (S (S r)) attempt max_attempts delay func last)
      with (catch func (fun e0 =>
              (if (attempt <? max_attempts - 1)%Z then sleep delay else mret tt);;
              Retry.retry_from (S r) (attempt + 1)%Z max_attempts delay func (Some e0))).
    unfold catch. rewrite Hrun.
    destruct (Z.ltb_spec attempt (max_attempts - 1)) as [_|?]; [|lia].
    unfold mbind, M_bind, sleep.
    destruct (IH (attempt + 1)%Z (Some e)
                (set_clock (Qred (clock w1 + Qmax 0 delay)) w1) ltac:(lia))
      as (w' & Hrest).
    rewrite Hrest. eexists. reflexivity.
Qed.

(** X6: [retry_async] returns what the first attempt returns when it
    succeeds, without any sleep. When every attempt raises [e], it runs
    the coroutine [max_attempts] times, sleeps [delay] between two
    attempts and not after the last one, and raises [e]. With
    [max_attempts = 0] the coroutine is never run, and [raise None]
    gives a [TypeError]. *)
Theorem retry_async_attempts (func : M A) (delay : Q) (w : World) :
  (forall n a w1 t,
     func w = (Ok a, w1, t) ->
     Retry.retry_async (S n) delay func w = (Ok a, w1, t))
  /\ (forall n e ev,
        (forall w0, exists w1, func w0 = (Raise e, w1, [ev])) ->
        exists w',
          Retry.retry_async (S n) delay func w
          = (Raise e, w', concat (repeat [ev; Sleep delay] n) ++ [ev]))
  /\ Retry.retry_async 0 delay func w
     = (Raise (mkExn "TypeError" "exceptions must derive from BaseException"), w, []).
Proof.
  split; [|split].
  - intros n a w1 t Hrun. apply retry_async_first, Hrun.
  - intros n e ev Hfunc. unfold Retry.retry_async.
    apply (retry_from_exhausts func e ev delay (Z.of_nat (S n)) Hfunc). lia.
  - reflexivity.
Qed.

End RetryFacts.

(** X6 on a coroutine that always fails, decorated with three
    attempts two seconds apart. *)
Lemma retry_async_attempts_witness :
  exists w',
    Retry.retry_async 3 2
      (Observed.failing (CloseClient "search") (mkExn "TimeoutError" "timed out"))
      (Examples.world0 Examples.no_papers)
    = (Raise (mkExn "TimeoutError" "timed out"), w',
       [CloseClient "search"; Sleep 2; CloseClient "search"; Sleep 2;
        CloseClient "search"]).
Proof.
  apply (proj1 (proj2 (retry_async_attempts
                         (Observed.failing (CloseClient "search")
                            (mkExn "TimeoutError" "timed out"))
                         2 (Examples.world0 Examples.no_papers)))
               2%nat (mkExn "TimeoutError" "timed out") (CloseClient "search")).
  intros w0. exists w0. reflexivity.
Defined.

Section LimiterMore.

Import Trace Observed.

Lemma get_set_limiter name l w :
  Limiter.get_limiter name (Limiter.set_limiter name l w) = l.
Proof. destruct name, l; reflexivity. Qed.

Lemma clock_set_limiter name l w : clock (Limiter.set_limiter name l w) = clock w.
Proof. destruct name; reflexivity. Qed.

(** The window of the limiter [lim] at [now]: the calls it keeps. *)
Let window_at (now : Q) (lim : RateLimiter) : list Q :=
  List.filter (fun call_time => Qltb (now - time_window lim) call_time) (calls lim).

(** X7: when fewer than [max_calls] calls lie in the window,
    [wait_if_needed] returns at once: it does not sleep, the clock
    stands, and the limiter holds the calls of the window followed by
    the time of this call. *)
Theorem wait_if_needed_admits (name : limiter_name) (w : World) :
  let lim := Limiter.get_limiter name w in
  let kept := List.filter (fun call_time => Qltb (clock w - time_window lim) call_time)
                (calls lim) in
  (Z.of_nat (length kept) < max_calls lim)%Z ->
  Limiter.wait_if_needed name w
  = (Ok tt,
     Limiter.set_limiter name (Limiter.set_calls (kept ++ [clock w]) lim) w,
     [Acquire name]).
Proof.
  intros lim kept Hfree. subst lim kept.
  unfold Limiter.wait_if_needed. rewrite wait_if_needed_from_unfold.
  destruct w as [ck o a st [rl f th to lf bs] al sr cr].
  destruct name.
  all: unfold mbind, M_bind, emit, gets, modify, mret, M_ret; simpl in *.
  all: match goal with
       | |- context [(?m <=? ?k)%Z] => destruct (Z.leb_spec m k) as [?|_]; [lia|]
       end.
  all: reflexivity.
Qed.

(** The last call a wait records is the one of its entry. *)
Lemma wait_records_entry depth name w w' t :
  Limiter.wait_if_needed_from depth name w = (Ok tt, w', t) ->
  exists recorded, calls (Limiter.get_limiter name w') = recorded ++ [clock w].
Proof.
  rewrite wait_if_needed_from_unfold. intros H.
  apply bind_returns in H as (u1 & w1 & t1 & t2 & Hemit & H & _).
  inversion Hemit; subst w1.
  apply bind_returns in H as (now & w2 & t3 & t4 & Hnow & H & _).
  inversion Hnow; subst.
  apply bind_returns in H as (lim & w3 & t5 & t6 & _ & H & _).
  cbv zeta in H.
  apply bind_returns in H as (u2 & w4 & t7 & t8 & _ & H & _).
  apply bind_returns in H as (u3 & w5 & t9 & t10 & _ & H & _).
  apply bind_returns in H as (lim' & w6 & t11 & t12 & Hlim & H & _).
  inversion Hlim; subst. inversion H; subst.
  rewrite get_set_limiter. eexists. reflexivity.
Qed.

(** One level of the wait when the window is full and its oldest call
    has not left it. *)
Lemma wait_full_step d name w c cs :
  let lim := Limiter.get_limiter name w in
  let wait_time := (Limiter.oldest_of c cs + time_window lim - clock w)%Q in
  window_at (clock w) lim = c :: cs ->
  (max_calls lim <= Z.of_nat (length (c :: cs)))%Z ->
  Qltb 0 wait_time = true ->
  Limiter.wait_if_needed_from (S d) name w
  = let w1 := set_clock (Qred (clock w + Qmax 0 wait_time))
                (Limiter.set_limiter name (Limiter.set_calls (c :: cs) lim) w) in
    let '(r, w2, t2) := Limiter.wait_if_needed_from d name w1 in
    match r with
    | Ok _ =>
        (Ok tt,
         Limiter.set_limiter name
           (Limiter.set_calls (calls (Limiter.get_limiter name w2) ++ [clock w])
              (Limiter.get_limiter name w2)) w2,
         Acquire name :: Sleep wait_time :: t2)
    | Raise e => (Raise e, w2, Acquire name :: Sleep wait_time :: t2)
    end.
Proof.
  intros lim wait_time Hkept Hfull Hwait. subst lim wait_time. unfold window_at in Hkept.
  rewrite wait_if_needed_from_unfold.
  unfold mbind, M_bind, emit, gets, modify, sleep. cbv beta iota zeta.
  rewrite Hkept.
  destruct (Z.leb_spec (max_calls (Limiter.get_limiter name w))
              (Z.of_nat (length (c :: cs)))) as [_|?]; [|lia].
  rewrite Hwait. rewrite clock_set_limiter.
  destruct (Limiter.wait_if_needed_from d name _) as [[[[]|e] w2] t2];
    cbn [app]; rewrite ?app_nil_r; reflexivity.
Qed.

Lemma Qmax_positive (x : Q) : (0 < x)%Q -> Qmax 0 x = x.
Proof.
  intros H. unfold Qmax, GenericMinMax.gmax.
  apply Qlt_alt in H. unfold Qcompare in *. rewrite H. reflexivity.
Qed.

(** X8: when the window is full and its oldest call has not left it,
    [wait_if_needed] sleeps until that call leaves the window, and the
    call that waited is recorded twice: by the recursive call at the
    time after the sleep, and then by the outer call at the time of
    entry. *)
Theorem wait_if_needed_full (name : limiter_name) (w : World) (c : Q) (cs : list Q) :
  let lim := Limiter.get_limiter name w in
  let wait_time := (Limiter.oldest_of c cs + time_window lim - clock w)%Q in
  List.filter (fun call_time => Qltb (clock w - time_window lim) call_time) (calls lim)
  = c :: cs ->
  (0 < max_calls lim <= Z.of_nat (length (c :: cs)))%Z ->
  (0 < wait_time)%Q ->
  exists w' t recorded later,
    Limiter.wait_if_needed name w
    = (Ok tt, w', Acquire name :: Sleep wait_time :: t)
    /\ calls (Limiter.get_limiter name w') = recorded ++ [later; clock w]
    /\ (later == Limiter.oldest_of c cs + time_window lim)%Q.
Proof.
  intros lim wait_time Hkept [Hmax Hfull] Hwait.
  assert (Hwaitb : Qltb 0 wait_time = true) by (apply Qltb_true, Hwait).
  unfold Limiter.wait_if_needed. fold lim.
  assert (Hdepth : (length (c :: cs) <= length (calls lim))%nat).
  { rewrite <- Hkept. apply List.filter_length_le. }
  destruct (length (calls lim)) as [|d] eqn:Ed; [simpl in Hdepth; lia|].
  rewrite (wait_full_step d name w c cs Hkept Hfull Hwaitb). cbv zeta.
  fold lim wait_time.
  set (w1 := set_clock (Qred (clock w + Qmax 0 wait_time))
               (Limiter.set_limiter name (Limiter.set_calls (c :: cs) lim) w)).
  assert (Hlim1 : Limiter.get_limiter name w1 = Limiter.set_calls (c :: cs) lim).
  { unfold w1. rewrite get_limiter_set_clock. apply get_set_limiter. }
  destruct (wait_if_needed_from_spec d name w1)
    as (r & c2 & l2 & t2 & Hrun & _ & _ & _ & _ & Hok).
  assert (Hr : r = Ok tt).
  { apply Hok; rewrite Hlim1; [exact Hmax|].
    cbn [time_window calls Limiter.set_calls].
    pose proof (filter_drops
      (fun t => Qltb (clock w1 - time_window lim) t)
      (c :: cs) (Limiter.oldest_of c cs) (oldest_of_In c cs)) as Hdrop.
    assert (Hgone : Qltb (clock w1 - time_window lim) (Limiter.oldest_of c cs) = false).
    { unfold w1. cbn [clock set_clock]. apply slept_past_oldest, Hwait. }
    specialize (Hdrop Hgone). lia. }
  subst r.
  destruct (wait_records_entry _ _ _ _ _ Hrun) as (recorded & Hrec).
  rewrite Hrun.
  eexists _, t2, recorded, (clock w1). split; [reflexivity|]. split.
  - rewrite get_set_limiter. cbn [calls Limiter.set_calls].
    rewrite Hrec, <- app_assoc. reflexivity.
  - unfold w1. cbn [clock set_clock].
    rewrite Qred_correct, (Qmax_positive _ Hwait). unfold wait_time. ring.
Qed.

Lemma closed_positive_wait : closed (Forall positive_wait).
Proof. split; [constructor | intros; apply Forall_app; auto]. Qed.

Lemma wait_sleeps_positive depth name :
  triple (fun _ => True) (Forall positive_wait)
    (Limiter.wait_if_needed_from depth name) (fun _ => True).
Proof.
  pose proof stable_any as HInv. pose proof closed_positive_wait as HT.
  induction depth as [|d IH]; rewrite wait_if_needed_from_unfold.
  all: tstep; [eapply triple_emit; try eassumption;
                 [repeat constructor | exact I]|].
  all: tstep; [tstep|]. all: tstep; [tstep|]. all: cbv zeta.
  all: tstep; [eapply triple_modify; try eassumption; auto|].
  all: tstep; [|tstep; [tstep|]; eapply triple_modify; try eassumption; auto].
  all: tstep; [|tstep]. all: tstep; [tstep|].
  all: match goal with
       | |- triple _ _ (if Qltb 0 ?x then _ else _) _ =>
           destruct (Qltb 0 x) eqn:Ewait; [|tstep]
       end.
  all: apply Qltb_true in Ewait.
  all: tstep; [eapply triple_sleep; try eassumption;
                 [repeat constructor; exact Ewait | exact I]|].
  - tstep.
  - exact IH.
Qed.

(** X9: a limiter that admits at least one call lets every caller
    through: [wait_if_needed] returns, having only entered the limiter
    and slept for positive durations; it changes the clock and the
    calls of the limiter and nothing else, and the last call recorded
    is the time of entry. A limiter that admits no call raises
    [ValueError] when its window is empty. *)
Theorem wait_if_needed_returns (name : limiter_name) (w : World) :
  let lim := Limiter.get_limiter name w in
  ((0 < max_calls lim)%Z ->
   exists now' lim' t recorded,
     Limiter.wait_if_needed name w
     = (Ok tt, Limiter.set_limiter name lim' (set_clock now' w), t)
     /\ max_calls lim' = max_calls lim
     /\ time_window lim' = time_window lim
     /\ calls lim' = recorded ++ [clock w]
     /\ Forall positive_wait t
     /\ ends_acquired name t)
  /\ ((max_calls lim <= 0)%Z ->
      List.filter (fun call_time => Qltb (clock w - time_window lim) call_time)
        (calls lim) = [] ->
      exists w',
        Limiter.wait_if_needed name w
        = (Raise (mkExn "ValueError" "min() arg is an empty sequence"), w',
           [Acquire name])).
Proof.
  intros lim. split.
  - intros Hmax.
    destruct (wait_if_needed_spec name w)
      as (r & c' & l' & t & Hrun & Hm & Hw & _ & Hend & Hok).
    specialize (Hok Hmax). subst r.
    pose proof (wait_sleeps_positive (length (calls (Limiter.get_limiter name w)))
                  name w I) as Hpos.
    unfold Limiter.wait_if_needed in Hrun. rewrite Hrun in Hpos.
    destruct (wait_records_entry _ _ _ _ _ Hrun) as (recorded & Hrec).
    rewrite get_set_limiter in Hrec.
    exists c', l', t, recorded. unfold Limiter.wait_if_needed. rewrite Hrun.
    repeat split; try assumption; [tauto | apply Hend; reflexivity].
  - intros Hmax Hempty. subst lim.
    unfold Limiter.wait_if_needed. rewrite wait_if_needed_from_unfold.
    unfold mbind, M_bind, emit, gets, modify, sleep. cbv beta iota zeta.
    rewrite Hempty.
    destruct (Z.leb_spec (max_calls (Limiter.get_limiter name w))
                (Z.of_nat (length (@nil Q)))) as [_|?]; [|simpl in *; lia].
    eexists. reflexivity.
Qed.

End LimiterMore.

(** X7 on the arXiv limiter with two of its five calls in the window. *)
Lemma wait_if_needed_admits_witness :
  let w := Observed.world_at 100 (mkRateLimiter 5 60 [10%Q; 50%Q; 70%Q]) in
  Limiter.wait_if_needed ArxivLimiter w
  = (Ok tt,
     Limiter.set_limiter ArxivLimiter (mkRateLimiter 5 60 [50%Q; 70%Q; 100%Q]) w,
     [Acquire ArxivLimiter]).
Proof.
  apply (wait_if_needed_admits ArxivLimiter
           (Observed.world_at 100 (mkRateLimiter 5 60 [10%Q; 50%Q; 70%Q]))).
  reflexivity.
Defined.

(** X8 on a limiter of one call per minute, entered ten seconds after
    its last call. *)
Lemma wait_if_needed_full_witness :
  let w := Observed.world_at 10 (mkRateLimiter 1 60 [0%Q]) in
  exists w' t recorded later,
    Limiter.wait_if_needed ArxivLimiter w
    = (Ok tt, w', Acquire ArxivLimiter :: Sleep (0 + 60 - 10) :: t)
    /\ calls (Limiter.get_limiter ArxivLimiter w') = recorded ++ [later; 10%Q]
    /\ (later == 0 + 60)%Q.
Proof.
  apply (wait_if_needed_full ArxivLimiter
           (Observed.world_at 10 (mkRateLimiter 1 60 [0%Q])) 0%Q []).
  - reflexivity.
  - simpl. lia.
  - reflexivity.
Defined.

(** X9 on the same limiter, and on a limiter that admits no call. *)
Lemma wait_if_needed_returns_witness :
  (exists now' lim' t recorded,
     Limiter.wait_if_needed ArxivLimiter
       (Observed.world_at 10 (mkRateLimiter 1 60 [0%Q]))
     = (Ok tt,
        Limiter.set_limiter ArxivLimiter lim'
          (set_clock now' (Observed.world_at 10 (mkRateLimiter 1 60 [0%Q]))), t)
     /\ max_calls lim' = 1%Z
     /\ time_window lim' = 60%Q
     /\ calls lim' = recorded ++ [10%Q]
     /\ Forall Observed.positive_wait t
     /\ Trace.ends_acquired ArxivLimiter t)
  /\ (exists w',
        Limiter.wait_if_needed ArxivLimiter
          (Observed.world_at 10 (mkRateLimiter 0 60 []))
        = (Raise (mkExn "ValueError" "min() arg is an empty sequence"), w',
           [Acquire ArxivLimiter])).
Proof.
  split.
  - apply (proj1 (wait_if_needed_returns ArxivLimiter
                    (Observed.world_at 10 (mkRateLimiter 1 60 [0%Q])))).
    reflexivity.
  - apply (proj2 (wait_if_needed_returns ArxivLimiter
                    (Observed.world_at 10 (mkRateLimiter 0 60 [])))).
    + simpl. lia.
    + reflexivity.
Defined.

(** ** [app/services/search_service.py] and [app/services/grobid_client.py] *)

Section TotalFacts.

Import Trace.

Lemma total_bind {A B} (c : M A) (f : A -> M B) :
  total c -> (forall a, total (f a)) -> total (c ≫= f).
Proof.
  intros Hc Hf w. destruct (Hc w) as (a & w1 & t1 & Hrun).
  destruct (Hf a w1) as (b & w2 & t2 & Hrun2).
  exists b, w2, (t1 ++ t2). unfold mbind, M_bind. rewrite Hrun, Hrun2. reflexivity.
Qed.

Lemma total_ret {A} (a : A) : total (mret a).
Proof. intros w. exists a, w, []. reflexivity. Qed.

Lemma total_search_arxiv query limit : total (Search._search_arxiv query limit).
Proof.
  intros w. rewrite search_arxiv_once.
  apply (total_catch_ret (Search._search_arxiv_try query limit) (fun _ => [])).
Qed.

Lemma total_search_papers query max_results :
  total (Search.search_papers query max_results).
Proof.
  unfold Search.search_papers.
  apply total_bind; [apply total_search_arxiv|]. intros results. cbv zeta.
  apply total_bind; [|intros; apply total_ret].
  destruct (length results =? 0)%nat; [|apply total_ret]. cbv zeta.
  apply total_bind.
  - destruct (2 <? _)%nat; [|apply total_ret].
    apply total_bind; [apply total_search_arxiv | intros; apply total_ret].
  - intros all. destruct (_ && _); [|apply total_ret].
    apply total_bind; [apply total_search_arxiv | intros; apply total_ret].
Qed.

End TotalFacts.

Section SearchMore.

Import Trace Observed.

(** The number of queries in the events of a coroutine. *)
Let queries_at_most (n : nat) (t : list event) : Prop :=
  (length (queries_sent t) <= n)%nat.

Lemma queries_bind {A B} n m (c : M A) (f : A -> M B) w :
  queries_at_most n (events_of (c w)) ->
  (forall a w', queries_at_most m (events_of (f a w'))) ->
  queries_at_most (n + m) (events_of ((c ≫= f) w)).
Proof.
  unfold queries_at_most. intros Hc Hf. rewrite events_bind, queries_sent_app, length_app.
  destruct (result_of (c w)); [specialize (Hf a (world_of (c w)))|]; simpl; lia.
Qed.

Lemma queries_search_arxiv query limit w :
  queries_at_most 1 (events_of (Search._search_arxiv query limit w)).
Proof.
  rewrite search_arxiv_once. unfold queries_at_most.
  rewrite events_catch, queries_sent_app, length_app.
  assert (Htry : (length (queries_sent
                    (events_of (Search._search_arxiv_try query limit w))) <= 1)%nat).
  { unfold Search._search_arxiv_try.
    apply (queries_bind 0 1).
    - destruct (wait_if_needed_spec ArxivLimiter w)
        as (r & c' & l' & t1 & Hrun & _ & _ & Ht1 & _ & _).
      rewrite Hrun. unfold queries_at_most, events_of. simpl.
      rewrite (queries_sent_waiting _ Ht1). simpl. lia.
    - intros [] w1. cbv zeta. apply (queries_bind 1 0).
      + unfold queries_at_most. simpl. lia.
      + intros r w2. unfold queries_at_most.
        destruct r; simpl; try lia.
        destruct (status_code =? 200)%Z; [destruct entries|]; simpl; lia. }
  destruct (result_of _); simpl; lia.
Qed.

Lemma queries_search_papers query max_results w :
  queries_at_most 3 (events_of (Search.search_papers query max_results w)).
Proof.
  unfold Search.search_papers.
  apply (queries_bind 1 2); [apply queries_search_arxiv|].
  intros results w1. cbv zeta.
  apply (queries_bind 2 0); [|intros; unfold queries_at_most; simpl; lia].
  destruct (length results =? 0)%nat; [|unfold queries_at_most; simpl; lia].
  cbv zeta. apply (queries_bind 1 1).
  - destruct (2 <? _)%nat; [|unfold queries_at_most; simpl; lia].
    apply (queries_bind 1 0); [apply queries_search_arxiv|].
    intros; unfold queries_at_most; simpl; lia.
  - intros all w2. destruct (_ && _); [|unfold queries_at_most; simpl; lia].
    apply (queries_bind 1 0); [apply queries_search_arxiv|].
    intros; unfold queries_at_most; simpl; lia.
Qed.

Lemma FOP_firstn {A} (R : A -> A -> Prop) (n : nat) (l : list A) :
  ForallOrdPairs R l -> ForallOrdPairs R (firstn n l).
Proof.
  intros H. revert n. induction H as [|x l Hx Hl IH]; intros [|n]; simpl;
    try constructor.
  - apply Forall_take, Hx.
  - apply IH.
Qed.

(** X10: [search_papers] never raises, whatever arXiv and the limiter
    do: it returns a list in which no result is similar to an earlier
    one, of at most [max_results] results when [max_results] is not
    negative; it sends at most three queries and never calls the
    model. *)
Theorem search_papers_returns (query : string) (max_results : Z) (w : World) :
  exists results w' t,
    Search.search_papers query max_results w = (Ok results, w', t)
    /\ distinct_titles results
    /\ ((0 <= max_results)%Z -> (Z.of_nat (length results) <= max_results)%Z)
    /\ (length (queries_sent t) <= 3)%nat
    /\ prompts t = [].
Proof.
  destruct (total_search_papers query max_results w) as (results & w' & t & Hrun).
  exists results, w', t. split; [exact Hrun|].
  pose proof (queries_search_papers query max_results w) as Hq.
  pose proof (calls_search_papers query max_results w) as Hc.
  rewrite Hrun in Hq, Hc. apply calls_none in Hc.
  unfold Search.search_papers in Hrun.
  apply bind_returns in Hrun as (r1 & w1 & t1 & t2 & _ & Hrun & _).
  cbv zeta in Hrun.
  apply bind_returns in Hrun as (all & w2 & t3 & t4 & _ & Hrun & _).
  inversion Hrun; subst. clear Hrun.
  split; [|split; [|split]]; [| |exact Hq|exact Hc].
  - unfold Search.slice_to. destruct (0 <=? max_results)%Z;
      apply FOP_firstn, (remove_duplicates_spec all).
  - intros Hmax. unfold Search.slice_to.
    destruct (Z.leb_spec 0 max_results) as [_|?]; [|lia].
    rewrite length_firstn. lia.
Qed.

End SearchMore.

Section GrobidMore.

Import Trace.

Variable _parse_tei_xml : list Byte.byte -> ExtractedContent.

(** X11: an answer to the first post that is not a 503 ends
    [_extract_with_retry] at once, with one post and no sleep: a 200
    gives the parsed body, a 500 the failure that names a corrupted
    PDF, every other status the failure that carries the status. *)
Theorem extract_first_answer_decides (pdf_bytes : list Byte.byte) (n : nat)
    (w : World) (status_code : Z) (content : list Byte.byte) :
  (1000 <= length pdf_bytes)%nat ->
  oracle w (asked w) (GrobidPost pdf_bytes) = Response status_code content ->
  status_code <> 503%Z ->
  Grobid._extract_with_retry _parse_tei_xml pdf_bytes (S n) w
  = (Ok (if (status_code =? 200)%Z then _parse_tei_xml content
         else if (status_code =? 500)%Z
         then failed_extraction
                "GROBID internal server error - PDF may be corrupted or invalid"
         else failed_extraction ("GROBID error: " +:+ pretty status_code)),
     set_asked (S (asked w)) w,
     [GrobidPost pdf_bytes]).
Proof.
  intros Hlen Hreply Hstatus.
  unfold Grobid._extract_with_retry. apply Nat.ltb_ge in Hlen. rewrite Hlen.
  cbn [Grobid.extract_attempts].
  unfold catch, mbind, M_bind, ask. rewrite Hreply. cbn [Grobid.expect_response].
  unfold mret, M_ret.
  destruct (status_code =? 200)%Z; [reflexivity|].
  destruct (Z.eqb_spec status_code 503) as [?|_]; [contradiction|].
  destruct (status_code =? 500)%Z; reflexivity.
Qed.

(** X12: when every post fails with an exception,
    [_extract_with_retry] posts three times, sleeps 2 seconds after
    the first failure and 4 after the second, does not sleep after
    the third, and returns the failure of the exhausted attempts. *)
Theorem extract_failures_back_off (pdf_bytes : list Byte.byte) (w : World) :
  (1000 <= length pdf_bytes)%nat ->
  (forall n, exists e, oracle w n (GrobidPost pdf_bytes) = Fault e) ->
  exists w',
    Grobid._extract_with_retry _parse_tei_xml pdf_bytes 3 w
    = (Ok (failed_extraction "GROBID extraction failed after all retry attempts"),
       w',
       [GrobidPost pdf_bytes; Sleep 2; GrobidPost pdf_bytes; Sleep 4;
        GrobidPost pdf_bytes]).
Proof.
  intros Hlen Hfault.
  unfold Grobid._extract_with_retry.
  apply Nat.ltb_ge in Hlen. rewrite Hlen.
  destruct (Hfault (asked w)) as [e1 H1].
  destruct (Hfault (S (asked w))) as [e2 H2].
  destruct (Hfault (S (S (asked w)))) as [e3 H3].
  unfold Grobid.extract_attempts, catch, mbind, M_bind, ask, sleep; simpl.
  rewrite H1; simpl. rewrite H2; simpl. rewrite H3; simpl.
  eexists. reflexivity.
Qed.

End GrobidMore.

(** X11 on a service that answers 500. *)
Lemma extract_first_answer_decides_witness :
  Grobid._extract_with_retry Examples.no_tei Examples.pdf1000 3
    (Examples.world0 (fun _ _ => Response 500 []))
  = (Ok (failed_extraction
           "GROBID internal server error - PDF may be corrupted or invalid"),
     set_asked 1 (Examples.world0 (fun _ _ => Response 500 [])),
     [GrobidPost Examples.pdf1000]).
Proof.
  apply (extract_first_answer_decides Examples.no_tei Examples.pdf1000 2
           (Examples.world0 (fun _ _ => Response 500 [])) 500 []).
  - vm_compute. lia.
  - reflexivity.
  - discriminate.
Defined.

(** X12 on a service that cannot be reached. *)
Lemma extract_failures_back_off_witness :
  exists w',
    Grobid._extract_with_retry Examples.no_tei Examples.pdf1000 3
      (Examples.world0 (fun _ _ => Fault (mkExn "ConnectError" "connection refused")))
    = (Ok (failed_extraction "GROBID extraction failed after all retry attempts"),
       w',
       [GrobidPost Examples.pdf1000; Sleep 2; GrobidPost Examples.pdf1000;
        Sleep 4; GrobidPost Examples.pdf1000]).
Proof.
  apply (extract_failures_back_off Examples.no_tei Examples.pdf1000
           (Examples.world0
              (fun _ _ => Fault (mkExn "ConnectError" "connection refused")))).
  - vm_compute. lia.
  - intros n. eexists. reflexivity.
Defined.

Section DownloadFacts.

Import Trace.

(** The requests [_download_pdf] can send for [url], in order: the
    direct download, the download with the user agent of a browser,
    and the alternative addresses. *)
Let requests_for (url : string) : list event :=
  [HttpGet url false; HttpGet url true]
  ++ map (fun alt_url => HttpGet alt_url false)
       (match Grobid.alternative_urls_of url with
        | Ok alternative_urls => alternative_urls
        | Raise _ => []
        end).

Lemma direct_download_events url w :
  events_of (Grobid._try_direct_download url w) = [HttpGet url false].
Proof.
  unfold Grobid._try_direct_download, mbind, M_bind, ask, events_of. simpl.
  destruct (oracle w (asked w) (HttpGet url false)); simpl; try reflexivity.
  destruct (status_code =? 200)%Z; [|reflexivity].
  destruct (length content <? 1000)%nat; reflexivity.
Qed.

Lemma user_agent_download_events url w :
  events_of (Grobid._try_with_user_agent url w) = [HttpGet url true].
Proof.
  unfold Grobid._try_with_user_agent, mbind, M_bind, ask, events_of. simpl.
  destruct (oracle w (asked w) (HttpGet url true)); simpl; try reflexivity.
  destruct (status_code =? 200)%Z; [|reflexivity].
  destruct (length content <? 1000)%nat; reflexivity.
Qed.

Lemma try_urls_events urls w :
  exists k, events_of (Grobid.try_urls urls w)
            = firstn k (map (fun alt_url => HttpGet alt_url false) urls).
Proof.
  revert w. induction urls as [|u urls IH]; intros w.
  - exists 0%nat. reflexivity.
  - cbn [Grobid.try_urls]. rewrite events_bind, events_catch.
    assert (Hask : forall w0,
      events_of
        ((response ← ask (HttpGet u false) ≫= Grobid.expect_response;
          let '(status_code, content) := response in
          if (status_code =? 200)%Z then mret (Return (Some content))
          else mret Continue) w0) = [HttpGet u false]).
    { intros w0. unfold mbind, M_bind, ask, events_of. simpl.
      destruct (oracle w0 (asked w0) (HttpGet u false)); simpl; try reflexivity.
      destruct (status_code =? 200)%Z; reflexivity. }
    rewrite Hask.
    set (first := catch _ _ w).
    assert (Hhandler :
      match result_of
              ((response ← ask (HttpGet u false) ≫= Grobid.expect_response;
                let '(status_code, content) := response in
                if (status_code =? 200)%Z then mret (Return (Some content))
                else mret Continue) w) with
      | Ok _ => []
      | Raise e => events_of (mret (M := M) (@Continue (option (list Byte.byte)))
                                (world_of
                                   ((response ← ask (HttpGet u false)
                                                ≫= Grobid.expect_response;
                                     let '(status_code, content) := response in
                                     if (status_code =? 200)%Z
                                     then mret (Return (Some content))
                                     else mret Continue) w)))
      end = []) by (destruct (result_of _); reflexivity).
    rewrite Hhandler. cbn [app].
    destruct (result_of first) as [[r|]|e].
    + exists 1%nat. reflexivity.
    + destruct (IH (world_of first)) as (k & Hk). exists (S k).
      simpl. rewrite Hk. reflexivity.
    + exists 1%nat. reflexivity.
Qed.

Lemma alternative_urls_events url w :
  exists k, events_of (Grobid._try_alternative_urls url w)
            = firstn k (map (fun alt_url => HttpGet alt_url false)
                          (match Grobid.alternative_urls_of url with
                           | Ok alternative_urls => alternative_urls
                           | Raise _ => []
                           end)).
Proof.
  unfold Grobid._try_alternative_urls.
  destruct (Grobid.alternative_urls_of url) as [urls|e].
  - apply try_urls_events.
  - exists 0%nat. reflexivity.
Qed.

Lemma total_download_with attempts url :
  total (Grobid.download_with attempts url).
Proof.
  induction attempts as [|f attempts IH]; [apply total_ret|].
  cbn [Grobid.download_with]. apply total_bind.
  - apply (total_catch_ret _ (fun _ => Continue)).
  - intros [r|]; [apply total_ret | exact IH].
Qed.

Lemma download_with_result attempts url w r w' t :
  Grobid.download_with attempts url w = (Ok r, w', t) ->
  r = None \/ exists b bs, r = Some (b :: bs).
Proof.
  revert w t. induction attempts as [|f attempts IH]; intros w t H.
  - inversion H. left. reflexivity.
  - cbn [Grobid.download_with] in H.
    apply bind_returns in H as (s & w1 & t1 & t2 & Hs & H & _).
    destruct s as [r0|]; [|eapply IH, H].
    inversion H; subst r0.
    apply catch_returns in Hs as [Hs|(e & w2 & t3 & t4 & _ & Hs & _)];
      [|discriminate].
    apply bind_returns in Hs as (result & w2 & t3 & t4 & _ & Hs & _).
    destruct result as [[|b bs]|]; try discriminate.
    inversion Hs. right. eauto.
Qed.

(** The events of one strategy under the [try] of the loop. *)
Lemma strategy_events (f : string -> M (option (list Byte.byte))) url w :
  events_of
    (catch
       (result ← f url;
        match result with
        | Some (b :: bs) => mret (Return (Some (b :: bs)))
        | _ => mret Continue
        end)
       (fun _ => mret Continue) w)
  = events_of (f url w).
Proof.
  unfold catch, mbind, M_bind, events_of.
  destruct (f url w) as [[[[[|b bs]|]|e] w1] t1]; simpl; rewrite ?app_nil_r;
    reflexivity.
Qed.

Lemma download_pdf_spec (url : string) (w : World) :
  exists r w' k,
    Grobid._download_pdf url w
    = (Ok r, w',
       firstn (S k)
         ([HttpGet url false; HttpGet url true]
          ++ map (fun alt_url => HttpGet alt_url false)
               (match Grobid.alternative_urls_of url with
                | Ok alternative_urls => alternative_urls
                | Raise _ => []
                end)))
    /\ (r = None \/ exists b bs, r = Some (b :: bs)).
Proof.
  destruct (total_download_with
              [Grobid._try_direct_download; Grobid._try_with_user_agent;
               Grobid._try_alternative_urls] url w) as (r & w' & t & Hrun).
  pose proof (download_with_result _ _ _ _ _ _ Hrun) as Hr.
  assert (Ht : exists k, t = firstn (S k) (requests_for url)).
  { assert (E : t = events_of (Grobid._download_pdf url w))
      by (unfold Grobid._download_pdf; rewrite Hrun; reflexivity).
    rewrite E. unfold Grobid._download_pdf. cbn [Grobid.download_with].
    rewrite events_bind, strategy_events, direct_download_events.
    destruct (result_of _) as [[r1|]|e1]; [exists 0%nat; reflexivity | |
                                           exists 0%nat; reflexivity].
    rewrite events_bind, strategy_events, user_agent_download_events.
    destruct (result_of _) as [[r2|]|e2]; [exists 1%nat; reflexivity | |
                                           exists 1%nat; reflexivity].
    rewrite events_bind, strategy_events.
    match goal with
    | |- context [events_of (Grobid._try_alternative_urls url ?W)] =>
        destruct (alternative_urls_events url W) as (k & Hk); rewrite Hk
    end.
    exists (S k). unfold requests_for.
    destruct (result_of _) as [[r3|]|e3]; cbn [app firstn events_of mret M_ret];
      rewrite ?app_nil_r; reflexivity. }
  destruct Ht as (k & ->). exists r, w', k. split; [exact Hrun | exact Hr].
Qed.

(** X13: [_download_pdf] never raises. It returns [None] or bytes
    that are not empty, and the requests it sends are a beginning of
    the sequence: the address as it is, the address with the user
    agent of a browser, then the alternative addresses; the first of
    them is always sent. *)
Theorem download_pdf_returns (url : string) (w : World) :
  exists r w' k,
    Grobid._download_pdf url w
    = (Ok r, w',
       firstn (S k)
         ([HttpGet url false; HttpGet url true]
          ++ map (fun alt_url => HttpGet alt_url false)
               (match Grobid.alternative_urls_of url with
                | Ok alternative_urls => alternative_urls
                | Raise _ => []
                end)))
    /\ (r = None \/ exists b bs, r = Some (b :: bs)).
Proof. exact (download_pdf_spec url w). Qed.

(** X14: for an address of [ncbi.nlm.nih.gov] (and not of
    [arxiv.org]) [_try_alternative_urls] raises [UnboundLocalError]
    before any request: the module [re] is bound in the arXiv branch
    only. For an address of neither site it returns [None] without a
    request. [_download_pdf] then stops after its two downloads of the
    address itself. *)
Theorem alternative_urls_pmc_unbound (url : string) (w : World) :
  PyStr.contains "arxiv.org" url = false ->
  (if PyStr.contains "ncbi.nlm.nih.gov" url
   then Grobid._try_alternative_urls url w
        = (Raise (mkExn "UnboundLocalError"
                    "cannot access local variable 're' where it is not associated with a value"),
           w, [])
   else Grobid._try_alternative_urls url w = (Ok None, w, []))
  /\ exists r w' k,
       Grobid._download_pdf url w
       = (Ok r, w', firstn (S k) [HttpGet url false; HttpGet url true]).
Proof.
  intros Harxiv. split.
  - unfold Grobid._try_alternative_urls, Grobid.alternative_urls_of.
    rewrite Harxiv. destruct (PyStr.contains "ncbi.nlm.nih.gov" url); reflexivity.
  - destruct (download_pdf_spec url w) as (r & w' & k & Hrun & _).
    exists r, w', k. rewrite Hrun. f_equal. f_equal.
    unfold Grobid.alternative_urls_of. rewrite Harxiv.
    destruct (PyStr.contains "ncbi.nlm.nih.gov" url); reflexivity.
Qed.

End DownloadFacts.

(** X14 on an article of PubMed Central. *)
Lemma alternative_urls_pmc_unbound_witness :
  Grobid._try_alternative_urls "https://www.ncbi.nlm.nih.gov/pmc/articles/PMC12345/"
    (Examples.world0 Examples.no_papers)
  = (Raise (mkExn "UnboundLocalError"
              "cannot access local variable 're' where it is not associated with a value"),
     Examples.world0 Examples.no_papers, [])
  /\ exists r w' k,
       Grobid._download_pdf "https://www.ncbi.nlm.nih.gov/pmc/articles/PMC12345/"
         (Examples.world0 Examples.no_papers)
       = (Ok r, w',
          firstn (S k)
            [HttpGet "https://www.ncbi.nlm.nih.gov/pmc/articles/PMC12345/" false;
             HttpGet "https://www.ncbi.nlm.nih.gov/pmc/articles/PMC12345/" true]).
Proof.
  exact (alternative_urls_pmc_unbound
           "https://www.ncbi.nlm.nih.gov/pmc/articles/PMC12345/"
           (Examples.world0 Examples.no_papers) eq_refl).
Defined.

(** ** What a coroutine keeps of the world *)

Section Keeps.

Import Trace Observed.

Variable R : World -> World -> Prop.
Hypothesis R_refl : forall w, R w w.
Hypothesis R_trans : forall w1 w2 w3, R w1 w2 -> R w2 w3 -> R w1 w3.
Hypothesis R_clock : forall w c, R w (set_clock c w).
Hypothesis R_asked : forall w n, R w (set_asked n w).
Hypothesis R_limiter : forall name w l, R w (Limiter.set_limiter name l w).

Lemma keeps_ret {X} (a : X) : keeps R (mret a).
Proof. intros w. apply R_refl. Qed.

Lemma keeps_raise {X} (e : exn) : keeps R (raise (A := X) e).
Proof. intros w. apply R_refl. Qed.

Lemma keeps_bind {X Y} (c : M X) (f : X -> M Y) :
  keeps R c -> (forall a, keeps R (f a)) -> keeps R (c ≫= f).
Proof.
  intros Hc Hf w. specialize (Hc w). unfold mbind, M_bind, world_of in *.
  destruct (c w) as [[[a|e] w1] t1]; [|exact Hc].
  specialize (Hf a w1). unfold world_of in Hf.
  destruct (f a w1) as [[r w2] t2]. simpl in *. eapply R_trans; eassumption.
Qed.

Lemma keeps_catch {X} (c : M X) (h : exn -> M X) :
  keeps R c -> (forall e, keeps R (h e)) -> keeps R (catch c h).
Proof.
  intros Hc Hh w. specialize (Hc w). unfold catch, world_of in *.
  destruct (c w) as [[[a|e] w1] t1]; [exact Hc|].
  specialize (Hh e w1). unfold world_of in Hh.
  destruct (h e w1) as [[r w2] t2]. simpl in *. eapply R_trans; eassumption.
Qed.

Lemma keeps_gets {X} (f : World -> X) : keeps R (gets f).
Proof. intros w. apply R_refl. Qed.

Lemma keeps_emit e : keeps R (emit e).
Proof. intros w. apply R_refl. Qed.

Lemma keeps_ask e : keeps R (ask e).
Proof. intros w. apply R_asked. Qed.

Lemma keeps_sleep d : keeps R (sleep d).
Proof. intros w. apply R_clock. Qed.

Lemma keeps_expect_text r : keeps R (expect_text r).
Proof. destruct r; first [apply keeps_ret | apply keeps_raise]. Qed.

Lemma keeps_wait_if_needed name : keeps R (Limiter.wait_if_needed name).
Proof.
  intros w.
  destruct (wait_if_needed_spec name w) as (r & c' & l' & t & Hrun & _).
  rewrite Hrun. unfold world_of. simpl.
  eapply R_trans; [apply R_clock | apply R_limiter].
Qed.

Lemma keeps_retry_from {X} (func : M X) remaining attempt max_attempts delay last :
  keeps R func ->
  keeps R (Retry.retry_from remaining attempt max_attempts delay func last).
Proof.
  intros Hf. revert attempt last.
  induction remaining as [|r IH]; intros attempt last; simpl.
  - destruct last; apply keeps_raise.
  - apply keeps_catch; [exact Hf|]. intros e. apply keeps_bind.
    + destruct (attempt <? max_attempts - 1)%Z; [apply keeps_sleep | apply keeps_ret].
    + intros _. apply IH.
Qed.

Lemma keeps_exponential_backoff attempt base_delay :
  keeps R (Gemini._exponential_backoff attempt base_delay).
Proof.
  unfold Gemini._exponential_backoff, Gemini.random_uniform.
  destruct (1024 <=? attempt)%Z; [apply keeps_raise|].
  apply keeps_bind.
  - apply keeps_bind; [apply keeps_ask|]. intros r.
    destruct r; apply keeps_ret.
  - intros jitter. apply keeps_sleep.
Qed.

End Keeps.

(** Proofs that a coroutine keeps a relation, whose laws are among
    the hypotheses, by the structure of the coroutine; [tac] closes
    the calls the structure does not. *)
Ltac kgo tac :=
  repeat
    (intros;
     first
       [ tac
       | match goal with
         | |- Observed.keeps _ (match ?x with _ => _ end) => destruct x
         | |- Observed.keeps _ (_ ≫= _) => eapply keeps_bind; [eassumption| |]
         | |- Observed.keeps _ (catch _ _) => eapply keeps_catch; [eassumption| |]
         | |- Observed.keeps _ (mret _) => eapply keeps_ret; eassumption
         | |- Observed.keeps _ (raise _) => eapply keeps_raise; eassumption
         | |- Observed.keeps _ (gets _) => eapply keeps_gets; eassumption
         | |- Observed.keeps _ (emit _) => eapply keeps_emit; eassumption
         | |- Observed.keeps _ (ask _) => eapply keeps_ask; eassumption
         | |- Observed.keeps _ (sleep _) => eapply keeps_sleep; eassumption
         | |- Observed.keeps _ (expect_text _) =>
             eapply keeps_expect_text; eassumption
         | |- Observed.keeps _ (Limiter.wait_if_needed _) =>
             eapply keeps_wait_if_needed; eassumption
         | |- Observed.keeps _ (Gemini._exponential_backoff _ _) =>
             eapply keeps_exponential_backoff; eassumption
         | |- Observed.keeps _ (Retry.retry_async _ _ _) =>
             eapply keeps_retry_from; [eassumption ..|]
         end ]).

(** ** The circuit breaker *)

Section BreakerFacts.

Import Trace Observed.

Variable parse_json_safely : string -> json -> json.
Variable InitialGap_of : list (string * json) -> option InitialGap.
Variable ValidationResult_of : list (string * json) -> option ValidationResult.

(** Going from a breaker that is in order to one that is. *)
Let in_order (w w' : World) : Prop :=
  breaker_ok (gemini w) -> breaker_ok (gemini w').

Lemma in_order_refl w : in_order w w.
Proof. intros H. exact H. Qed.

Lemma in_order_trans w1 w2 w3 : in_order w1 w2 -> in_order w2 w3 -> in_order w1 w3.
Proof. unfold in_order. auto. Qed.

Lemma in_order_clock w c : in_order w (set_clock c w).
Proof. intros H. exact H. Qed.

Lemma in_order_asked w n : in_order w (set_asked n w).
Proof. intros H. exact H. Qed.

Lemma in_order_limiter name w l : in_order w (Limiter.set_limiter name l w).
Proof. intros H. destruct name; exact H. Qed.

Lemma same_breaker_refl w : same_breaker w w.
Proof. repeat split. Qed.

Lemma same_breaker_trans w1 w2 w3 :
  same_breaker w1 w2 -> same_breaker w2 w3 -> same_breaker w1 w3.
Proof.
  unfold same_breaker. intros (a1 & a2 & a3 & a4 & a5) (b1 & b2 & b3 & b4 & b5).
  repeat split; congruence.
Qed.

Lemma same_breaker_clock w c : same_breaker w (set_clock c w).
Proof. repeat split. Qed.

Lemma same_breaker_asked w n : same_breaker w (set_asked n w).
Proof. repeat split. Qed.

Lemma same_breaker_limiter name w l : same_breaker w (Limiter.set_limiter name l w).
Proof. destruct name; repeat split. Qed.

Lemma check_circuit_breaker_in_order w :
  breaker_ok (gemini w) ->
  exists allowed w',
    Gemini._check_circuit_breaker w = (Ok allowed, w', [])
    /\ breaker_ok (gemini w').
Proof.
  intros (Hth & Hclosed & Hlast).
  unfold Gemini._check_circuit_breaker, mbind, M_bind, gets. simpl.
  destruct (circuit_breaker_state (gemini w)) eqn:Hstate.
  - eexists _, _. split; [reflexivity|].
    unfold breaker_ok. rewrite Hstate. auto.
  - destruct (circuit_breaker_last_failure (gemini w)) as [last|] eqn:El;
      [|exfalso; apply Hlast; [discriminate | reflexivity]].
    destruct (Qltb _ _).
    + eexists _, _. split; [reflexivity|]. unfold breaker_ok. simpl.
      split; [exact Hth|]. split.
      * split; [discriminate|]. intros Hlt. apply Hclosed in Hlt. discriminate.
      * intros _. rewrite ?El. discriminate.
    + eexists _, _. split; [reflexivity|].
      unfold breaker_ok. rewrite Hstate, El. auto.
  - eexists _, _. split; [reflexivity|].
    unfold breaker_ok. rewrite Hstate. auto.
Qed.

Lemma keeps_check_circuit_breaker : keeps in_order Gemini._check_circuit_breaker.
Proof.
  intros w Hok. destruct (check_circuit_breaker_in_order w Hok)
    as (allowed & w' & Hrun & Hok').
  rewrite Hrun. exact Hok'.
Qed.

Lemma keeps_record_success : keeps in_order Gemini._record_success.
Proof.
  intros w (Hth & Hclosed & Hlast).
  unfold Gemini._record_success, mbind, M_bind, gets, world_of. simpl.
  destruct (circuit_breaker_state (gemini w)) eqn:Hstate; simpl.
  1,2: unfold breaker_ok; rewrite Hstate; auto.
  unfold breaker_ok. simpl. split; [exact Hth|]. split; [tauto|].
  intros H. exfalso. apply H. reflexivity.
Qed.

Lemma keeps_record_failure : keeps in_order Gemini._record_failure.
Proof.
  intros w (Hth & Hclosed & Hlast).
  unfold Gemini._record_failure, mbind, M_bind, gets, world_of. simpl.
  unfold breaker_ok. simpl. split; [exact Hth|]. split; [|discriminate].
  destruct (Z.leb_spec (circuit_breaker_threshold (gemini w))
              (circuit_breaker_failures (gemini w) + 1)) as [Hge|Hlt].
  - split; [discriminate | lia].
  - split; [intros _; exact Hlt|]. intros _. apply Hclosed. lia.
Qed.

Lemma keeps_initial_gaps_attempts remaining attempt max_attempts paper content :
  keeps in_order
    (Gemini.initial_gaps_attempts parse_json_safely InitialGap_of
       remaining attempt max_attempts paper content).
Proof.
  pose proof in_order_refl as Hr. pose proof in_order_trans as Htr.
  pose proof in_order_clock as Hc. pose proof in_order_asked as Ha.
  pose proof in_order_limiter as Hl.
  revert attempt. induction remaining as [|r IH]; intros attempt; simpl.
  - kgo fail.
  - kgo ltac:(first [ apply keeps_record_success | apply keeps_record_failure
                    | apply IH | progress unfold Gemini.initial_gaps_try ]).
Qed.

Lemma keeps_generate_initial_gaps paper content :
  keeps in_order
    (Gemini.generate_initial_gaps parse_json_safely InitialGap_of paper content).
Proof.
  pose proof in_order_refl as Hr. pose proof in_order_trans as Htr.
  unfold Gemini.generate_initial_gaps.
  kgo ltac:(first [ apply keeps_check_circuit_breaker
                  | apply keeps_initial_gaps_attempts ]).
Qed.

Lemma keeps_breaker_validate_gap gap papers :
  keeps same_breaker
    (Gemini.validate_gap parse_json_safely ValidationResult_of gap papers).
Proof.
  pose proof same_breaker_refl as Hr. pose proof same_breaker_trans as Htr.
  pose proof same_breaker_clock as Hc. pose proof same_breaker_asked as Ha.
  pose proof same_breaker_limiter as Hl.
  unfold Gemini.validate_gap, Gemini.validate_gap_undecorated,
    Gemini.validate_gap_try.
  kgo fail.
Qed.

Lemma keeps_breaker_expand_gap_details gap validation :
  keeps same_breaker (Gemini.expand_gap_details parse_json_safely gap validation).
Proof.
  pose proof same_breaker_refl as Hr. pose proof same_breaker_trans as Htr.
  pose proof same_breaker_clock as Hc. pose proof same_breaker_asked as Ha.
  pose proof same_breaker_limiter as Hl.
  unfold Gemini.expand_gap_details, Gemini.expand_gap_details_undecorated,
    Gemini.expand_gap_details_try.
  kgo fail.
Qed.

Lemma keeps_breaker_generate_search_query gap :
  keeps same_breaker (Gemini.generate_search_query gap).
Proof.
  pose proof same_breaker_refl as Hr. pose proof same_breaker_trans as Htr.
  pose proof same_breaker_asked as Ha.
  unfold Gemini.generate_search_query.
  kgo fail.
Qed.

(** X15: the circuit breaker stays in order. From a service whose
    breaker is in order (threshold positive, CLOSED exactly below the
    threshold, a time of failure recorded unless CLOSED), the check
    returns without an event and never fails on a missing time;
    [_record_success], [_record_failure] and [generate_initial_gaps]
    leave the breaker in order; [validate_gap], [expand_gap_details]
    and [generate_search_query] leave its fields as they are. *)
Theorem breaker_stays_in_order (w : World) :
  breaker_ok (gemini w) ->
  (exists allowed w',
     Gemini._check_circuit_breaker w = (Ok allowed, w', [])
     /\ breaker_ok (gemini w'))
  /\ breaker_ok (gemini (world_of (Gemini._record_success w)))
  /\ breaker_ok (gemini (world_of (Gemini._record_failure w)))
  /\ (forall paper content,
        breaker_ok
          (gemini (world_of
             (Gemini.generate_initial_gaps parse_json_safely InitialGap_of
                paper content w))))
  /\ (forall gap papers,
        same_breaker w
          (world_of (Gemini.validate_gap parse_json_safely ValidationResult_of
                       gap papers w)))
  /\ (forall gap validation,
        same_breaker w
          (world_of (Gemini.expand_gap_details parse_json_safely gap validation w)))
  /\ (forall gap,
        same_breaker w (world_of (Gemini.generate_search_query gap w))).
Proof.
  intros Hok. split; [apply check_circuit_breaker_in_order, Hok|].
  split; [apply keeps_record_success, Hok|].
  split; [apply keeps_record_failure, Hok|].
  split; [intros; apply keeps_generate_initial_gaps, Hok|].
  split; [intros; apply keeps_breaker_validate_gap|].
  split; [intros; apply keeps_breaker_expand_gap_details|].
  intros; apply keeps_breaker_generate_search_query.
Qed.

(** The prompts of the attempts of [generate_initial_gaps] when none
    is answered: one per attempt, unless the context of the paper
    cannot be built, in which case the model is not called. *)
Let unanswered (paper content : json) (attempts : nat) : list prompt :=
  match Gemini._prepare_paper_context paper content with
  | Ok _ => repeat (PromptInitialGaps paper content) attempts
  | Raise _ => []
  end.

(** One attempt of [generate_initial_gaps] against a model that
    fails: the failure is recorded, and the loop goes on unless the
    attempt was the last. *)
Lemma failed_attempt (w : World) (e : exn) r attempt max_attempts paper content :
  (forall n p, oracle w n (Generate p) = Fault e) ->
  (0 < max_calls (rate_limiter (gemini w)))%Z ->
  (attempt < 1024)%Z ->
  exists w' t last,
    Gemini.initial_gaps_attempts parse_json_safely InitialGap_of
      (S r) attempt max_attempts paper content w
    = (if (attempt <? max_attempts - 1)%Z
       then let '(res, w2, t2) :=
              Gemini.initial_gaps_attempts parse_json_safely InitialGap_of
                r (attempt + 1)%Z max_attempts paper content w' in
            (res, w2, t ++ t2)
       else (Ok [], w', t))
    /\ oracle w' = oracle w
    /\ max_calls (rate_limiter (gemini w')) = max_calls (rate_limiter (gemini w))
    /\ circuit_breaker_failures (gemini w') = (circuit_breaker_failures (gemini w) + 1)%Z
    /\ circuit_breaker_threshold (gemini w') = circuit_breaker_threshold (gemini w)
    /\ circuit_breaker_timeout (gemini w') = circuit_breaker_timeout (gemini w)
    /\ circuit_breaker_state (gemini w')
       = (if (circuit_breaker_threshold (gemini w)
              <=? circuit_breaker_failures (gemini w) + 1)%Z
          then OPEN else circuit_breaker_state (gemini w))
    /\ circuit_breaker_last_failure (gemini w') = Some last
    /\ ((attempt <? max_attempts - 1)%Z = false -> clock w' = last)
    /\ prompts t = unanswered paper content 1.
Proof.
  intros Hfault Hmax Hsmall.
  assert (Hno : (1024 <=? attempt)%Z = false) by (apply Z.leb_gt; exact Hsmall).
  destruct (wait_if_needed_spec GeminiLimiter w)
    as (r0 & c' & l' & t0 & Hrun & Hm & _ & Ht0 & _ & Hok).
  specialize (Hok Hmax). subst r0.
  cbn [Gemini.initial_gaps_attempts]. unfold Gemini.initial_gaps_try, unanswered.
  unfold mbind at 1. unfold M_bind at 1. unfold catch at 1.
  unfold mbind at 1. unfold M_bind at 1.
  unfold mbind at 1. unfold M_bind at 1.
  rewrite Hrun.
  destruct (Gemini._prepare_paper_context paper content) as [[]|e0].
  - unfold mbind, M_bind, ask. simpl. rewrite Hfault. simpl.
    unfold Gemini._exponential_backoff, Gemini.random_uniform,
      mbind, M_bind, ask, sleep. rewrite Hno. simpl.
    simpl in Hm.
    destruct (attempt <? max_attempts - 1)%Z,
      (Gemini.is_rate_limit_error (exn_msg e)); simpl.
    1,2: match goal with
         | |- context [oracle ?w0 ?n RandomUniform] =>
             destruct (oracle w0 n RandomUniform)
         end; simpl.
    all: eexists _, _, _; split; [reflexivity|]; simpl.
    all: repeat split; try assumption; try discriminate.
    all: rewrite ?app_nil_r, !prompts_app, (prompts_waiting _ Ht0); reflexivity.
  - unfold mbind, M_bind, raise. simpl.
    unfold Gemini._exponential_backoff, Gemini.random_uniform,
      mbind, M_bind, ask, sleep. rewrite Hno. simpl.
    simpl in Hm.
    destruct (attempt <? max_attempts - 1)%Z,
      (Gemini.is_rate_limit_error (exn_msg e0)); simpl.
    1,2: match goal with
         | |- context [oracle ?w0 ?n RandomUniform] =>
             destruct (oracle w0 n RandomUniform)
         end; simpl.
    all: eexists _, _, _; split; [reflexivity|]; simpl.
    all: repeat split; try assumption; try discriminate.
    all: rewrite ?app_nil_r, ?prompts_app, (prompts_waiting _ Ht0); reflexivity.
Qed.

(** X16: three failures open the breaker. When every call of the
    model fails, the limiter admits calls, the breaker is not OPEN and
    is at most three failures from its threshold,
    [generate_initial_gaps] makes its three attempts, returns no gap,
    and leaves the breaker OPEN with three more failures; called
    again at once, it returns no gap without an event and without a
    change. Each attempt calls the model once, unless the context of
    the paper cannot be built ([_prepare_paper_context] raises, as it
    does on a paragraph without text): then the three attempts fail
    without a call of the model. *)
Theorem failing_model_opens_breaker (w : World) (e : exn) (paper content : json) :
  (forall n p, oracle w n (Generate p) = Fault e) ->
  circuit_breaker_state (gemini w) <> OPEN ->
  (0 < max_calls (rate_limiter (gemini w)))%Z ->
  (circuit_breaker_threshold (gemini w)
   <= circuit_breaker_failures (gemini w) + 3)%Z ->
  (0 <= circuit_breaker_timeout (gemini w))%Q ->
  exists w' t,
    Gemini.generate_initial_gaps parse_json_safely InitialGap_of paper content w
    = (Ok [], w', t)
    /\ prompts t
       = match Gemini._prepare_paper_context paper content with
         | Ok _ => repeat (PromptInitialGaps paper content) 3
         | Raise _ => []
         end
    /\ circuit_breaker_state (gemini w') = OPEN
    /\ circuit_breaker_failures (gemini w')
       = (circuit_breaker_failures (gemini w) + 3)%Z
    /\ Gemini.generate_initial_gaps parse_json_safely InitialGap_of
         paper content w'
       = (Ok [], w', []).
Proof.
  intros Hfault Hstate Hmax Hth Hto.
  destruct (failed_attempt w e 2 0 3 paper content Hfault Hmax ltac:(lia))
    as (w1 & t1 & l1 & Hrun1 & Ho1 & Hm1 & Hf1 & Hth1 & Hto1 & Hs1 & Hl1 & _ & Hp1).
  assert (Hfault1 : forall n p, oracle w1 n (Generate p) = Fault e)
    by (intros; rewrite Ho1; apply Hfault).
  assert (Hmax1 : (0 < max_calls (rate_limiter (gemini w1)))%Z) by lia.
  destruct (failed_attempt w1 e 1 1 3 paper content Hfault1 Hmax1 ltac:(lia))
    as (w2 & t2 & l2 & Hrun2 & Ho2 & Hm2 & Hf2 & Hth2 & Hto2 & Hs2 & Hl2 & _ & Hp2).
  assert (Hfault2 : forall n p, oracle w2 n (Generate p) = Fault e)
    by (intros; rewrite Ho2; apply Hfault1).
  assert (Hmax2 : (0 < max_calls (rate_limiter (gemini w2)))%Z) by lia.
  destruct (failed_attempt w2 e 0 2 3 paper content Hfault2 Hmax2 ltac:(lia))
    as (w3 & t3 & l3 & Hrun3 & Ho3 & Hm3 & Hf3 & Hth3 & Hto3 & Hs3 & Hl3 & Hc3 & Hp3).
  change ((0 <? 3 - 1)%Z) with true in Hrun1.
  change ((1 <? 3 - 1)%Z) with true in Hrun2.
  change ((2 <? 3 - 1)%Z) with false in Hrun3.
  change (0 + 1)%Z with 1%Z in Hrun1. change (1 + 1)%Z with 2%Z in Hrun2.
  rewrite Hrun2 in Hrun1. rewrite Hrun3 in Hrun1.
  assert (Hopen : circuit_breaker_state (gemini w3) = OPEN).
  { rewrite Hs3. destruct (Z.leb_spec (circuit_breaker_threshold (gemini w2))
                             (circuit_breaker_failures (gemini w2) + 1));
      [reflexivity | lia]. }
  exists w3, (t1 ++ t2 ++ t3). split; [|split; [|split; [|split]]].
  - assert (Hcheck : Gemini._check_circuit_breaker w = (Ok true, w, [])).
    { unfold Gemini._check_circuit_breaker, mbind, M_bind, gets.
      cbv beta iota.
      destruct (circuit_breaker_state (gemini w)); [|congruence|]; reflexivity. }
    unfold Gemini.generate_initial_gaps, mbind, M_bind.
    rewrite Hcheck. cbv beta iota. cbn [negb]. rewrite Hrun1. reflexivity.
  - rewrite !prompts_app, Hp1, Hp2, Hp3. unfold unanswered.
    destruct (Gemini._prepare_paper_context paper content); reflexivity.
  - exact Hopen.
  - lia.
  - apply open_breaker_blocks with (t0 := l3); [exact Hopen | exact Hl3 |].
    rewrite (Hc3 eq_refl), Hto3, Hto2, Hto1.
    assert (E : (l3 - l3 == 0)%Q) by ring. rewrite E. exact Hto.
Qed.

(** One attempt of [generate_initial_gaps] that the model answers
    with a list of gaps. *)
Lemma answered_attempt (w : World) (text : string) (gaps : list InitialGap)
    r attempt max_attempts paper content :
  (0 < max_calls (rate_limiter (gemini w)))%Z ->
  Gemini._prepare_paper_context paper content = Ok tt ->
  oracle w (asked w) (Generate (PromptInitialGaps paper content)) = Text text ->
  Gemini.build_gaps InitialGap_of (parse_json_safely text (JArr [])) = Ok gaps ->
  exists w' t,
    Gemini.initial_gaps_attempts parse_json_safely InitialGap_of
      (S r) attempt max_attempts paper content w
    = (Ok gaps, w', t)
    /\ prompts t = [PromptInitialGaps paper content]
    /\ circuit_breaker_state (gemini w')
       = match circuit_breaker_state (gemini w) with
         | HALF_OPEN => CLOSED
         | state => state
         end
    /\ circuit_breaker_failures (gemini w')
       = match circuit_breaker_state (gemini w) with
         | HALF_OPEN => 0%Z
         | _ => circuit_breaker_failures (gemini w)
         end.
Proof.
  intros Hmax Hcontext Htext Hgaps.
  destruct (wait_if_needed_spec GeminiLimiter w)
    as (r0 & c' & l' & t0 & Hrun & Hm & _ & Ht0 & _ & Hok).
  specialize (Hok Hmax). subst r0.
  cbn [Gemini.initial_gaps_attempts]. unfold Gemini.initial_gaps_try.
  unfold mbind at 1. unfold M_bind at 1. unfold catch at 1.
  unfold mbind at 1. unfold M_bind at 1.
  unfold mbind at 1. unfold M_bind at 1.
  rewrite Hrun, Hcontext.
  unfold mbind, M_bind, ask. simpl. rewrite Htext. simpl. rewrite Hgaps.
  unfold Gemini._record_success, mbind, M_bind, gets. simpl.
  destruct (circuit_breaker_state (gemini w)) eqn:Es; simpl.
  all: eexists _, _; split; [reflexivity|]; simpl.
  all: repeat split.
  all: rewrite ?Es, ?app_nil_r, ?prompts_app, ?(prompts_waiting _ Ht0); reflexivity.
Qed.

(** X17: a success closes the breaker. When the breaker lets the call
    through (it is not OPEN, or its cooldown is over), the limiter
    admits calls, the context of the paper can be built
    ([_prepare_paper_context] does not raise) and the model answers
    with a list of gaps, [generate_initial_gaps] calls the model once
    and returns the gaps with the breaker CLOSED. The count of
    failures is set to zero only when the breaker was not CLOSED:
    below the threshold a success leaves the count as it is. *)
Theorem model_success_closes_breaker (w : World) (text : string)
    (gaps : list InitialGap) (paper content : json) :
  match circuit_breaker_state (gemini w) with
  | OPEN => exists last,
      circuit_breaker_last_failure (gemini w) = Some last
      /\ (circuit_breaker_timeout (gemini w) < clock w - last)%Q
  | CLOSED | HALF_OPEN => True
  end ->
  (0 < max_calls (rate_limiter (gemini w)))%Z ->
  Gemini._prepare_paper_context paper content = Ok tt ->
  oracle w (asked w) (Generate (PromptInitialGaps paper content)) = Text text ->
  Gemini.build_gaps InitialGap_of (parse_json_safely text (JArr [])) = Ok gaps ->
  exists w' t,
    Gemini.generate_initial_gaps parse_json_safely InitialGap_of paper content w
    = (Ok gaps, w', t)
    /\ prompts t = [PromptInitialGaps paper content]
    /\ circuit_breaker_state (gemini w') = CLOSED
    /\ circuit_breaker_failures (gemini w')
       = match circuit_breaker_state (gemini w) with
         | CLOSED => circuit_breaker_failures (gemini w)
         | OPEN | HALF_OPEN => 0%Z
         end.
Proof.
  intros Hallowed Hmax Hcontext Htext Hgaps.
  assert (Hcheck : exists wc,
    Gemini._check_circuit_breaker w = (Ok true, wc, [])
    /\ oracle wc = oracle w /\ asked wc = asked w
    /\ rate_limiter (gemini wc) = rate_limiter (gemini w)
    /\ circuit_breaker_failures (gemini wc) = circuit_breaker_failures (gemini w)
    /\ circuit_breaker_state (gemini wc)
       = match circuit_breaker_state (gemini w) with
         | CLOSED => CLOSED
         | OPEN | HALF_OPEN => HALF_OPEN
         end).
  { unfold Gemini._check_circuit_breaker, mbind, M_bind, gets. cbv beta iota.
    destruct (circuit_breaker_state (gemini w)) eqn:Es.
    - exists w. repeat split. exact Es.
    - destruct Hallowed as (last & Hlast & Hcool). rewrite Hlast.
      apply Qltb_true in Hcool. rewrite Hcool.
      eexists. split; [reflexivity|]. repeat split.
    - exists w. repeat split. exact Es. }
  destruct Hcheck as (wc & Hcheck & Ho & Ha & Hl & Hf & Hs).
  destruct (answered_attempt wc text gaps 2 0 3 paper content)
    as (w' & t & Hrun & Hp & Hs' & Hf');
    [rewrite Hl; exact Hmax | exact Hcontext | | exact Hgaps |].
  { rewrite Ho, Ha. exact Htext. }
  exists w', t. split; [|split; [exact Hp|]].
  - unfold Gemini.generate_initial_gaps, mbind, M_bind.
    rewrite Hcheck. cbv beta iota. cbn [negb]. rewrite Hrun. reflexivity.
  - rewrite Hs', Hf', Hs, Hf.
    destruct (circuit_breaker_state (gemini w)); split; reflexivity.
Qed.

End BreakerFacts.

(** X15 on the service as its constructor leaves it. *)
Lemma breaker_stays_in_order_witness :
  Observed.breaker_ok Examples.gemini0
  /\ exists allowed w',
       Gemini._check_circuit_breaker (Examples.world0 Examples.no_papers)
       = (Ok allowed, w', [])
       /\ Observed.breaker_ok (gemini w').
Proof.
  assert (H : Observed.breaker_ok Examples.gemini0).
  { unfold Observed.breaker_ok. simpl. repeat split; try lia; congruence. }
  split; [exact H|].
  exact (proj1 (breaker_stays_in_order Examples.parse_default
                  Examples.no_InitialGap Examples.no_ValidationResult
                  (Examples.world0 Examples.no_papers) H)).
Defined.

(** X16 on the service as its constructor leaves it, with a model
    that is out of reach. *)
Lemma failing_model_opens_breaker_witness :
  exists w' t,
    Gemini.generate_initial_gaps Examples.parse_default Examples.no_InitialGap
      Examples.paper_data1 (JObj [])
      (Examples.world0 (fun _ _ => Fault (mkExn "ConnectionError" "unreachable")))
    = (Ok [], w', t)
    /\ Trace.prompts t
       = match Gemini._prepare_paper_context Examples.paper_data1 (JObj []) with
         | Ok _ => repeat (PromptInitialGaps Examples.paper_data1 (JObj [])) 3
         | Raise _ => []
         end
    /\ circuit_breaker_state (gemini w') = OPEN
    /\ circuit_breaker_failures (gemini w') = 3%Z
    /\ Gemini.generate_initial_gaps Examples.parse_default Examples.no_InitialGap
         Examples.paper_data1 (JObj []) w'
       = (Ok [], w', []).
Proof.
  apply (failing_model_opens_breaker Examples.parse_default Examples.no_InitialGap
           (Examples.world0 (fun _ _ => Fault (mkExn "ConnectionError" "unreachable")))
           (mkExn "ConnectionError" "unreachable") Examples.paper_data1 (JObj [])).
  - reflexivity.
  - discriminate.
  - reflexivity.
  - simpl. lia.
  - discriminate.
Defined.

(** A paragraph without text: the context of the paper cannot be
    built, and the three attempts of [generate_initial_gaps] fail
    without a call of the model, although the model would answer. *)
Lemma null_paragraph_makes_no_call :
  let content :=
    JObj [ ("sections",
            JArr [ JObj [ ("title", JStr "Introduction"); ("type", JNull);
                          ("paragraphs", JArr [ JObj [("text", JNull)] ]) ] ]);
           ("figures", JArr []); ("tables", JArr []); ("conclusion", JNull) ] in
  let run :=
    Gemini.generate_initial_gaps Examples.parse_one_gap Examples.InitialGap_of_any
      Examples.paper_data1 content (Examples.world0 Examples.helpful) in
  Gemini._prepare_paper_context Examples.paper_data1 content
  = Raise (mkExn "TypeError"
             "sequence item 0: expected str instance, NoneType found")
  /\ Trace.result_of run = Ok []
  /\ Trace.prompts (Trace.events_of run) = []
  /\ circuit_breaker_failures (gemini (Trace.world_of run)) = 3%Z
  /\ circuit_breaker_state (gemini (Trace.world_of run)) = OPEN.
Proof. vm_compute. repeat split. Qed.

(** X17 on a breaker whose cooldown is over, with the model of the
    examples. *)
Lemma model_success_closes_breaker_witness :
  exists w' t,
    Gemini.generate_initial_gaps Examples.parse_one_gap Examples.InitialGap_of_any
      Examples.paper_data1 (JObj [])
      (set_clock 301 (Examples.world_open Examples.helpful))
    = (Ok [Examples.a_gap], w', t)
    /\ Trace.prompts t = [PromptInitialGaps Examples.paper_data1 (JObj [])]
    /\ circuit_breaker_state (gemini w') = CLOSED
    /\ circuit_breaker_failures (gemini w') = 0%Z.
Proof.
  apply (model_success_closes_breaker Examples.parse_one_gap
           Examples.InitialGap_of_any
           (set_clock 301 (Examples.world_open Examples.helpful))
           "[{}]" [Examples.a_gap] Examples.paper_data1 (JObj [])).
  - exists 0%Q. split; reflexivity.
  - reflexivity.
  - reflexivity.
  - reflexivity.
  - reflexivity.
Defined.

(** ** Back-off and the fallback query *)

Section QueryFacts.

Import Trace PyStr.

(** A word of [split]: not empty, and without whitespace. *)
Let word (x : string) : Prop :=
  x <> "" /\ all_chars (fun c => negb (isspace c)) x = true.

Lemma all_chars_app p (a b : string) :
  all_chars p a = true -> all_chars p b = true -> all_chars p (a +:+ b) = true.
Proof.
  induction a as [|c a IH]; simpl; [auto|].
  intros H Hb. apply andb_true_iff in H as [Hc Ha].
  rewrite Hc. simpl. apply IH; assumption.
Qed.

Lemma split_from_app_word cur x s :
  all_chars (fun c => negb (isspace c)) x = true ->
  split_from cur (x +:+ s) = split_from (cur +:+ x) s.
Proof.
  revert cur. induction x as [|c x IH]; intros cur Hx.
  - rewrite sapp_nil, sapp_nil_r. reflexivity.
  - simpl in Hx. apply andb_true_iff in Hx as [Hc Hx].
    apply negb_true_iff in Hc.
    rewrite sapp_cons. cbn [split_from]. rewrite Hc, (IH _ Hx), sapp_assoc.
    reflexivity.
Qed.

Lemma split_from_cons_word x s :
  word x -> split_from x (String " " s) = x :: split_from "" s.
Proof. intros [Hne _]. cbn. destruct x; [congruence | reflexivity]. Qed.

Lemma split_join ws : Forall word ws -> split (join " " ws) = ws.
Proof.
  unfold split, join. induction 1 as [|x ws Hx Hws IH]; [reflexivity|].
  cbn [String.concat]. destruct ws as [|y ws].
  - rewrite <- (sapp_nil_r x) at 1.
    rewrite split_from_app_word by apply Hx.
    rewrite sapp_nil. cbn. destruct Hx as [Hne _].
    destruct x; [congruence | reflexivity].
  - rewrite split_from_app_word by apply Hx. rewrite sapp_nil.
    change (" " +:+ String.concat " " (y :: ws))
      with (String " " (String.concat " " (y :: ws))).
    rewrite (split_from_cons_word _ _ Hx), IH. reflexivity.
Qed.

Lemma split_from_words_ok cur s :
  all_chars (fun c => negb (isspace c)) cur = true ->
  Forall word (split_from cur s).
Proof.
  revert cur. induction s as [|c s IH]; intros cur Hcur; simpl.
  - destruct cur; constructor; [|constructor]. split; [discriminate | exact Hcur].
  - destruct (isspace c) eqn:Hc.
    + destruct cur; [apply IH; reflexivity|].
      constructor; [split; [discriminate | exact Hcur] | apply IH; reflexivity].
    + apply IH, all_chars_app; [exact Hcur|]. simpl. rewrite Hc. reflexivity.
Qed.

Lemma Forall_firstn_word n ws : Forall word ws -> Forall word (firstn n ws).
Proof.
  intros H. revert n. induction H as [|x ws Hx _ IH]; intros [|n]; simpl;
    constructor; auto.
Qed.

(** X19: the fallback of [generate_search_query]. When the call of
    the model fails, the query returned is made of the first four
    words of the name and the category of the gap in lower case: it
    splits into exactly those words, at most four, and no other event
    than the call has taken place. *)
Theorem search_query_fallback (gap : InitialGap) (w : World) (e : exn) :
  oracle w (asked w) (Generate (PromptSearchQuery gap)) = Fault e ->
  exists query,
    Gemini.generate_search_query gap w
    = (Ok query, set_asked (S (asked w)) w, [Generate (PromptSearchQuery gap)])
    /\ split query
       = firstn 4 (split (lower (gap_name gap +:+ " " +:+ gap_category gap)))
    /\ (length (split query) <= 4)%nat.
Proof.
  intros Hfault.
  exists (join " " (firstn 4 (split (lower (gap_name gap +:+ " "
                                            +:+ gap_category gap))))).
  assert (Hsplit :
    split (join " " (firstn 4 (split (lower (gap_name gap +:+ " "
                                              +:+ gap_category gap)))))
    = firstn 4 (split (lower (gap_name gap +:+ " " +:+ gap_category gap)))).
  { apply split_join, Forall_firstn_word, split_from_words_ok. reflexivity. }
  split; [|split; [exact Hsplit|]].
  - unfold Gemini.generate_search_query, catch, mbind, M_bind, ask, expect_text.
    cbv beta iota. rewrite Hfault. reflexivity.
  - rewrite Hsplit. apply List.firstn_le_length.
Qed.


End QueryFacts.

(** X19 on the gap of the examples, with a model that is out of
    reach. *)
Lemma search_query_fallback_witness :
  exists query,
    Gemini.generate_search_query Examples.a_gap
      (Examples.world0 (fun _ _ => Fault (mkExn "ConnectionError" "unreachable")))
    = (Ok query,
       set_asked 1
         (Examples.world0 (fun _ _ => Fault (mkExn "ConnectionError" "unreachable"))),
       [Generate (PromptSearchQuery Examples.a_gap)])
    /\ PyStr.split query = ["scalability"; "of"; "graph"; "transformers"]
    /\ (length (PyStr.split query) <= 4)%nat.
Proof.
  exact (search_query_fallback Examples.a_gap
           (Examples.world0 (fun _ _ => Fault (mkExn "ConnectionError" "unreachable")))
           (mkExn "ConnectionError" "unreachable") eq_refl).
Defined.


(** ** The pipeline, gap by gap *)



Section PipelineMore.

Import Trace Observed.

Variable parse_json_safely : string -> json -> json.
Variable InitialGap_of : list (string * json) -> option InitialGap.
Variable ValidationResult_of : list (string * json) -> option ValidationResult.
Variable validate_enrichment : list (string * json) -> option (list (string * json)).

Let _validate_gap := Pipeline._validate_gap parse_json_safely ValidationResult_of.
Let _process_single_gap :=
  Pipeline._process_single_gap parse_json_safely ValidationResult_of.
Let process_gaps := Pipeline.process_gaps parse_json_safely ValidationResult_of.
Let analyze_paper :=
  Pipeline.analyze_paper parse_json_safely InitialGap_of ValidationResult_of
    validate_enrichment.
Let generate_initial_gaps :=
  Gemini.generate_initial_gaps parse_json_safely InitialGap_of.

Lemma total_validate_gap gap : total (_validate_gap gap).
Proof.
  apply (total_catch_ret _ (fun _ => Pipeline.validation_error_result)).
Qed.

Lemma process_single_gap_cases (analysis_id : N) (gap : InitialGap) (index : nat)
    (w : World) :
  exists v w1 t1 r w' t',
    _validate_gap gap w = (Ok v, w1, t1)
    /\ _process_single_gap analysis_id gap index w = (Ok r, w', t1 ++ t')
    /\ (is_valid v = false -> r = None /\ w' = w1 /\ t' = [])
    /\ (is_valid v = true ->
        exists d, r = Some d
          /\ gd_gap_name d = gap_name gap
          /\ gd_validation_status d = "VALID"
          /\ gd_confidence_score d
             = (if Qeq_bool (confidence v) 0 then 0.8%Q else confidence v)).
Proof.
  destruct (total_validate_gap gap w) as (v & w1 & t1 & Hval).
  exists v, w1, t1. destruct (is_valid v) eqn:Hvalid.
  - destruct (process_single_gap_accepts parse_json_safely ValidationResult_of
                analysis_id gap index w v w1 t1 Hval Hvalid)
      as (d & w3 & t3 & Hrun & Hname & Hstatus & Hconf & _).
    exists (Some d), w3, t3. split; [exact Hval|]. split; [exact Hrun|].
    split; [discriminate|]. intros _. exists d. auto.
  - exists None, w1, []. split; [exact Hval|]. split; [|split].
    + unfold _process_single_gap, Pipeline._process_single_gap, catch.
      unfold _validate_gap in Hval.
      rewrite (run_bind_ok _ _ _ _ _ _ Hval). rewrite Hvalid. reflexivity.
    + auto.
    + discriminate.
Qed.

(** X23: [_process_single_gap] never raises, and drops a gap exactly
    when its validation, which always returns, says that the gap is
    not valid; nothing happens after the validation then. A gap whose
    validation says valid is returned under its own name, marked
    VALID, with the confidence of the validation, or 0.8 when that
    confidence is zero, whatever the expansion of its details did. *)
Theorem process_single_gap_decides (analysis_id : N) (gap : InitialGap)
    (index : nat) (w : World) :
  exists v w1 t1 r w' t',
    Pipeline._validate_gap parse_json_safely ValidationResult_of gap w
    = (Ok v, w1, t1)
    /\ Pipeline._process_single_gap parse_json_safely ValidationResult_of
         analysis_id gap index w = (Ok r, w', t1 ++ t')
    /\ (is_valid v = false -> r = None /\ w' = w1 /\ t' = [])
    /\ (is_valid v = true ->
        exists d, r = Some d
          /\ gd_gap_name d = gap_name gap
          /\ gd_validation_status d = "VALID"
          /\ gd_confidence_score d
             = (if Qeq_bool (confidence v) 0 then 0.8%Q else confidence v)).
Proof. exact (process_single_gap_cases analysis_id gap index w). Qed.





(** *** What [analyze_paper] does in the end *)

Lemma total_catch {X} (c : M X) (h : exn -> M X) :
  (forall e, total (h e)) -> total (catch c h).
Proof.
  intros Hh w. unfold catch. destruct (c w) as [[[a|e] w1] t1]; [eauto|].
  destruct (Hh e w1) as (a & w2 & t2 & Hrun). rewrite Hrun. eauto.
Qed.

Lemma total_on_failure request analysis e :
  total (Pipeline.on_failure request analysis e).
Proof.
  unfold Pipeline.on_failure.
  apply total_bind; [apply (total_catch_ret _ (fun _ => tt))|]. intros _.
  apply total_bind; [|intros _; apply total_ret].
  destruct analysis; [apply (total_catch_ret _ (fun _ => tt)) | apply total_ret].
Qed.

(** The [try] and [except] blocks of [analyze_paper], without its
    [finally]. *)
Let answer (request : GapAnalysisRequest) : M GapAnalysisResponse :=
  bound ← catch (a ← Pipeline.bind_analysis request; mret (inl a))
             (fun e => mret (inr e));
  match bound with
  | inr e => Pipeline.on_failure request None e
  | inl None =>
      Pipeline.on_failure request None
        (mkExn "AttributeError" "'NoneType' object has no attribute 'id'")
  | inl (Some analysis) =>
      catch (Pipeline.analyze_with parse_json_safely InitialGap_of
               ValidationResult_of validate_enrichment request analysis)
        (Pipeline.on_failure request (Some analysis))
  end.

Lemma total_answer request : total (answer request).
Proof.
  unfold answer. apply total_bind; [apply (total_catch_ret _ inr)|].
  intros [[analysis|]|e]; try apply total_on_failure.
  apply total_catch. intros e. apply total_on_failure.
Qed.

Lemma stable_oracle (o : nat -> event -> reply) : stable (fun w => oracle w = o).
Proof.
  split; try (intros; assumption).
  intros [] w l _ H; exact H.
Qed.

(** How [analyze_paper] ends. *)
Lemma analyze_paper_ends (request : GapAnalysisRequest) (w : World) :
  exists r w' t0 tc,
    Pipeline.analyze_paper parse_json_safely InitialGap_of ValidationResult_of
      validate_enrichment request w = (r, w', t0 ++ tc)
    /\ match r with
       | Ok response =>
           settled response
           /\ tc = [CloseClient "search"; CloseClient "grobid"]
       | Raise e =>
           (tc = [CloseClient "search"]
            /\ exists n, oracle w n (CloseClient "search") = Fault e)
           \/ (tc = [CloseClient "search"; CloseClient "grobid"]
               /\ exists n, oracle w n (CloseClient "grobid") = Fault e)
       end.
Proof.
  destruct (total_answer request w) as (response & w1 & t1 & Hanswer).
  pose proof (safe_analyze_paper (fun w' => oracle w' = oracle w) (fun _ => True)
                (stable_oracle (oracle w)) closed_any (fun _ _ => I)
                parse_json_safely InitialGap_of ValidationResult_of
                validate_enrichment request w eq_refl) as Hsafe.
  unfold analyze_paper, Pipeline.analyze_paper, finally in *.
  fold (answer request) in *. rewrite Hanswer in *.
  unfold perform, mbind, M_bind, ask in *. cbv beta iota in *.
  destruct (oracle w1 (asked w1) (CloseClient "search")) as [e| | | | | | | |] eqn:E1;
    cbv beta iota in *; cbn [raise mret M_ret] in *.
  1: { exists (Raise e), (set_asked (S (asked w1)) w1), t1, [CloseClient "search"].
       split; [reflexivity|]. left. split; [reflexivity|].
       exists (asked w1). destruct Hsafe as [Ho _]. simpl in Ho.
       rewrite <- Ho. exact E1. }
  all: cbn [asked set_asked oracle] in *.
  all: destruct (oracle w1 (S (asked w1)) (CloseClient "grobid"))
         as [e| | | | | | | |] eqn:E2; cbv beta iota in *.
  all: eexists _, _, t1, [CloseClient "search"; CloseClient "grobid"].
  all: (split; [reflexivity|]).
  all: try (split; [apply Hsafe | reflexivity]).
  all: right; split; [reflexivity|]; exists (S (asked w1));
       destruct Hsafe as [Ho _]; simpl in Ho; rewrite <- Ho; exact E2.
Qed.

(** X20: whatever happens, [analyze_paper] ends by closing the search
    client and then, unless that raised, the PDF client. It raises
    only what one of these two calls raised; otherwise it returns a
    response whose status is COMPLETED or FAILED. *)
Theorem analyze_paper_closes_clients (request : GapAnalysisRequest) (w : World) :
  exists r w' t0 tc,
    Pipeline.analyze_paper parse_json_safely InitialGap_of ValidationResult_of
      validate_enrichment request w = (r, w', t0 ++ tc)
    /\ match r with
       | Ok response =>
           settled response
           /\ tc = [CloseClient "search"; CloseClient "grobid"]
       | Raise e =>
           (tc = [CloseClient "search"]
            /\ exists n, oracle w n (CloseClient "search") = Fault e)
           \/ (tc = [CloseClient "search"; CloseClient "grobid"]
               /\ exists n, oracle w n (CloseClient "grobid") = Fault e)
       end.
Proof. exact (analyze_paper_ends request w). Qed.

(** *** A paper that is not found *)





End PipelineMore.

(** ** The record of an analysis *)

Section RecordFacts.

Import Trace.

Lemma perform_returns e w u w' t :
  perform e w = (Ok u, w', t) -> w' = set_asked (S (asked w)) w.
Proof.
  unfold perform, mbind, M_bind, ask. cbv beta iota.
  destruct (oracle w (asked w) e); intros H; inversion H; reflexivity.
Qed.

Lemma execute_upsert_returns values w id w' t :
  Store.execute_upsert values w = (Ok id, w', t) ->
  exists rows',
    Store.upsert values (clock w) (session_rows w) = Ok (id, rows')
    /\ session_rows w' = rows'
    /\ committed_rows w' = committed_rows w.
Proof.
  unfold Store.execute_upsert. intros H.
  apply bind_returns in H as (u & w1 & t1 & t2 & Hp & H & _).
  apply perform_returns in Hp. subst w1.
  unfold mbind, M_bind, gets in H. cbv beta iota in H.
  cbn [clock session_rows set_asked] in H.
  destruct (Store.upsert values (clock w) (session_rows w)) as [[id' rows']|e];
    [|discriminate].
  inversion H; subst. exists rows'. repeat split.
Qed.

Lemma commit_returns w u w' t :
  Store.commit w = (Ok u, w', t) ->
  session_rows w' = session_rows w /\ committed_rows w' = session_rows w.
Proof.
  unfold Store.commit. intros H.
  apply bind_returns in H as (u1 & w1 & t1 & t2 & Hp & H & _).
  apply perform_returns in Hp. subst w1. inversion H. split; reflexivity.
Qed.

Lemma session_get_returns id w a w' t :
  Store.session_get id w = (Ok a, w', t) ->
  a = List.find (fun r => N.eqb (ga_id r) id) (session_rows w)
  /\ session_rows w' = session_rows w
  /\ committed_rows w' = committed_rows w.
Proof.
  unfold Store.session_get. intros H.
  apply bind_returns in H as (u1 & w1 & t1 & t2 & Hp & H & _).
  apply perform_returns in Hp. subst w1. inversion H. repeat split.
Qed.

Lemma find_replaced (existing updated : GapAnalysis) rows :
  In existing rows -> ga_id updated = ga_id existing ->
  List.find (fun r => N.eqb (ga_id r) (ga_id existing))
    (map (fun r => if N.eqb (ga_id r) (ga_id existing) then updated else r) rows)
  = Some updated.
Proof.
  intros Hin Hid. induction rows as [|a rows IH]; [contradiction|].
  simpl. destruct (N.eqb (ga_id a) (ga_id existing)) eqn:E.
  - rewrite Hid, N.eqb_refl. reflexivity.
  - rewrite E. apply IH. destruct Hin as [->|Hin]; [|exact Hin].
    rewrite N.eqb_refl in E. discriminate.
Qed.

Lemma find_appended (values : GapAnalysis) rows :
  existsb (fun r => N.eqb (ga_id r) (ga_id values)) rows = false ->
  List.find (fun r => N.eqb (ga_id r) (ga_id values)) (rows ++ [values])
  = Some values.
Proof.
  induction rows as [|a rows IH]; simpl.
  - intros _. rewrite N.eqb_refl. reflexivity.
  - intros H. apply orb_false_iff in H as [Ha Hrest]. rewrite Ha. apply IH, Hrest.
Qed.

(** The row an upsert that went through leaves under the id it
    returns. *)
Lemma upsert_stored values now rows id rows' :
  ga_status values = PROCESSING -> ga_error_message values = None ->
  Store.upsert values now rows = Ok (id, rows') ->
  exists analysis,
    List.find (fun r => N.eqb (ga_id r) id) rows' = Some analysis
    /\ ga_correlation_id analysis = ga_correlation_id values
    /\ ga_request_id analysis = ga_request_id values
    /\ ga_paper_id analysis = ga_paper_id values
    /\ ga_paper_extraction_id analysis = ga_paper_extraction_id values
    /\ ga_status analysis = PROCESSING
    /\ ga_error_message analysis = None.
Proof.
  intros Hstatus Herror. unfold Store.upsert.
  destruct (List.find _ rows) as [existing|] eqn:Efind.
  - apply find_some in Efind as [Hin Hc]. apply String.eqb_eq in Hc.
    cbv zeta. destruct (Store.collision _ _ _); [discriminate|].
    intros H; inversion H; subst; clear H.
    exists (Store.on_conflict_set values now existing).
    split; [apply find_replaced; [exact Hin | reflexivity]|].
    repeat split. exact Hc.
  - destruct (existsb _ rows) eqn:Eid; [discriminate|].
    destruct (Store.collision _ _ _); [discriminate|].
    intros H; inversion H; subst; clear H.
    exists values. split; [apply find_appended, Eid|].
    repeat split; assumption.
Qed.

(** X29: the record [_create_gap_analysis] returns. When it returns,
    it returns a row, never [None]: the row stored under the
    correlation id, the request id and the paper of the request, with
    the status PROCESSING and no error message; the transaction is
    committed, and a table whose keys were distinct still has distinct
    keys. *)
Theorem create_gap_analysis_stores (request : GapAnalysisRequest) (w : World)
    (a : option GapAnalysis) (w' : World) (t : list event) :
  Pipeline._create_gap_analysis request w = (Ok a, w', t) ->
  exists analysis,
    a = Some analysis
    /\ In analysis (session_rows w')
    /\ ga_correlation_id analysis = correlationId request
    /\ ga_request_id analysis = requestId request
    /\ ga_paper_id analysis = paperId request
    /\ ga_paper_extraction_id analysis = paperExtractionId request
    /\ ga_status analysis = PROCESSING
    /\ ga_error_message analysis = None
    /\ committed_rows w' = session_rows w'
    /\ (well_keyed (session_rows w) -> well_keyed (session_rows w')).
Proof.
  unfold Pipeline._create_gap_analysis. intros H.
  apply bind_returns in H as (id & w1 & t1 & t2 & Hid & H & _).
  destruct (uuid4_returns w) as (id' & Hid'). rewrite Hid' in Hid.
  inversion Hid; subst id' w1; clear Hid Hid'.
  apply bind_returns in H as (now & w2 & t3 & t4 & Hnow & H & _).
  inversion Hnow; subst now w2; clear Hnow. cbv zeta in H.
  apply bind_returns in H as (analysis_id & w3 & t5 & t6 & Hups & H & _).
  apply bind_returns in H as (u & w4 & t7 & t8 & Hcommit & H & _).
  apply execute_upsert_returns in Hups as (rows' & Hups & Hs3 & _).
  apply commit_returns in Hcommit as (Hs4 & Hc4).
  apply session_get_returns in H as (Ha & Hs' & Hc').
  cbn [clock session_rows set_asked] in Hups.
  pose proof (fun Hs He => upsert_stored _ _ _ _ _ Hs He Hups) as Hstored.
  destruct (Hstored eq_refl eq_refl)
    as (analysis & Hfind & Hcorr & Hreq & Hpaper & Hextraction & Hstatus & Herror).
  exists analysis. rewrite Hs', Hc', Hc4, Hs4, Hs3.
  split; [rewrite Ha, Hs4, Hs3; exact Hfind|].
  split; [apply find_some in Hfind as [Hin _]; exact Hin|].
  do 7 (split; [assumption || reflexivity|]).
  intros Hkeys. eapply upsert_well_keyed; eassumption.
Qed.

End RecordFacts.



(** X29 on the first submission of the examples. *)
Lemma create_gap_analysis_stores_witness :
  exists a w' t,
    Pipeline._create_gap_analysis Examples.request1
      (Examples.world0 Examples.helpful)
    = (Ok a, w', t)
    /\ exists analysis,
         a = Some analysis
         /\ In analysis (session_rows w')
         /\ ga_correlation_id analysis = "corr-1"
         /\ ga_request_id analysis = "req-1"
         /\ ga_paper_id analysis = "paper-1"
         /\ ga_paper_extraction_id analysis = "extraction-1"
         /\ ga_status analysis = PROCESSING
         /\ ga_error_message analysis = None
         /\ committed_rows w' = session_rows w'
         /\ (Trace.well_keyed (session_rows (Examples.world0 Examples.helpful)) ->
             Trace.well_keyed (session_rows w')).
Proof.
  eexists _, _, _. split; [vm_compute; reflexivity|].
  eapply (create_gap_analysis_stores Examples.request1
            (Examples.world0 Examples.helpful)).
  vm_compute. reflexivity.
Defined.

(** ** The consumer *)

Section ConsumerFacts.

Import Trace.

Variable parse_json_safely : string -> json -> json.
Variable InitialGap_of : list (string * json) -> option InitialGap.
Variable ValidationResult_of : list (string * json) -> option ValidationResult.
Variable validate_enrichment : list (string * json) -> option (list (string * json)).
Variable bytes_decode : list Byte.byte -> option string.
Variable json_loads : string -> string + json.

(** The oracle of the run. *)
Variable o : nat -> event -> reply.


















End ConsumerFacts.

Section Publications.

Import Trace.

Variable parse_json_safely : string -> json -> json.
Variable InitialGap_of : list (string * json) -> option InitialGap.
Variable ValidationResult_of : list (string * json) -> option ValidationResult.
Variable validate_enrichment : list (string * json) -> option (list (string * json)).
Variable bytes_decode : list Byte.byte -> option string.
Variable json_loads : string -> string + json.


End Publications.



(** A request that is analysed to its end: one body is published, with
    the status COMPLETED. *)
Lemma completed_status_published :
  let request_of (text : string) : string + json :=
    inr (JObj [("paperId", JStr "paper-1"); ("paperExtractionId", JStr "extraction-1");
               ("correlationId", JStr "corr-1"); ("requestId", JStr "req-1")]) in
  map pub_status
    (Trace.published_bodies
       (Trace.events_of
          (Consumer.process_message Examples.parse_one_gap
             Examples.InitialGap_of_any Examples.no_ValidationResult
             Examples.enrichment_as_is Examples.ascii_decode request_of
             (mkDelivery (list_byte_of_string "{}"))
             (Examples.world0 Examples.helpful))))
  = ["COMPLETED"].
Proof. vm_compute. reflexivity. Qed.

(** ** Requests that are JSON and no request *)

Section ConsumerMore.

Import Trace Observed.

Variable parse_json_safely : string -> json -> json.
Variable InitialGap_of : list (string * json) -> option InitialGap.
Variable ValidationResult_of : list (string * json) -> option ValidationResult.
Variable validate_enrichment : list (string * json) -> option (list (string * json)).
Variable bytes_decode : list Byte.byte -> option string.
Variable json_loads : string -> string + json.

Let process_message :=
  Consumer.process_message parse_json_safely InitialGap_of ValidationResult_of
    validate_enrichment bytes_decode json_loads.



(** X25: a body that is JSON and not an object (a list, a string, a
    number, [null]) is rejected without an answer: nothing is
    published, no session is opened, the world is as it was. *)
Theorem non_object_request_rejected (message : delivery) (w : World)
    (text : string) (data : json) :
  bytes_decode (body message) = Some text ->
  json_loads text = inr data ->
  (forall fields, data <> JObj fields) ->
  Consumer.process_message parse_json_safely InitialGap_of ValidationResult_of
    validate_enrichment bytes_decode json_loads message w
  = (Ok Rejected, w, []).
Proof.
  intros Hdecode Hloads Hdata.
  assert (Hrequest : Consumer.GapAnalysisRequest_of data
                     = Raise (mkExn "TypeError" "argument after ** must be a mapping")).
  { destruct data; try reflexivity. exfalso. eapply Hdata. reflexivity. }
  assert (Hpartial : forall key, Consumer.partial_id key data
                     = Raise (mkExn "AttributeError" "object has no attribute 'get'")).
  { intros key. destruct data; try reflexivity. exfalso. eapply Hdata. reflexivity. }
  unfold Consumer.process_message, Consumer.process_block,
    Consumer.process_try, Consumer.decode, Consumer.loads.
  unfold catch, mbind, M_bind, mret, M_ret, raise.
  rewrite Hdecode. cbv beta iota. rewrite Hloads. cbv beta iota.
  rewrite Hrequest. cbn [Consumer.lift raise]. cbv beta iota.
  cbn [exn_class String.eqb Ascii.eqb Bool.eqb]. rewrite ?Hdecode. cbv beta iota.
  rewrite ?Hloads. cbv beta iota. rewrite Hpartial. reflexivity.
Qed.

End ConsumerMore.


(** An object whose [requestId] is a number: the error response cannot
    be built, and the message is rejected without an answer. *)
Lemma numeric_identifier_rejected :
  let loads_number (text : string) : string + json :=
    inr (JObj [("requestId", JNum 5)]) in
  Consumer.process_message Examples.parse_one_gap Examples.InitialGap_of_any
    Examples.no_ValidationResult Examples.enrichment_as_is
    Examples.ascii_decode loads_number
    Observed.empty_object (Examples.world0 Examples.helpful)
  = (Ok Rejected, Examples.world0 Examples.helpful, []).
Proof. vm_compute. reflexivity. Qed.

(** X25 on the body of an empty array. *)
Lemma non_object_request_rejected_witness :
  Consumer.process_message Examples.parse_one_gap Examples.InitialGap_of_any
    Examples.no_ValidationResult Examples.enrichment_as_is
    Examples.ascii_decode Observed.loads_empty
    Observed.empty_array (Examples.world0 Examples.helpful)
  = (Ok Rejected, Examples.world0 Examples.helpful, []).
Proof.
  apply (non_object_request_rejected Examples.parse_one_gap
           Examples.InitialGap_of_any Examples.no_ValidationResult
           Examples.enrichment_as_is Examples.ascii_decode Observed.loads_empty
           Observed.empty_array (Examples.world0 Examples.helpful) "[]" (JArr [])).
  - reflexivity.
  - reflexivity.
  - discriminate.
Defined.

(** ** The session of the database *)

Section SessionFacts.

Import Trace Observed.

Context {A : Type}.

Lemma perform_ok_events e w u w' t : perform e w = (Ok u, w', t) -> t = [e].
Proof.
  unfold perform, mbind, M_bind, ask. cbv beta iota.
  destruct (oracle w (asked w) e); intros H; inversion H; reflexivity.
Qed.

Lemma commit_ok_events w u w' t : Store.commit w = (Ok u, w', t) -> t = [DbCommit].
Proof.
  unfold Store.commit. intros H.
  apply bind_returns in H as (u1 & w1 & t1 & t2 & Hp & H & ->).
  apply perform_ok_events in Hp. subst t1. inversion H. reflexivity.
Qed.

(** [attempt_of] runs its computation and returns what it did. *)
Lemma attempt_of_returns {X} (c : M X) w r w' t :
  Database.attempt_of c w = (Ok r, w', t) -> c w = (r, w', t).
Proof.
  unfold Database.attempt_of, catch, mbind, M_bind, mret, M_ret.
  destruct (c w) as [[[x|e] w1] t1]; cbv beta iota; rewrite ?app_nil_r;
    intros H; inversion H; reflexivity.
Qed.

(** The opening of a session returns, with the error if there is
    one. *)
Lemma open_cases w :
  exists opened,
    Database.attempt_of (perform SessionOpen) w
    = (Ok opened, set_asked (S (asked w)) w, [SessionOpen])
    /\ opened = match oracle w (asked w) SessionOpen with
                | Fault e => Raise e
                | _ => Ok tt
                end.
Proof.
  unfold Database.attempt_of, catch, perform, mbind, M_bind, ask. cbv beta iota.
  destruct (oracle w (asked w) SessionOpen); eexists; split; reflexivity.
Qed.

(** Once the generator has yielded, what is left of the loop raises:
    it commits nothing and leaves the rows as they are. *)
Lemma after_yield_from_raises remaining attempt delay stopped w :
  exists e w' t,
    Database.after_yield_from (A := A) remaining attempt delay stopped w
    = (Raise e, w', t)
    /\ ~ In DbCommit t
    /\ session_rows w' = session_rows w
    /\ committed_rows w' = committed_rows w.
Proof.
  revert attempt delay w.
  induction remaining as [|r IH]; intros attempt delay w.
  - eexists _, _, _. split; [reflexivity|]. split; [intros []|]. split; reflexivity.
  - cbn [Database.after_yield_from]. unfold mbind at 1, M_bind at 1.
    destruct (open_cases w) as (opened & Hrun & Hopened). rewrite Hrun.
    cbv beta iota. destruct opened as [u|e].
    + eexists _, _, _. split; [reflexivity|].
      split; [|split; reflexivity]. simpl. intros [H|[]]. discriminate H.
    + destruct (Database.retried e attempt).
      * unfold mbind, M_bind, sleep. cbv beta iota.
        destruct (IH (attempt + 1)%Z (delay * 2)%Q
                    (set_clock (Qred (clock (set_asked (S (asked w)) w) + Qmax 0 delay))
                       (set_asked (S (asked w)) w)))
          as (e' & w' & t & Hrest & Hno & Hs & Hc).
        rewrite Hrest. eexists _, _, _. split; [reflexivity|].
        split; [|split; assumption].
        simpl. intros [H|[H|H]]; [discriminate H | discriminate H | exact (Hno H)].
      * eexists _, _, _. split; [reflexivity|].
        split; [|split; reflexivity]. simpl. intros [H|[]]. discriminate H.
Qed.

(** The outer handler, once the generator has yielded, raises. *)
Lemma outer_handler_raises (b : bool) remaining attempt delay stopped (e : exn)
    w (a : A) w' t :
  (if b
   then sleep delay;; Database.after_yield_from remaining attempt (delay * 2)%Q stopped
   else raise e) w = (Ok a, w', t) -> False.
Proof.
  destruct b; [|discriminate]. intros H.
  apply bind_returns in H as (u & w1 & t1 & t2 & _ & H & _).
  destruct (after_yield_from_raises remaining attempt (delay * 2)%Q stopped w1)
    as (e' & w2 & t3 & Hraises & _).
  rewrite Hraises in H. discriminate H.
Qed.

Lemma get_session_from_returns remaining attempt delay (body : M A) w a w' t :
  Database.get_session_from remaining attempt delay body w = (Ok a, w', t) ->
  exists t0 w0 w1 tb,
    t = t0 ++ SessionOpen :: tb ++ [DbCommit; SessionClose]
    /\ Forall (fun e => e = SessionOpen \/ exists d, e = Sleep d) t0
    /\ body w0 = (Ok a, w1, tb)
    /\ session_rows w' = session_rows w1
    /\ committed_rows w' = session_rows w1.
Proof.
  revert attempt delay w t.
  induction remaining as [|r IH]; intros attempt delay w t H; [discriminate|].
  cbn [Database.get_session_from] in H.
  apply bind_returns in H as (opened & w1 & t1 & t2 & Hopen & H & ->).
  destruct (open_cases w) as (opened' & Hopen' & _).
  rewrite Hopen' in Hopen. inversion Hopen; subst opened' w1 t1; clear Hopen Hopen'.
  destruct opened as [u|e].
  - apply bind_returns in H as (block & w2 & tb & t3 & Hbody & H & ->).
    apply attempt_of_returns in Hbody.
    apply bind_returns in H as (tried & w3 & t4 & t5 & Htried & H & ->).
    apply bind_returns in H as ([decided delay'] & w4 & t6 & t7 & Hdecided & H & ->).
    apply bind_returns in H as (closed & w5 & t8 & t9 & Hclose & H & ->).
    apply attempt_of_returns in Hclose.
    destruct closed as [u'|e]; [|apply outer_handler_raises in H; destruct H].
    destruct decided as [[a'|]|e];
      [| destruct (after_yield_from_raises r (attempt + 1)%Z delay'
                     (mkExn "RuntimeError"
                        match block with
                        | Ok _ => "generator didn't stop"
                        | Raise _ => "generator didn't stop after athrow()"
                        end) w5)
           as (e & w6 & t10 & Hraises & _); rewrite Hraises in H; discriminate H
       | apply outer_handler_raises in H; destruct H].
    inversion H; subst a' w5 t9; clear H.
    destruct tried as [a'|e].
    + inversion Hdecided; subst a' delay' w4 t6; clear Hdecided.
      destruct block as [a'|e]; [|inversion Htried].
      apply attempt_of_returns in Htried.
      apply bind_returns in Htried as (u2 & w6 & t10 & t11 & Hcommit & Hret & ->).
      inversion Hret; subst a' w6 t11; clear Hret.
      pose proof (commit_ok_events _ _ _ _ Hcommit). subst t10.
      apply commit_returns in Hcommit as (Hrows & Hcommitted).
      pose proof (perform_ok_events _ _ _ _ _ Hclose). subst t8.
      apply perform_returns in Hclose. subst w'.
      exists [], (set_asked (S (asked w)) w), w2, tb.
      split; [|split; [constructor|]].
      * cbn [app]. rewrite ?app_nil_r, <- ?app_assoc. reflexivity.
      * split; [exact Hbody|]. split; assumption.
    + apply bind_returns in Hdecided as (rolled & w6 & t10 & t11 & _ & Hdecided & _).
      destruct rolled as [u2|e2]; [|inversion Hdecided].
      destruct (Database.retried e attempt); [|inversion Hdecided].
      apply bind_returns in Hdecided as (u3 & w7 & t12 & t13 & _ & Hdecided & _).
      inversion Hdecided.
  - destruct (Database.retried e attempt); [|discriminate].
    apply bind_returns in H as (u & w2 & t3 & t4 & Hsleep & H & ->).
    inversion Hsleep; subst; clear Hsleep.
    destruct (IH _ _ _ _ H) as (t0 & w0 & w1 & tb & -> & Ht0 & Hbody & Hs & Hc).
    exists (SessionOpen :: Sleep delay :: t0), w0, w1, tb.
    split; [reflexivity|]. split; [|auto].
    constructor; [left; reflexivity|]. constructor; [right; eauto | exact Ht0].
Qed.

(** X26: [get_session] returns only what its block returned, after
    the commit and the closing of the session. When it returns [a],
    the block ran once, on a session that opened, and returned [a];
    the events end with the block's, the commit and the closing; what
    the block left in the session is what is committed; and before the
    opening that succeeded there were only openings that failed and
    the sleeps between them. *)
Theorem session_commits_on_return (body : M A) (w : World) (a : A)
    (w' : World) (t : list event) :
  Database.get_session body w = (Ok a, w', t) ->
  exists t0 w0 w1 tb,
    t = t0 ++ SessionOpen :: tb ++ [DbCommit; SessionClose]
    /\ Forall (fun e => e = SessionOpen \/ exists d, e = Sleep d) t0
    /\ body w0 = (Ok a, w1, tb)
    /\ session_rows w' = session_rows w1
    /\ committed_rows w' = session_rows w1.
Proof. apply get_session_from_returns. Qed.

Lemma opening_succeeds w :
  (forall x, oracle w (asked w) SessionOpen <> Fault x) ->
  Database.attempt_of (perform SessionOpen) w
  = (Ok (Ok tt), set_asked (S (asked w)) w, [SessionOpen]).
Proof.
  intros Hopen. destruct (open_cases w) as (opened & Hrun & Hopened).
  rewrite Hrun. subst opened.
  destruct (oracle w (asked w) SessionOpen) eqn:E; try reflexivity.
  exfalso. eapply Hopen. reflexivity.
Qed.

(** X28: a block that fails is never committed. When the session
    opens and the block raises [e], [get_session] raises, the first
    event after the block's is the rollback, no commit follows, and
    the committed rows are those the block found. When [e] is not an
    error of name resolution and the rollback and the closing go
    through, [get_session] raises [e] itself after the rollback and
    the closing, and the session is back on the committed rows. *)
Theorem failing_block_never_commits (body : M A) (w : World) (e : exn)
    (w1 : World) (tb : list event) :
  (forall x, oracle w (asked w) SessionOpen <> Fault x) ->
  body (set_asked (S (asked w)) w) = (Raise e, w1, tb) ->
  exists e' w' rest,
    Database.get_session body w
    = (Raise e', w', SessionOpen :: tb ++ DbRollback :: rest)
    /\ ~ In DbCommit rest
    /\ committed_rows w' = committed_rows w1
    /\ (Database.is_dns_error e = false ->
        (forall x, oracle w1 (asked w1) DbRollback <> Fault x) ->
        (forall x, oracle w1 (S (asked w1)) SessionClose <> Fault x) ->
        e' = e /\ rest = [SessionClose]
        /\ session_rows w' = committed_rows w1).
Proof.
  intros Hopen Hbody. unfold Database.get_session.
  cbn [Database.get_session_from].
  unfold mbind at 1, M_bind at 1. rewrite (opening_succeeds w Hopen).
  cbv beta iota.
  unfold Database.attempt_of, Database.retried, catch, Store.rollback,
    Store.commit, perform, mbind, M_bind, ask, sleep, modify, raise, mret, M_ret.
  rewrite Hbody. cbv beta iota.
  destruct (oracle w1 (asked w1) DbRollback) eqn:Erb; cbv beta iota.
  all: cbn [oracle asked clock set_asked set_session_rows set_clock].
  all: destruct (Database.is_dns_error e) eqn:Hdns; cbn [andb];
       change (0 <? 2)%Z with true; cbv beta iota.
  all: cbn [oracle asked clock set_asked set_session_rows set_clock].
  all: destruct (oracle w1 (S (asked w1)) SessionClose) eqn:Ecl; cbv beta iota.
  all: rewrite ?Hdns; cbn [andb]; cbv beta iota.
  all: repeat match goal with
         | |- context [Database.is_dns_error ?x] =>
             destruct (Database.is_dns_error x); cbn [andb]
         end; cbv beta iota.
  all: try match goal with
         | |- context [Database.after_yield_from ?r ?a ?d ?s ?W] =>
             destruct (after_yield_from_raises r a d s W)
               as (e2 & w2 & t2 & Hrun2 & Hno2 & Hs2 & Hc2);
             rewrite Hrun2; cbn [committed_rows set_clock set_asked
                                 set_session_rows] in Hc2
         end.
  all: eexists _, _, _.
  all: split;
         [cbn [app]; rewrite ?app_nil_r, <- ?app_assoc; cbn [app]; reflexivity|].
  all: split;
         [rewrite ?in_app_iff; simpl; rewrite ?in_app_iff; simpl;
          try (pose proof Hno2); intuition discriminate|].
  all: split; [first [reflexivity | exact Hc2]|].
  all: intros Hd Hrb Hcl.
  all: first [ discriminate Hd
             | exfalso; eapply Hrb; reflexivity
             | exfalso; eapply Hcl; reflexivity
             | repeat split; reflexivity ].
Qed.

End SessionFacts.

(** X26 on a block that draws an identifier. *)
Lemma session_commits_on_return_witness :
  let run := Database.get_session Store.uuid4 (Examples.world0 Examples.helpful) in
  exists t0 w0 w1 tb,
    Trace.events_of run = t0 ++ SessionOpen :: tb ++ [DbCommit; SessionClose]
    /\ Forall (fun e => e = SessionOpen \/ exists d, e = Sleep d) t0
    /\ Store.uuid4 w0 = (Ok 7%N, w1, tb)
    /\ session_rows (Trace.world_of run) = session_rows w1
    /\ committed_rows (Trace.world_of run) = session_rows w1.
Proof.
  intros run.
  apply (session_commits_on_return Store.uuid4 (Examples.world0 Examples.helpful)
           7%N (Trace.world_of run) (Trace.events_of run)).
  vm_compute. reflexivity.
Defined.

(** X28 on a block that raises at once. *)
Lemma failing_block_never_commits_witness :
  let e := mkExn "ValueError" "Paper not found" in
  exists e' w' rest,
    Database.get_session (raise (A := unit) e) (Examples.world0 Examples.helpful)
    = (Raise e', w', SessionOpen :: [] ++ DbRollback :: rest)
    /\ ~ In DbCommit rest
    /\ e' = e
    /\ rest = [SessionClose].
Proof.
  intros e.
  destruct (failing_block_never_commits (raise (A := unit) e)
              (Examples.world0 Examples.helpful) e
              (set_asked 1 (Examples.world0 Examples.helpful)) [])
    as (e' & w' & rest & Hrun & Hcommit & _ & Hplain).
  - intros x H. discriminate H.
  - reflexivity.
  - exists e', w', rest. split; [exact Hrun|]. split; [exact Hcommit|].
    destruct Hplain as (He & Hrest & _).
    + reflexivity.
    + intros x H. discriminate H.
    + intros x H. discriminate H.
    + split; assumption.
Defined.

(** A block that fails on name resolution and a closing that fails in
    the same way: the inner handler sleeps one second and doubles the
    delay, the outer handler sleeps two seconds, and the session of
    the second attempt makes the generator yield again. *)
Lemma unresolved_block_and_closing :
  let e := mkExn "OperationalError" "getaddrinfo failed" in
  let closing_fails (n : nat) (ev : event) : reply :=
    match ev with
    | SessionClose => Fault e
    | _ => Examples.helpful n ev
    end in
  let run := Database.get_session (raise (A := unit) e)
               (Examples.world0 closing_fails) in
  fst (fst run)
  = Raise (mkExn "RuntimeError" "generator didn't stop after athrow()")
  /\ Trace.events_of run
     = [SessionOpen; DbRollback; Sleep 1; SessionClose; Sleep 2; SessionOpen].
Proof. vm_compute. split; reflexivity. Qed.
